(** * Extraction pipeline and version tracker: a shallow embedding

    The development follows the Python sources file by file:
    - [PyStr]: the [str] methods the sources call;
    - [Json]: the documents exchanged between the stages, with
      [json.dumps] as [versioning/schema.py] calls it;
    - [Py], [Path]: the built-ins and the paths the sources use;
    - [Sha256]: [hashlib.sha256(..).hexdigest()];
    - [Schema], [VersionStorage], [CameoTracker], [SimulinkTracker];
    - [BatchProcessor], [Hierarchy];
    - [Xml], [SimulinkAnalyzer], [SlxcAnalyzer], [CameoAnalyzer];
    - [ConnectionVersioning], [Neo4jLoader], [CameoNeo4jLoader].

    Python strings are modelled by [string], one character per code point,
    for code points below 256; the character classes ([isspace], [isdigit],
    ...) are the Unicode ones on that range. *)

From Stdlib Require Import String Ascii List ZArith NArith Lia Bool Arith.
From Stdlib Require Import Permutation Sorted DecimalString.
Import ListNotations.
Local Open Scope string_scope.
Local Open Scope list_scope.

Set Implicit Arguments.


(* ================================================================== *)
(** * Python [str] methods *)
(* ================================================================== *)

Module PyStr.

Definition code (c : ascii) : N := N_of_ascii c.

Definition in_range (lo hi : N) (c : ascii) : bool :=
  (N.leb lo (code c) && N.leb (code c) hi)%bool.

(** [c.isspace()]: TAB..CR, FS..US, SPACE, NEL, NBSP. *)
Definition isspace_char (c : ascii) : bool :=
  (in_range 9 13 c || in_range 28 32 c
   || N.eqb (code c) 133 || N.eqb (code c) 160)%bool.

(** [c.isdigit()]: the decimal digits and the superscripts 1, 2, 3. *)
Definition isdigit_char (c : ascii) : bool :=
  (in_range 48 57 c || N.eqb (code c) 178 || N.eqb (code c) 179
   || N.eqb (code c) 185)%bool.


(** [c.isalpha()] *)
Definition isalpha_char (c : ascii) : bool :=
  (in_range 65 90 c || in_range 97 122 c
   || N.eqb (code c) 170 || N.eqb (code c) 181 || N.eqb (code c) 186
   || in_range 192 214 c || in_range 216 246 c || in_range 248 255 c)%bool.

(** [c.isalnum()]: alphabetic, decimal, digit or numeric (the vulgar
    fractions 188..190 are numeric). *)
Definition isalnum_char (c : ascii) : bool :=
  (isalpha_char c || isdigit_char c || in_range 188 190 c)%bool.

(** [s.isdigit()]: at least one character and all of them digits. *)
Definition isdigit (s : string) : bool :=
  match s with
  | EmptyString => false
  | _ => forallb isdigit_char (list_ascii_of_string s)
  end.

Fixpoint lstrip (s : string) : string :=
  match s with
  | EmptyString => EmptyString
  | String c r => if isspace_char c then lstrip r else s
  end.

(** [rstrip] drops the longest all-whitespace suffix. *)
Fixpoint rstrip (s : string) : string :=
  match s with
  | EmptyString => EmptyString
  | String c r =>
      match rstrip r with
      | EmptyString => if isspace_char c then EmptyString
                       else String c EmptyString
      | r' => String c r'
      end
  end.

(** [s.strip()] *)
Definition strip (s : string) : string := rstrip (lstrip s).

(** [c in cs] for a character and a string. *)
Fixpoint mem_char (c : ascii) (cs : string) : bool :=
  match cs with
  | EmptyString => false
  | String d r => (Ascii.eqb c d || mem_char c r)%bool
  end.

(** [s.replace(c, '')] for a one-character [c]. *)
Fixpoint remove_char (c : ascii) (s : string) : string :=
  match s with
  | EmptyString => EmptyString
  | String d r => if Ascii.eqb c d then remove_char c r
                  else String d (remove_char c r)
  end.

(** [needle in hay] *)
Fixpoint contains (needle hay : string) : bool :=
  if prefix needle hay then true
  else match hay with
       | EmptyString => false
       | String _ r => contains needle r
       end.

(** [c in s] for a character. *)
Definition has_char (c : ascii) (s : string) : bool := mem_char c s.

(** [s.startswith(p)] *)
Definition startswith (p s : string) : bool := prefix p s.

(** [s.split(c)] for a one-character separator: always at least one
    piece. *)
Fixpoint split (sep : ascii) (s : string) : list string :=
  match s with
  | EmptyString => [EmptyString]
  | String c r =>
      if Ascii.eqb c sep then EmptyString :: split sep r
      else match split sep r with
           | [] => [String c EmptyString]
           | p :: ps => String c p :: ps
           end
  end.

(** [s.rsplit(c, 1)]: split at the last occurrence of [c], if any. *)
Fixpoint rsplit1 (sep : ascii) (s : string) : list string :=
  match s with
  | EmptyString => [EmptyString]
  | String c r =>
      if has_char sep r then
        match rsplit1 sep r with
        | [a; b] => [String c a; b]
        | other => other
        end
      else if Ascii.eqb c sep then [EmptyString; r]
      else [s]
  end.

(** [s.lower()] and [s.upper()].  On the modelled range [lower] is exact.
    [upper] is exact except on the three characters whose upper case lies
    outside the range or is two characters long (181, 223, 255), which it
    leaves unchanged. *)
Definition lower_char (c : ascii) : ascii :=
  if (in_range 65 90 c || in_range 192 214 c || in_range 216 222 c)%bool
  then ascii_of_N (code c + 32) else c.

Definition upper_char (c : ascii) : ascii :=
  if (in_range 97 122 c || in_range 224 246 c || in_range 248 254 c)%bool
  then ascii_of_N (code c - 32) else c.

Fixpoint map_chars (f : ascii -> ascii) (s : string) : string :=
  match s with
  | EmptyString => EmptyString
  | String c r => String (f c) (map_chars f r)
  end.

Definition lower : string -> string := map_chars lower_char.
Definition upper : string -> string := map_chars upper_char.

(** [''.join(c for c in s if p(c))] *)
Fixpoint filter_chars (p : ascii -> bool) (s : string) : string :=
  match s with
  | EmptyString => EmptyString
  | String c r => if p c then String c (filter_chars p r)
                  else filter_chars p r
  end.

(** [s[-n:]] for [n > 0]. *)
Definition last_chars (n : nat) (s : string) : string :=
  substring (String.length s - n) n s.

(** [sep.join(pieces)] *)
Definition join (sep : string) (pieces : list string) : string :=
  String.concat sep pieces.



(** [str(n)] for an integer. *)
Definition str_of_Z (z : Z) : string := NilZero.string_of_int (Z.to_int z).

(** The longest prefix of characters satisfying [p], and the rest. *)
Fixpoint span (p : ascii -> bool) (s : string) : string * string :=
  match s with
  | EmptyString => (EmptyString, EmptyString)
  | String c r =>
      if p c then let '(a, b) := span p r in (String c a, b)
      else (EmptyString, s)
  end.

(** [s] without its prefix [p], when [s.startswith(p)]. *)
Fixpoint drop_prefix (p s : string) : option string :=
  match p, s with
  | EmptyString, _ => Some s
  | String a p', String b s' =>
      if Ascii.eqb a b then drop_prefix p' s' else None
  | String _ _, EmptyString => None
  end.

End PyStr.

(* ================================================================== *)
(** * Results of fallible code *)
(* ================================================================== *)

(** The exceptions the modelled code can raise. *)
Inductive exn : Type :=
| OSError            (* [open] on an unreadable path *)
| JSONDecodeError    (* [json.load] on text that is not JSON *)
| AttributeError
| TypeError
| KeyError.

Inductive result (A : Type) : Type :=
| Ok (a : A)
| Raise (e : exn).

Arguments Ok {A} a.
Arguments Raise {A} e.

Definition bind {A B : Type} (r : result A) (k : A -> result B) : result B :=
  match r with
  | Ok a => k a
  | Raise e => Raise e
  end.

Declare Scope result_scope.
Delimit Scope result_scope with result.
Notation "x <- r ;; k" := (bind r (fun x => k))
  (at level 61, r at next level, right associativity) : result_scope.
Notation "' p <- r ;; k" := (bind r (fun p => k))
  (at level 61, p pattern, r at next level, right associativity)
  : result_scope.
Local Open Scope result_scope.

(** A [for] loop whose body can raise, threading the loop state. *)
Fixpoint for_each {A S : Type} (body : S -> A -> result S)
         (items : list A) (s : S) : result S :=
  match items with
  | [] => Ok s
  | x :: rest => s' <- body s x ;; for_each body rest s'
  end.

(** A comprehension whose element expression can raise. *)
Fixpoint map_result {A B : Type} (f : A -> result B)
         (items : list A) : result (list B) :=
  match items with
  | [] => Ok []
  | x :: rest => y <- f x ;; ys <- map_result f rest ;; Ok (y :: ys)
  end.

(* ================================================================== *)
(** * Dictionaries *)
(* ================================================================== *)

(** A Python [dict] with [str] keys: the items in insertion order.  A
    dictionary never holds a key twice ([is_dict]). *)
Module Dict.

Definition t (V : Type) : Type := list (string * V).

Definition keys {V} (d : t V) : list string := map fst d.
Definition values {V} (d : t V) : list V := map snd d.

Definition is_dict {V} (d : t V) : Prop := NoDup (keys d).

(** [d.get(k)] *)
Fixpoint get {V} (k : string) (d : t V) : option V :=
  match d with
  | [] => None
  | (k', v) :: rest => if String.eqb k k' then Some v else get k rest
  end.

(** [k in d] *)
Definition mem {V} (k : string) (d : t V) : bool :=
  match get k d with Some _ => true | None => false end.

(** [d.get(k, default)] *)
Definition get_default {V} (k : string) (default : V) (d : t V) : V :=
  match get k d with Some v => v | None => default end.

(** [d[k] = v]: a present key keeps its position, a new key goes last. *)
Fixpoint set {V} (k : string) (v : V) (d : t V) : t V :=
  match d with
  | [] => [(k, v)]
  | (k', v') :: rest =>
      if String.eqb k k' then (k, v) :: rest
      else (k', v') :: set k v rest
  end.

(** [sorted(d.items())]: the items are tuples that differ in their keys,
    so the order is the one of the keys.  Insertion sort, stable. *)
Fixpoint insert_item {V} (x : string * V) (l : list (string * V))
  : list (string * V) :=
  match l with
  | [] => [x]
  | y :: rest =>
      if String.leb (fst x) (fst y) then x :: y :: rest
      else y :: insert_item x rest
  end.

Definition sorted_items {V} (d : t V) : list (string * V) :=
  fold_right insert_item [] d.

End Dict.

(* ================================================================== *)
(** * JSON documents and [json.dumps] *)
(* ================================================================== *)

Module Json.

(** What [json.load] returns (floats are left out: no stage of the
    pipeline writes one). *)
Unset Elimination Schemes.
Inductive json : Type :=
| JNull
| JBool (b : bool)
| JInt (z : Z)
| JStr (s : string)
| JList (items : list json)
| JDict (items : list (string * json)).
Set Elimination Schemes.

(** Every dictionary of the document holds each key once. *)
Fixpoint well_formed (j : json) : Prop :=
  match j with
  | JList l => (fix all (l : list json) : Prop :=
                  match l with
                  | [] => True
                  | x :: r => well_formed x /\ all r
                  end) l
  | JDict d => NoDup (map fst d) /\
               (fix all (d : list (string * json)) : Prop :=
                  match d with
                  | [] => True
                  | (_, v) :: r => well_formed v /\ all r
                  end) d
  | _ => True
  end.

(** The same document up to the order of the keys of its dictionaries:
    equal lengths, and every key of the first is a key of the second with
    the same value, as [dict.__eq__] decides it. *)
Fixpoint same_content (a b : json) : bool :=
  match a, b with
  | JNull, JNull => true
  | JBool x, JBool y => Bool.eqb x y
  | JInt x, JInt y => Z.eqb x y
  | JStr x, JStr y => String.eqb x y
  | JList l1, JList l2 =>
      (fix go (l1 l2 : list json) : bool :=
         match l1, l2 with
         | [], [] => true
         | x :: xs, y :: ys => (same_content x y && go xs ys)%bool
         | _, _ => false
         end) l1 l2
  | JDict d1, JDict d2 =>
      (Nat.eqb (List.length d1) (List.length d2) &&
       (fix go (d1 : list (string * json)) : bool :=
          match d1 with
          | [] => true
          | (k, v) :: r =>
              (match Dict.get k d2 with
               | Some w => same_content v w
               | None => false
               end && go r)%bool
          end) d1)%bool
  | _, _ => false
  end.

(** ** [json.dumps(obj, sort_keys=True)] with the default separators
    and [ensure_ascii=True]. *)

Definition hex_digit (n : N) : ascii :=
  if N.ltb n 10 then ascii_of_N (48 + n) else ascii_of_N (87 + n).

(** ['\\u{0:04x}'.format(n)] for [n < 256]. *)
Definition escape_u (c : ascii) : string :=
  let n := PyStr.code c in
  "\u00" ++ String (hex_digit (N.div n 16))
                   (String (hex_digit (N.modulo n 16)) EmptyString).

Definition dquote : ascii := ascii_of_N 34.

Definition escape_char (c : ascii) : string :=
  let n := PyStr.code c in
  if N.eqb n 34 then String "\"%char (String dquote EmptyString)
  else if N.eqb n 92 then "\\"
  else if N.eqb n 10 then "\n"
  else if N.eqb n 13 then "\r"
  else if N.eqb n 9 then "\t"
  else if N.eqb n 8 then "\b"
  else if N.eqb n 12 then "\f"
  else if (N.leb 32 n && N.leb n 126)%bool then String c EmptyString
  else escape_u c.

Fixpoint escape (s : string) : string :=
  match s with
  | EmptyString => EmptyString
  | String c r => escape_char c ++ escape r
  end.

Definition quote (s : string) : string :=
  String dquote (escape s ++ String dquote EmptyString).

Definition render_item (kv : string * string) : string :=
  quote (fst kv) ++ ": " ++ snd kv.

Definition render_dict (items : list (string * string)) : string :=
  match items with
  | [] => "{}"
  | _ => "{" ++ PyStr.join ", " (map render_item items) ++ "}"
  end.

Definition render_list (items : list string) : string :=
  match items with
  | [] => "[]"
  | _ => "[" ++ PyStr.join ", " items ++ "]"
  end.

(** The encoder sorts the items of a dictionary and then encodes each
    value; here each item carries the encoding of its value through the
    sort, which looks at keys only ([dumps_sorts_first] below). *)
Fixpoint dumps (j : json) : string :=
  match j with
  | JNull => "null"
  | JBool true => "true"
  | JBool false => "false"
  | JInt z => PyStr.str_of_Z z
  | JStr s => quote s
  | JList l => render_list (map dumps l)
  | JDict d =>
      render_dict
        (Dict.sorted_items (map (fun '(k, v) => (k, dumps v)) d))
  end.

(** ** Accessors with Python's dynamic checks *)

(** [data.get(k, {})] and [d.items()]: both need a dictionary. *)
Definition as_dict (j : json) : result (Dict.t json) :=
  match j with
  | JDict d => Ok d
  | _ => Raise AttributeError
  end.

Definition get_or_empty (k : string) (j : json) : result json :=
  d <- as_dict j ;; Ok (Dict.get_default k (JDict []) d).

End Json.
Export Json.

(* ================================================================== *)
(** * Built-ins on loaded values *)
(* ================================================================== *)

(** [str], [repr], [len] and iteration on what [json.load] returns. *)
Module Py.
Local Open Scope string_scope.

(** [c.isprintable()] *)
Definition printable (c : ascii) : bool :=
  let n := PyStr.code c in
  ((N.leb 32 n && N.leb n 126) || (N.leb 161 n && negb (N.eqb n 173)))%bool.

(** The two-digit escape of [repr] for a character that is not printed
    as it is. *)
Definition escape_x (c : ascii) : string :=
  let n := PyStr.code c in
  "\x" ++ String (hex_digit (N.div n 16))
                 (String (hex_digit (N.modulo n 16)) EmptyString).

Definition repr_char (quote c : ascii) : string :=
  let n := PyStr.code c in
  if (Ascii.eqb c quote || N.eqb n 92)%bool then String "\"%char
                                                   (String c EmptyString)
  else if N.eqb n 9 then "\t"
  else if N.eqb n 10 then "\n"
  else if N.eqb n 13 then "\r"
  else if printable c then String c EmptyString
  else escape_x c.

Fixpoint repr_chars (quote : ascii) (s : string) : string :=
  match s with
  | EmptyString => EmptyString
  | String c r => repr_char quote c ++ repr_chars quote r
  end.

(** [repr(s)]: in single quotes, unless [s] has a single quote and no
    double quote. *)
Definition repr_str (s : string) : string :=
  let quote :=
    if (PyStr.has_char "'" s && negb (PyStr.has_char dquote s))%bool
    then dquote else "'"%char in
  String quote (repr_chars quote s ++ String quote EmptyString).

Definition repr_items (items : list (string * string)) : string :=
  PyStr.join ", " (map (fun kv => fst kv ++ ": " ++ snd kv) items).

(** [repr(value)] *)
Fixpoint repr (j : json) : string :=
  match j with
  | JNull => "None"
  | JBool true => "True"
  | JBool false => "False"
  | JInt z => PyStr.str_of_Z z
  | JStr s => repr_str s
  | JList l => "[" ++ PyStr.join ", " (map repr l) ++ "]"
  | JDict d =>
      "{" ++ repr_items (map (fun '(k, v) => (repr_str k, repr v)) d) ++ "}"
  end.

(** [str(value)]: a string is itself, anything else its [repr]. *)
Definition str (j : json) : string :=
  match j with
  | JStr s => s
  | _ => repr j
  end.

(** [for x in value] and [[.. for x in value]]: the items of a list, the
    characters of a string, the keys of a dictionary. *)
Definition iterate (j : json) : result (list json) :=
  match j with
  | JList l => Ok l
  | JStr s =>
      Ok (map (fun c => JStr (String c EmptyString)) (list_ascii_of_string s))
  | JDict d => Ok (map JStr (Dict.keys d))
  | _ => Raise TypeError
  end.

(** [len(value)] *)
Definition len (j : json) : result nat :=
  match j with
  | JList l => Ok (List.length l)
  | JStr s => Ok (String.length s)
  | JDict d => Ok (List.length d)
  | _ => Raise TypeError
  end.

(** [a == b] for two values that can be keys of a dictionary: [True] is
    [1] and [False] is [0]. *)
Definition key_eqb (a b : json) : bool :=
  let number (j : json) : option Z :=
    match j with
    | JBool true => Some 1%Z
    | JBool false => Some 0%Z
    | JInt z => Some z
    | _ => None
    end in
  match a, b with
  | JNull, JNull => true
  | JStr s, JStr t => String.eqb s t
  | _, _ =>
      match number a, number b with
      | Some x, Some y => Z.eqb x y
      | _, _ => false
      end
  end.

(** [hash(value)] raises on a list or a dictionary. *)
Definition hashable (j : json) : bool :=
  match j with
  | JList _ | JDict _ => false
  | _ => true
  end.

(** [isinstance(value, dict)] and [isinstance(value, list)] *)
Definition is_dict (j : json) : bool :=
  match j with JDict _ => true | _ => false end.

Definition is_list (j : json) : bool :=
  match j with JList _ => true | _ => false end.

End Py.

(** The parts of a [Path] after its anchor; [name] is the last part, or
    the empty string when there is none, and [parent] drops it. *)
Module Path.

Definition t : Type := list string.

Definition name (p : t) : string := last p EmptyString.

Definition parent (p : t) : t := removelast p.

End Path.

(* ================================================================== *)
(** * [hashlib.sha256] *)
(* ================================================================== *)

Module Sha256.
Local Open Scope N_scope.

Definition mask32 : N := 4294967295.
Definition add32 (x y : N) : N := N.land (x + y) mask32.
Definition not32 (x : N) : N := N.lxor x mask32.
Definition rotr (n x : N) : N :=
  N.land (N.lor (N.shiftr x n) (N.shiftl x (32 - n))) mask32.
Definition shr (n x : N) : N := N.shiftr x n.

Definition ch (e f g : N) : N :=
  N.lxor (N.land e f) (N.land (not32 e) g).
Definition maj (a b c : N) : N :=
  N.lxor (N.lxor (N.land a b) (N.land a c)) (N.land b c).
Definition big_sigma0 (a : N) : N :=
  N.lxor (N.lxor (rotr 2 a) (rotr 13 a)) (rotr 22 a).
Definition big_sigma1 (e : N) : N :=
  N.lxor (N.lxor (rotr 6 e) (rotr 11 e)) (rotr 25 e).
Definition small_sigma0 (x : N) : N :=
  N.lxor (N.lxor (rotr 7 x) (rotr 18 x)) (shr 3 x).
Definition small_sigma1 (x : N) : N :=
  N.lxor (N.lxor (rotr 17 x) (rotr 19 x)) (shr 10 x).

(** The initial hash value and the round constants of FIPS 180-4, in
    decimal. *)
Definition initial_state : list N :=
  [1779033703; 3144134277; 1013904242; 2773480762;
   1359893119; 2600822924; 528734635; 1541459225].

Definition round_constants : list N :=
  [1116352408; 1899447441; 3049323471; 3921009573;
   961987163; 1508970993; 2453635748; 2870763221;
   3624381080; 310598401; 607225278; 1426881987;
   1925078388; 2162078206; 2614888103; 3248222580;
   3835390401; 4022224774; 264347078; 604807628;
   770255983; 1249150122; 1555081692; 1996064986;
   2554220882; 2821834349; 2952996808; 3210313671;
   3336571891; 3584528711; 113926993; 338241895;
   666307205; 773529912; 1294757372; 1396182291;
   1695183700; 1986661051; 2177026350; 2456956037;
   2730485921; 2820302411; 3259730800; 3345764771;
   3516065817; 3600352804; 4094571909; 275423344;
   430227734; 506948616; 659060556; 883997877;
   958139571; 1322822218; 1537002063; 1747873779;
   1955562222; 2024104815; 2227730452; 2361852424;
   2428436474; 2756734187; 3204031479; 3329325298].

(** [s.encode('utf-8')] for code points below 256. *)
Fixpoint encode_utf8 (s : string) : list N :=
  match s with
  | EmptyString => []
  | String c r =>
      let n := N_of_ascii c in
      if n <? 128 then n :: encode_utf8 r
      else (192 + n / 64) :: (128 + n mod 64) :: encode_utf8 r
  end.

(** Big-endian bytes of [x], [k] of them. *)
Fixpoint be_bytes (k : nat) (x : N) : list N :=
  match k with
  | O => []
  | S k' => be_bytes k' (x / 256) ++ [x mod 256]
  end.

(** The message, the byte 0x80, zeros up to 56 modulo 64, and the bit
    length on eight bytes. *)
Definition pad (msg : list N) : list N :=
  let len := N.of_nat (List.length msg) in
  let zeros := N.to_nat ((55 + 64 - len mod 64) mod 64) in
  msg ++ [128] ++ repeat 0 zeros ++ be_bytes 8 (8 * len).

Fixpoint words_of_bytes (fuel : nat) (bs : list N) : list N :=
  match fuel, bs with
  | S fuel', b0 :: b1 :: b2 :: b3 :: rest =>
      (((b0 * 256 + b1) * 256 + b2) * 256 + b3)
        :: words_of_bytes fuel' rest
  | _, _ => []
  end.

(** The schedule, most recent word first: sixteen message words, then
    forty-eight derived ones. *)
Fixpoint extend (k : nat) (rev_w : list N) : list N :=
  match k with
  | O => rev_w
  | S k' =>
      let w2 := nth 1 rev_w 0 in
      let w7 := nth 6 rev_w 0 in
      let w15 := nth 14 rev_w 0 in
      let w16 := nth 15 rev_w 0 in
      extend k'
        (add32 (add32 (small_sigma1 w2) w7)
               (add32 (small_sigma0 w15) w16) :: rev_w)
  end.

Definition schedule (block : list N) : list N :=
  rev (extend 48 (rev block)).

Definition round (st : list N) (kw : N * N) : list N :=
  match st with
  | [a; b; c; d; e; f; g; h] =>
      let t1 := add32 (add32 (add32 h (big_sigma1 e)) (ch e f g))
                      (add32 (fst kw) (snd kw)) in
      let t2 := add32 (big_sigma0 a) (maj a b c) in
      [add32 t1 t2; a; b; c; add32 d t1; e; f; g]
  | _ => st
  end.

Definition compress (st : list N) (block : list N) : list N :=
  let st' := fold_left round (combine round_constants (schedule block)) st
  in map (fun p => add32 (fst p) (snd p)) (combine st st').

Fixpoint blocks (fuel : nat) (ws : list N) : list (list N) :=
  match fuel, ws with
  | S fuel', _ :: _ => firstn 16 ws :: blocks fuel' (skipn 16 ws)
  | _, _ => []
  end.

Definition digest_words (msg : list N) : list N :=
  let bs := pad msg in
  let ws := words_of_bytes (List.length bs) bs in
  fold_left compress (blocks (List.length ws) ws) initial_state.

Definition hex_of_byte (b : N) : string :=
  String (Json.hex_digit (b / 16))
         (String (Json.hex_digit (b mod 16)) EmptyString).

(** [hashlib.sha256(s.encode('utf-8')).hexdigest()] *)
Definition hexdigest (s : string) : string :=
  String.concat EmptyString
    (map hex_of_byte
         (flat_map (be_bytes 4) (digest_words (encode_utf8 s)))).

End Sha256.

(* ================================================================== *)
(** * Files *)
(* ================================================================== *)

(** What a path holds when the code opens it and calls [json.load]. *)
Inductive file : Type :=
| Missing                 (* [path.exists()] is false *)
| Unreadable              (* exists, [open] raises *)
| Malformed               (* exists, its text is not JSON *)
| Holds (doc : json).     (* exists, its text parses to [doc] *)

Definition exists_ (f : file) : bool :=
  match f with Missing => false | _ => true end.

(** [with open(path) as f: json.load(f)] *)
Definition json_load (f : file) : result json :=
  match f with
  | Missing | Unreadable => Raise OSError
  | Malformed => Raise JSONDecodeError
  | Holds doc => Ok doc
  end.

(** The files the trackers and the batch processor touch, by path. *)
Definition filesystem : Type := string -> file.

(** [with open(path, 'w') as f: json.dump(doc, f)] *)
Definition write_json (path : string) (doc : json) (fs : filesystem)
  : filesystem :=
  fun p => if String.eqb p path then Holds doc else fs p.

(** Truth value of a loaded document ([if not blocks]). *)
Definition truthy (j : json) : bool :=
  match j with
  | JNull => false
  | JBool b => b
  | JInt z => negb (Z.eqb z 0)
  | JStr s => negb (String.eqb s EmptyString)
  | JList l => match l with [] => false | _ => true end
  | JDict d => match d with [] => false | _ => true end
  end.

(** [value == s] for a [str] [s]. *)
Definition eq_str (value : json) (s : string) : bool :=
  match value with
  | JStr t => String.eqb t s
  | _ => false
  end.

(* ================================================================== *)
(** * backend/enums.py *)
(* ================================================================== *)

Inductive ArtifactType : Type := REQUIREMENT | MODEL.
Inductive Tool : Type := CAMEO | SIMULINK.

Definition ArtifactType_value (t : ArtifactType) : string :=
  match t with REQUIREMENT => "requirement" | MODEL => "model" end.

Definition Tool_value (t : Tool) : string :=
  match t with CAMEO => "cameo" | SIMULINK => "simulink" end.

(* ================================================================== *)
(** * backend/versioning/schema.py *)
(* ================================================================== *)

Module Schema.

(** The dataclass checks no field type: a record loaded from a store
    holds whatever values the store gave. *)
Record ArtifactVersion : Type := {
  artifact_id : json;
  version_id : json;
  artifact_type : json;
  tool : json;
  timestamp : json;
  parent_version_id : json;   (* default None *)
  snapshot : json             (* default None *)
}.

Definition to_dict (v : ArtifactVersion) : json :=
  JDict [("artifact_id", artifact_id v);
         ("version_id", version_id v);
         ("artifact_type", artifact_type v);
         ("tool", tool v);
         ("timestamp", timestamp v);
         ("parent_version_id", parent_version_id v);
         ("snapshot", snapshot v)].

Definition field_names : list string :=
  ["artifact_id"; "version_id"; "artifact_type"; "tool"; "timestamp";
   "parent_version_id"; "snapshot"].

Definition is_field (k : string) : bool :=
  existsb (String.eqb k) field_names.

(** The constructor called with the items of [data] as keyword
    arguments: a mapping, no unexpected keyword, the five fields without
    default present. *)
Definition from_dict (data : json) : result ArtifactVersion :=
  match data with
  | JDict d =>
      if forallb is_field (Dict.keys d) then
        match Dict.get "artifact_id" d, Dict.get "version_id" d,
              Dict.get "artifact_type" d, Dict.get "tool" d,
              Dict.get "timestamp" d with
        | Some a, Some v, Some ty, Some tl, Some ts =>
            Ok {| artifact_id := a; version_id := v;
                  artifact_type := ty; tool := tl; timestamp := ts;
                  parent_version_id :=
                    Dict.get_default "parent_version_id" JNull d;
                  snapshot := Dict.get_default "snapshot" JNull d |}
        | _, _, _, _, _ => Raise TypeError
        end
      else Raise TypeError
  | _ => Raise TypeError
  end.

Definition compute_artifact_hash (artifact_data : json) : string :=
  let data_str := dumps artifact_data in
  Sha256.hexdigest data_str.

(** [now] is what [datetime.utcnow().isoformat()] returns at the call. *)
Definition create_artifact_version (now : string)
           (artifact_id : string) (artifact_data : json)
           (artifact_type : ArtifactType) (tool : Tool)
           (parent_version_id : json) : ArtifactVersion :=
  let version_id := compute_artifact_hash artifact_data in
  let snapshot_str := dumps artifact_data in
  {| Schema.artifact_id := JStr artifact_id;
     Schema.version_id := JStr version_id;
     Schema.artifact_type := JStr (ArtifactType_value artifact_type);
     Schema.tool := JStr (Tool_value tool);
     Schema.timestamp := JStr now;
     Schema.parent_version_id := parent_version_id;
     Schema.snapshot := JStr snapshot_str |}.

End Schema.
Export Schema.

(* ================================================================== *)
(** * backend/version_storage.py *)
(* ================================================================== *)

Module VersionStorage.

Definition load (f : file) : result (Dict.t ArtifactVersion) :=
  if negb (exists_ f) then Ok []
  else
    raw <- json_load f ;;
    items <- as_dict raw ;;
    map_result (fun '(k, v) => x <- from_dict v ;; Ok (k, x)) items.

Definition document (versions : Dict.t ArtifactVersion) : json :=
  JDict (map (fun '(k, v) => (k, to_dict v)) versions).

Definition save (file_path : string) (versions : Dict.t ArtifactVersion)
           (fs : filesystem) : filesystem :=
  write_json file_path (document versions) fs.

End VersionStorage.

(* ================================================================== *)
(** * backend/versioning/cameo_tracker.py *)
(* ================================================================== *)

(** The clock: [clock n] is the reading at the [n]-th record created in
    a run. *)
Definition clock : Type := nat -> string.

(** What a tracker returns: the versions, the count of new artifacts and
    the count of changed ones. *)
Definition tracked : Type := Dict.t ArtifactVersion * nat * nat.

Module CameoTracker.

Definition req_file : string :=
  "cameo_integration/all_requirements_with_hierarchy.json".
Definition version_file : string :=
  "cameo_integration/cameo_versions.json".

Record loop_state : Type := {
  current_versions : Dict.t ArtifactVersion;
  new_count : nat;
  changed_count : nat;
  created : nat            (* records created so far *)
}.

Definition loop_body (now : clock)
           (previous_versions : Dict.t ArtifactVersion)
           (st : loop_state) (item : string * json) : loop_state :=
  let '(artifact_id, artifact_data) := item in
  let current_hash := compute_artifact_hash artifact_data in
  match Dict.get artifact_id previous_versions with
  | Some prev =>
      if eq_str (version_id prev) current_hash then
        {| current_versions :=
             Dict.set artifact_id prev (current_versions st);
           new_count := new_count st;
           changed_count := changed_count st;
           created := created st |}
      else
        let parent_id := version_id prev in
        let version :=
          create_artifact_version (now (created st)) artifact_id
            artifact_data REQUIREMENT CAMEO parent_id in
        {| current_versions :=
             Dict.set artifact_id version (current_versions st);
           new_count := new_count st;
           changed_count := S (changed_count st);
           created := S (created st) |}
  | None =>
      let version :=
        create_artifact_version (now (created st)) artifact_id
          artifact_data REQUIREMENT CAMEO JNull in
      {| current_versions :=
           Dict.set artifact_id version (current_versions st);
         new_count := S (new_count st);
         changed_count := changed_count st;
         created := S (created st) |}
  end.

Definition loop (now : clock) (previous_versions : Dict.t ArtifactVersion)
           (nodes : Dict.t json) : loop_state :=
  fold_left (loop_body now previous_versions) nodes
    {| current_versions := []; new_count := 0; changed_count := 0;
       created := 0 |}.

Definition track_cameo_requirements (now : clock) (fs : filesystem)
  : result (filesystem * tracked) :=
  if negb (exists_ (fs req_file)) then Ok (fs, ([], 0, 0))
  else
    data <- json_load (fs req_file) ;;
    nodes <- get_or_empty "nodes" data ;;
    previous_versions <- VersionStorage.load (fs version_file) ;;
    items <- as_dict nodes ;;
    let st := loop now previous_versions items in
    Ok (VersionStorage.save version_file (current_versions st) fs,
        (current_versions st, new_count st, changed_count st)).

End CameoTracker.

(* ================================================================== *)
(** * backend/versioning/simulink_tracker.py *)
(* ================================================================== *)

Module SimulinkTracker.

Definition version_file (model_name : string) : string :=
  "simulink_models/" ++ model_name ++ "/simulink_versions.json".

Record loop_state : Type := {
  current_versions : Dict.t ArtifactVersion;
  all_versions : Dict.t ArtifactVersion;
  total_new : nat;
  total_changed : nat;
  created : nat
}.

Definition loop_body (now : clock)
           (previous_versions : Dict.t ArtifactVersion)
           (st : loop_state) (item : string * json) : loop_state :=
  let '(block_id, block_data) := item in
  let current_hash := compute_artifact_hash block_data in
  let prev_version := Dict.get block_id previous_versions in
  (* a dataclass instance is always true: [if prev_version] tests for
     presence *)
  let parent_id :=
    match prev_version with Some p => version_id p | None => JNull end in
  match prev_version with
  | Some prev =>
      if eq_str (version_id prev) current_hash then
        {| current_versions :=
             Dict.set block_id prev (current_versions st);
           all_versions := all_versions st;
           total_new := total_new st;
           total_changed := total_changed st;
           created := created st |}
      else
        let version :=
          create_artifact_version (now (created st)) block_id block_data
            MODEL SIMULINK parent_id in
        {| current_versions :=
             Dict.set block_id version (current_versions st);
           all_versions := Dict.set block_id version (all_versions st);
           total_new := total_new st;
           total_changed := S (total_changed st);
           created := S (created st) |}
  | None =>
      let version :=
        create_artifact_version (now (created st)) block_id block_data
          MODEL SIMULINK parent_id in
      {| current_versions :=
           Dict.set block_id version (current_versions st);
         all_versions := Dict.set block_id version (all_versions st);
         total_new := S (total_new st);
         total_changed := total_changed st;
         created := S (created st) |}
  end.

(** The state carried from one model to the next. *)
Record run_state : Type := {
  files : filesystem;
  versions : Dict.t ArtifactVersion;
  news : nat;
  changes : nat;
  ticks : nat
}.

(** One [block_connectivity.json]: the name of the model directory two
    levels up, and what the file holds. *)
Definition process_model (now : clock) (rs : run_state)
           (found : string * file) : result run_state :=
  let '(model_name, connectivity_file) := found in
  data <- json_load connectivity_file ;;
  blocks <- get_or_empty "nodes" data ;;
  if negb (truthy blocks) then Ok rs
  else
    previous_versions <-
      VersionStorage.load (files rs (version_file model_name)) ;;
    items <- as_dict blocks ;;
    let st :=
      fold_left (loop_body now previous_versions) items
        {| current_versions := []; all_versions := versions rs;
           total_new := news rs; total_changed := changes rs;
           created := ticks rs |} in
    Ok {| files := VersionStorage.save (version_file model_name)
                     (current_versions st) (files rs);
          versions := all_versions st;
          news := total_new st;
          changes := total_changed st;
          ticks := created st |}.

(** [connectivity_files]: [None] when [simulink_models] does not exist,
    else the files [rglob] finds, in its order. *)
Definition track_simulink_blocks (now : clock)
           (connectivity_files : option (list (string * file)))
           (fs : filesystem) : result (filesystem * tracked) :=
  match connectivity_files with
  | None => Ok (fs, ([], 0, 0))
  | Some [] => Ok (fs, ([], 0, 0))
  | Some found =>
      rs <- for_each (process_model now) found
              {| files := fs; versions := []; news := 0; changes := 0;
                 ticks := 0 |} ;;
      Ok (files rs, (versions rs, news rs, changes rs))
  end.

End SimulinkTracker.

(* ================================================================== *)
(** * xml.etree.ElementTree *)
(* ================================================================== *)

Module Xml.

Unset Elimination Schemes.
Inductive element : Type :=
| Element (tag : string) (attrib : Dict.t string) (text : option string)
          (children : list element).
Set Elimination Schemes.

Definition tag (e : element) : string :=
  match e with Element t _ _ _ => t end.
Definition attrib (e : element) : Dict.t string :=
  match e with Element _ a _ _ => a end.
Definition text (e : element) : option string :=
  match e with Element _ _ t _ => t end.
Definition children (e : element) : list element :=
  match e with Element _ _ _ c => c end.

(** [elem.get(key)] and [elem.get(key, default)] *)
Definition get (key : string) (e : element) : option string :=
  Dict.get key (attrib e).

Definition get_or (key : string) (default : string) (e : element)
  : string :=
  Dict.get_default key default (attrib e).

(** [elem.iter()]: the element and its descendants, in document order. *)
Fixpoint iter (e : element) : list element :=
  match e with
  | Element _ _ _ cs =>
      e :: (fix over (cs : list element) : list element :=
              match cs with
              | [] => []
              | c :: rest => iter c ++ over rest
              end) cs
  end.

(** [elem.findall('.//' + tag)]: the descendants with that tag. *)
Definition descendants (e : element) : list element :=
  flat_map iter (children e).

Definition findall_descendants (t : string) (e : element) : list element :=
  filter (fun d => String.eqb (tag d) t) (descendants e).

(** [elem.findall(tag)]: the direct children with that tag. *)
Definition findall (t : string) (e : element) : list element :=
  filter (fun c => String.eqb (tag c) t) (children e).



End Xml.
Export Xml.

(* ================================================================== *)
(** * backend/simulink_analyzer.py: connections *)
(* ================================================================== *)

Module SimulinkAnalyzer.

Record Connection : Type := {
  source_block : string;
  source_port : Z;
  dest_block : string;
  dest_port : Z;
  signal_name : option string;
  branches : option (list (string * Z))    (* default None *)
}.






(** ** Blocks and the exported graph *)

Record Block : Type := {
  sid : option string;          (* [block_element.get('SID')] *)
  name : string;
  block_type : string;
  position : list Z;
  properties : Dict.t string;
  parent_system : string;       (* default: the empty string *)
  input_ports : Z;              (* default 0 *)
  output_ports : Z              (* default 0 *)
}.

(** [self.blocks] and the [nodes] of the export are dictionaries keyed by
    SID; a block element without the attribute is stored under [None]. *)
Definition sid_eqb (a b : option string) : bool :=
  match a, b with
  | Some s, Some t => String.eqb s t
  | None, None => true
  | _, _ => false
  end.

(** [k in blocks] *)
Fixpoint has_block (k : option string)
         (blocks : list (option string * Block)) : bool :=
  match blocks with
  | [] => false
  | (k', _) :: rest => (sid_eqb k k' || has_block k rest)%bool
  end.

(** A value of [nodes]. *)
Record node : Type := {
  node_name : string;
  node_type : string;
  node_parent_system : string;
  node_model_name : string;
  incoming : list string;
  outgoing : list string
}.

Definition graph : Type := list (option string * node).

(** [nodes.get(k)] and [k in nodes] *)
Fixpoint get_node (k : option string) (nodes : graph) : option node :=
  match nodes with
  | [] => None
  | (k', n) :: rest => if sid_eqb k k' then Some n else get_node k rest
  end.

Definition has_node (k : option string) (nodes : graph) : bool :=
  match get_node k nodes with Some _ => true | None => false end.

(** [nodes[k] = n] *)
Fixpoint set_node (k : option string) (n : node) (nodes : graph) : graph :=
  match nodes with
  | [] => [(k, n)]
  | (k', n') :: rest =>
      if sid_eqb k k' then (k, n) :: rest
      else (k', n') :: set_node k n rest
  end.

(** [nodes[k][..].append(..)] for a key that is there: the node is
    changed in place. *)
Fixpoint update_node (k : option string) (f : node -> node)
         (nodes : graph) : graph :=
  match nodes with
  | [] => []
  | (k', n) :: rest =>
      if sid_eqb k k' then (k', f n) :: rest
      else (k', n) :: update_node k f rest
  end.

(** The name of the model: the directory of the model, or the one above
    it when the directory is called [simulink]. *)
Definition model_name_of (model_path : Path.t) : string :=
  if String.eqb (PyStr.lower (Path.name model_path)) "simulink"
  then Path.name (Path.parent model_path)
  else Path.name model_path.

Definition add_block (model_name : string) (nodes : graph)
           (item : option string * Block) : graph :=
  let '(sid, block) := item in
  set_node sid
    {| node_name := name block;
       node_type := block_type block;
       node_parent_system := parent_system block;
       node_model_name := model_name;
       incoming := [];
       outgoing := [] |}
    nodes.

Definition append_outgoing (dst : string) (n : node) : node :=
  {| node_name := node_name n; node_type := node_type n;
     node_parent_system := node_parent_system n;
     node_model_name := node_model_name n;
     incoming := incoming n;
     outgoing := outgoing n ++ [dst] |}.

Definition append_incoming (src : string) (n : node) : node :=
  {| node_name := node_name n; node_type := node_type n;
     node_parent_system := node_parent_system n;
     node_model_name := node_model_name n;
     incoming := incoming n ++ [src];
     outgoing := outgoing n |}.

Definition add_connection (nodes : graph) (conn : Connection) : graph :=
  let src := source_block conn in
  let dst := dest_block conn in
  if (has_node (Some src) nodes && has_node (Some dst) nodes)%bool then
    update_node (Some dst) (append_incoming src)
      (update_node (Some src) (append_outgoing dst) nodes)
  else nodes.

(** [nodes] when the two loops of [export_to_json] are done. *)
Definition exported_nodes (model_path : Path.t)
           (blocks : list (option string * Block))
           (connections : list Connection) : graph :=
  fold_left add_connection connections
    (fold_left (add_block (model_name_of model_path)) blocks []).

Definition node_document (n : node) : json :=
  JDict [("name", JStr (node_name n));
         ("node_type", JStr (node_type n));
         ("parent_system", JStr (node_parent_system n));
         ("model_name", JStr (node_model_name n));
         ("incoming", JList (map JStr (incoming n)));
         ("outgoing", JList (map JStr (outgoing n)))].

(** [json.dump] writes the key [None] as [null]. *)
Definition key_text (k : option string) : string :=
  match k with
  | Some s => s
  | None => "null"
  end.

(** The document [export_to_json] writes, as [json.load] reads it back:
    should the text hold a key twice (a block without SID beside a block
    whose SID is [null]), the later value is the one loaded. *)
Definition export_to_json (model_path : Path.t)
           (blocks : list (option string * Block))
           (connections : list Connection) : json :=
  JDict
    [("nodes",
      JDict (fold_left
               (fun d '(k, n) => Dict.set (key_text k) (node_document n) d)
               (exported_nodes model_path blocks connections) []))].

End SimulinkAnalyzer.

(* ================================================================== *)
(** * backend/simulink_analyzer.py: code mappings *)
(* ================================================================== *)

Module SlxcAnalyzer.

Record CodeMapping : Type := {
  file_path : string;
  line_number : Z;
  block_path : string;
  block_name : string;
  code_line : string
}.

Definition quote_char : ascii := "'"%char.

(** One match of [BLOCK_REF_PATTERN], a quote, [<], a run without [>],
    [>/], a run without quote, a quote, at the start of [s]: the two
    groups and the length of the match.  Both runs are greedy and end at
    the first excluded character, so no other split can match. *)
Definition match_at (s : string) : option (string * string * nat) :=
  match PyStr.drop_prefix "'<" s with
  | None => None
  | Some s1 =>
      let '(path, s2) :=
        PyStr.span (fun c => negb (Ascii.eqb c ">"%char)) s1 in
      match path, PyStr.drop_prefix ">/" s2 with
      | String _ _, Some s3 =>
          let '(name, s4) :=
            PyStr.span (fun c => negb (Ascii.eqb c quote_char)) s3 in
          match name, s4 with
          | String _ _, String _ _ =>
              Some (path, name,
                    5 + String.length path + String.length name)%nat
          | _, _ => None
          end
      | _, _ => None
      end
  end.

(** [BLOCK_REF_PATTERN.findall(line)]: the matches from left to right,
    without overlap; [skip] is what is left of the last match. *)
Fixpoint scan (skip : nat) (s : string) : list (string * string) :=
  match s with
  | EmptyString => []
  | String _ rest =>
      match skip with
      | S k => scan k rest
      | O =>
          match match_at s with
          | Some (path, name, len) => (path, name) :: scan (len - 1) rest
          | None => scan 0 rest
          end
      end
  end.

Definition findall (line : string) : list (string * string) := scan 0 line.

(** [enumerate(lines, start)] *)
Fixpoint enumerate {A} (start : Z) (l : list A) : list (Z * A) :=
  match l with
  | [] => []
  | x :: rest => (start, x) :: enumerate (start + 1) rest
  end.

Definition newline : ascii := ascii_of_N 10.

(** The mappings [_parse_c_file] appends to [self.code_mappings]. *)
Definition _parse_c_file (file_path : string) (content : string)
  : list CodeMapping :=
  let lines := PyStr.split newline content in
  flat_map
    (fun '(line_num, line) =>
       map (fun '(path, name) =>
              let block_path := ("<" ++ path ++ ">/" ++ name)%string in
              {| SlxcAnalyzer.file_path := file_path;
                 line_number := line_num;
                 SlxcAnalyzer.block_path := block_path;
                 block_name := name;
                 code_line := PyStr.strip line |})
           (findall line))
    (enumerate 1 lines).

Definition analyze_code_mappings (c_files : Dict.t string)
  : list CodeMapping :=
  flat_map (fun '(file_path, content) => _parse_c_file file_path content)
           c_files.

(** [by_location]: a dictionary keyed by [(file_path, block_path)]. *)
Definition location_key : Type := string * string.

Definition key_eqb (a b : location_key) : bool :=
  (String.eqb (fst a) (fst b) && String.eqb (snd a) (snd b))%bool.

Fixpoint get_location (k : location_key)
         (d : list (location_key * list json)) : option (list json) :=
  match d with
  | [] => None
  | (k', refs) :: rest => if key_eqb k k' then Some refs
                          else get_location k rest
  end.

(** [by_location.setdefault(key, []).append(ref)] as the loop writes it. *)
Fixpoint add_reference (k : location_key) (ref : json)
         (d : list (location_key * list json))
  : list (location_key * list json) :=
  match d with
  | [] => [(k, [ref])]
  | (k', refs) :: rest =>
      if key_eqb k k' then (k', refs ++ [ref]) :: rest
      else (k', refs) :: add_reference k ref rest
  end.

Definition reference (m : CodeMapping) : json :=
  JDict [("line", JInt (line_number m)); ("code", JStr (code_line m))].

Definition group (code_mappings : list CodeMapping)
  : list (location_key * list json) :=
  fold_left (fun by_location m =>
               add_reference (file_path m, block_path m) (reference m)
                             by_location)
            code_mappings [].

(** [block_path.split('/')[-1]] *)
Definition last_segment (block_path : string) : string :=
  last (PyStr.split "/"%char block_path) EmptyString.

Definition mapping_entry (entry : location_key * list json) : json :=
  let '((file_path, block_path), refs) := entry in
  JDict [("file_path", JStr file_path);
         ("block_path", JStr block_path);
         ("block_name", JStr (last_segment block_path));
         ("location", JStr (file_path ++ ":" ++ block_path)%string);
         ("code_references", JList refs)].

(** The document [export_to_json] writes and returns. *)
Definition export_to_json (slxc_path : string) (c_files : Dict.t string)
           (code_mappings : list CodeMapping) : json :=
  JDict [("source_file", JStr slxc_path);
         ("c_files", JList (map JStr (Dict.keys c_files)));
         ("mappings", JList (map mapping_entry (group code_mappings)))].

End SlxcAnalyzer.

(* ================================================================== *)
(** * backend/cameo_integration/extract_hierarchy.py *)
(* ================================================================== *)

Module Hierarchy.

(** [node[key]] on a loaded value. *)
Definition item (key : string) (node : json) : result json :=
  match node with
  | JDict d => match Dict.get key d with
               | Some v => Ok v
               | None => Raise KeyError
               end
  | _ => Raise TypeError
  end.

(** [s in x] for a [str] [s]: membership in a list, substring of a
    string, key of a dictionary. *)
Definition py_in (s : string) (x : json) : result bool :=
  match x with
  | JList l => Ok (existsb (fun y => eq_str y s) l)
  | JStr t => Ok (PyStr.contains s t)
  | JDict d => Ok (Dict.mem s d)
  | _ => Raise TypeError
  end.

(** [x.append(s)] *)
Definition append (s : string) (x : json) : result json :=
  match x with
  | JList l => Ok (JList (l ++ [JStr s]))
  | _ => Raise AttributeError
  end.

(** The list under [nodes[node_id][key]] after [.append(s)]: the list
    object is changed in place, every key keeps its position. *)
Definition store (node_id key : string) (value : json)
           (nodes : Dict.t json) : Dict.t json :=
  match Dict.get node_id nodes with
  | Some (JDict d) => Dict.set node_id (JDict (Dict.set key value d)) nodes
  | _ => nodes
  end.

Definition nodes_item (node_id : string) (nodes : Dict.t json)
  : result json :=
  match Dict.get node_id nodes with
  | Some node => Ok node
  | None => Raise KeyError
  end.

(** [if s not in nodes[node_id][key]: nodes[node_id][key].append(s)];
    the flag tells whether an entry was added. *)
Definition add_if_absent (node_id key s : string) (nodes : Dict.t json)
  : result (Dict.t json * bool) :=
  node <- nodes_item node_id nodes ;;
  entries <- item key node ;;
  present <- py_in s entries ;;
  if present then Ok (nodes, false)
  else entries' <- append s entries ;;
       Ok (store node_id key entries' nodes, true).

Definition dot : ascii := "."%char.

(** The body of the loop for one [req_id]; the state is the nodes map
    and [relationships_added]. *)
Definition loop_body (st : Dict.t json * nat) (req_id : string)
  : result (Dict.t json * nat) :=
  let '(nodes, relationships_added) := st in
  if negb (PyStr.has_char dot req_id) then Ok st
  else
    match PyStr.rsplit1 dot req_id with
    | [parent_id; _] =>
        if Dict.mem parent_id nodes then
          '(nodes1, added) <- add_if_absent req_id "incoming" parent_id
                                nodes ;;
          '(nodes2, _) <- add_if_absent parent_id "outgoing" req_id
                            nodes1 ;;
          Ok (nodes2,
              if added then S relationships_added
              else relationships_added)
        else Ok st
    | _ => Ok st
    end.

(** The loop over [nodes.keys()]. *)
Definition infer (nodes : Dict.t json) : result (Dict.t json * nat) :=
  for_each loop_body (Dict.keys nodes) (nodes, 0).

(** [data] and [nodes] when the loop is done: the nodes map [data]
    holds is updated in place; without the key [nodes] is a fresh empty
    dictionary and [data] stays as it was read.  A [nodes] that is no
    dictionary raises before the loop: at [len(nodes)] when it has no
    length, at [nodes.keys()] otherwise. *)
Definition updated (data : json) : result (json * Dict.t json) :=
  d <- as_dict data ;;
  match Dict.get "nodes" d with
  | None => Ok (data, [])
  | Some (JDict items) =>
      '(nodes', _) <- infer items ;;
      Ok (JDict (Dict.set "nodes" (JDict nodes') d), nodes')
  | Some (JList _) | Some (JStr _) => Raise AttributeError
  | Some _ => Raise TypeError
  end.

(** [s.replace(old, new)] for an [old] that is not empty: the
    occurrences are taken from the left and do not overlap. *)
Fixpoint replace_from (old new : string) (skip : nat) (s : string)
  : string :=
  match s with
  | EmptyString => EmptyString
  | String c rest =>
      match skip with
      | S k => replace_from old new k rest
      | O =>
          if prefix old s
          then (new ++ replace_from old new (String.length old - 1) rest)
               %string
          else String c (replace_from old new 0 rest)
      end
  end.

Definition replace (old new s : string) : string :=
  replace_from old new 0 s.

(** What the statistics block prints. *)
Record statistics_t : Type := {
  with_incoming : nat;
  with_outgoing : nat;
  total_incoming : nat;
  total_outgoing : nat;
  roots : list string;
  shown : list json          (* the names of the first five roots *)
}.

(** [sum(1 for n in nodes.values() if n.get(key))] *)
Definition count_with (key : string) (nodes : Dict.t json) : result nat :=
  flags <- map_result
             (fun n => d <- as_dict n ;;
                       Ok (truthy (Dict.get_default key JNull d)))
             (Dict.values nodes) ;;
  Ok (List.length (filter (fun flag : bool => flag) flags)).

(** [sum(len(n.get(key, [])) for n in nodes.values())] *)
Definition total_of (key : string) (nodes : Dict.t json) : result nat :=
  lengths <- map_result
               (fun n => d <- as_dict n ;;
                         Py.len (Dict.get_default key (JList []) d))
               (Dict.values nodes) ;;
  Ok (list_sum lengths).

(** [[req_id for req_id, req_data in nodes.items()
      if not req_data.get('incoming')]] *)
Definition roots_of (nodes : Dict.t json) : result (list string) :=
  flags <- map_result
             (fun '(req_id, req_data) =>
                d <- as_dict req_data ;;
                Ok (req_id,
                    negb (truthy (Dict.get_default "incoming" JNull d))))
             nodes ;;
  Ok (map fst (filter snd flags)).

Definition statistics (nodes : Dict.t json) : result statistics_t :=
  with_incoming <- count_with "incoming" nodes ;;
  with_outgoing <- count_with "outgoing" nodes ;;
  total_incoming <- total_of "incoming" nodes ;;
  total_outgoing <- total_of "outgoing" nodes ;;
  roots <- roots_of nodes ;;
  shown <- map_result
             (fun root => node <- nodes_item root nodes ;; item "name" node)
             (firstn 5 roots) ;;
  Ok {| with_incoming := with_incoming; with_outgoing := with_outgoing;
        total_incoming := total_incoming;
        total_outgoing := total_outgoing;
        roots := roots; shown := shown |}.

(** The files when the call ends, and how it ends: with the path of the
    output file, or with an exception.  An exception of the load or of
    the loop leaves the files as they were; the statistics are computed
    when the output file is written. *)
Definition extract_hierarchy_from_ids (json_file : string)
           (output_file : option string) (fs : filesystem)
  : filesystem * result string :=
  match (data <- json_load (fs json_file) ;; updated data) with
  | Raise e => (fs, Raise e)
  | Ok (data, nodes) =>
      let output_file :=
        match output_file with
        | Some path => path
        | None => replace ".json" "_with_hierarchy.json" json_file
        end in
      (write_json output_file data fs,
       _ <- statistics nodes ;; Ok output_file)
  end.

End Hierarchy.

(* ================================================================== *)
(** * backend/cameo_integration/cameo_analyzer.py *)
(* ================================================================== *)

Module CameoAnalyzer.

Record Requirement : Type := {
  req_id : string;
  name : string;
  text : string;
  req_type : string;
  xmi_id : string;
  owner_id : option string;
  properties : Dict.t string;
  source_file : string;
  derives_from : list string;
  refines : list string;
  satisfies : list string;
  verifies : list string;
  traces_to : list string
}.

(** An entry of [self.elements]: a dictionary with these optional keys. *)
Record elem_data : Type := {
  d_stereotype_id : option string;
  d_stereotype_text : option string;
  d_source_file : option string;
  d_name : option string;
  d_type : option string;
  d_element : option element
}.

Definition no_data : elem_data :=
  {| d_stereotype_id := None; d_stereotype_text := None;
     d_source_file := None; d_name := None; d_type := None;
     d_element := None |}.

(** The attributes of a [CameoAnalyzer] the parse reads and writes. *)
Record analyzer : Type := {
  requirements : Dict.t Requirement;
  elements : Dict.t elem_data;
  id_to_name : Dict.t string;
  stereotype_applications : Dict.t string
}.

Definition init : analyzer :=
  {| requirements := []; elements := []; id_to_name := [];
     stereotype_applications := [] |}.

Definition XMI : string := "{http://www.omg.org/spec/XMI/20131001}".
Definition UML : string := "{http://www.omg.org/spec/UML/20131001}".

(** Truth value of an optional string: present and not empty. *)
Definition nonempty (o : option string) : bool :=
  match o with
  | Some (String _ _) => true
  | _ => false
  end.

(** [a or b] on optional strings. *)
Definition or_ (a b : option string) : option string :=
  if nonempty a then a else b.

(** [elem.get(k1, elem.get(k2))] *)
Definition get2 (k1 k2 : string) (elem : element) : option string :=
  match Xml.get k1 elem with
  | Some v => Some v
  | None => Xml.get k2 elem
  end.

Definition xmi_type_of (elem : element) : string :=
  match get2 (XMI ++ "type") "xmi:type" elem with
  | Some v => v
  | None => EmptyString
  end.

Definition xmi_id_of (elem : element) : option string :=
  get2 (XMI ++ "id") "xmi:id" elem.

(** [self.elements[key][..] = ..] for an entry that exists. *)
Definition update_data (key : string) (f : elem_data -> elem_data)
           (elements : Dict.t elem_data) : Dict.t elem_data :=
  match Dict.get key elements with
  | Some d => Dict.set key (f d) elements
  | None => elements
  end.

(** [if key not in self.elements: self.elements[key] = {}] *)
Definition ensure_data (key : string) (elements : Dict.t elem_data)
  : Dict.t elem_data :=
  if Dict.mem key elements then elements
  else Dict.set key no_data elements.

Definition collect_stereotype (self : analyzer) (elem : element)
  : analyzer :=
  let tag := Xml.tag elem in
  let xmi_type := xmi_type_of elem in
  if (PyStr.contains "Requirement" tag
      || PyStr.contains "Requirement" xmi_type)%bool then
    let base_class :=
      or_ (Xml.get "base_Class" elem)
          (or_ (Xml.get "base_Element" elem)
               (Xml.get (UML ++ "base_Class") elem)) in
    match base_class with
    | Some (String _ _ as base_class) =>
        let req_id := get2 "id" "Id" elem in
        let req_text := get2 "text" "Text" elem in
        let source_file := Xml.get_or "source" "Unknown" elem in
        let elements0 := ensure_data base_class (elements self) in
        let elements1 :=
          if nonempty req_id then
            update_data base_class
              (fun d => {| d_stereotype_id := req_id;
                           d_stereotype_text := d_stereotype_text d;
                           d_source_file := d_source_file d;
                           d_name := d_name d; d_type := d_type d;
                           d_element := d_element d |}) elements0
          else elements0 in
        let elements2 :=
          if nonempty req_text then
            update_data base_class
              (fun d => {| d_stereotype_id := d_stereotype_id d;
                           d_stereotype_text := req_text;
                           d_source_file := d_source_file d;
                           d_name := d_name d; d_type := d_type d;
                           d_element := d_element d |}) elements1
          else elements1 in
        let elements3 :=
          if nonempty (Some source_file) then
            update_data base_class
              (fun d => {| d_stereotype_id := d_stereotype_id d;
                           d_stereotype_text := d_stereotype_text d;
                           d_source_file := Some source_file;
                           d_name := d_name d; d_type := d_type d;
                           d_element := d_element d |}) elements2
          else elements2 in
        {| requirements := requirements self;
           elements := elements3;
           id_to_name := id_to_name self;
           stereotype_applications :=
             Dict.set base_class "Requirement"
                      (stereotype_applications self) |}
    | _ => self
    end
  else self.

Definition _collect_stereotype_applications (root : element)
           (self : analyzer) : analyzer :=
  fold_left collect_stereotype (Xml.iter root) self.

Definition collect_element (self : analyzer) (elem : element)
  : analyzer :=
  match xmi_id_of elem with
  | Some (String _ _ as xmi_id) =>
      let name := Xml.get_or "name" EmptyString elem in
      let xmi_type := xmi_type_of elem in
      let source_file := Xml.get_or "source" "Unknown" elem in
      {| requirements := requirements self;
         elements :=
           update_data xmi_id
             (fun d => {| d_stereotype_id := d_stereotype_id d;
                          d_stereotype_text := d_stereotype_text d;
                          d_source_file := Some source_file;
                          d_name := Some name;
                          d_type := Some xmi_type;
                          d_element := Some elem |})
             (ensure_data xmi_id (elements self));
         id_to_name :=
           Dict.set xmi_id
             (match name with EmptyString => xmi_id | _ => name end)
             (id_to_name self);
         stereotype_applications := stereotype_applications self |}
  | _ => self
  end.

Definition _collect_all_elements (root : element) (self : analyzer)
  : analyzer :=
  fold_left collect_element (Xml.iter root) self.

Definition punctuation : list string :=
  ["+"; "-"; "*"; "/"; "="; "."; ","].

Definition space : ascii := " "%char.

Definition _is_valid_requirement_name (name : string) : bool :=
  if (negb (nonempty (Some name))
      || String.eqb name "Unnamed Requirement")%bool then false
  else if Nat.leb (String.length (PyStr.strip name)) 2 then false
  else if PyStr.isdigit (PyStr.strip name) then false
  else if existsb (String.eqb (PyStr.strip name)) punctuation then false
  else if PyStr.isdigit (PyStr.remove_char space (PyStr.strip name))
  then false
  else true.

(** The value of the first attribute of [attrs] the element has. *)
Fixpoint first_attribute (attrs : list string) (elem : element)
  : option string :=
  match attrs with
  | [] => None
  | a :: rest =>
      match Xml.get a elem with
      | Some v => Some v
      | None => first_attribute rest elem
      end
  end.

(** The first non-empty [body] among the elements. *)
Fixpoint first_body (comments : list element) : option string :=
  match comments with
  | [] => None
  | c :: rest =>
      if nonempty (Xml.get "body" c) then Xml.get "body" c
      else first_body rest
  end.

Definition _extract_requirement_text (elem : element) : string :=
  match first_attribute ["text"; "body"; "specification"; "Text"] elem with
  | Some v => v
  | None =>
      match first_body
              (Xml.findall_descendants (UML ++ "ownedComment") elem ++
               Xml.findall_descendants "ownedComment" elem) with
      | Some body => body
      | None => "No text specified"
      end
  end.

Definition _extract_requirement_id (elem : element) (xmi_id name : string)
  : string :=
  match first_attribute ["id"; "Id"; "identifier"; "ID"] elem with
  | Some v => v
  | None =>
      if (PyStr.contains "REQ" (PyStr.upper name)
          || PyStr.contains "R-" (PyStr.upper name))%bool then name
      else
        let clean_name :=
          PyStr.filter_chars
            (fun c => (PyStr.isalnum_char c || Ascii.eqb c "-"%char
                       || Ascii.eqb c "_"%char)%bool) name in
        match clean_name with
        | String _ _ => "REQ-" ++ clean_name
        | EmptyString => "REQ-" ++ PyStr.last_chars 8 xmi_id
        end
  end.

Definition _determine_requirement_type (elem : element) (name : string)
  : string :=
  let req_type :=
    match get2 "type" "requirementType" elem with
    | Some v => v
    | None => EmptyString
    end in
  match req_type with
  | String _ _ => req_type
  | EmptyString =>
      let name_lower := PyStr.lower name in
      if PyStr.contains "functional" name_lower then "Functional"
      else if (PyStr.contains "performance" name_lower
               || PyStr.contains "non-functional" name_lower)%bool
      then "Performance"
      else if PyStr.contains "interface" name_lower then "Interface"
      else if PyStr.contains "design" name_lower then "Design"
      else if PyStr.contains "test" name_lower then "Test"
      else if PyStr.contains "system" name_lower then "System"
      else if PyStr.contains "user" name_lower then "User"
      else "General"
  end.

Definition _extract_properties (elem : element) : Dict.t string :=
  fold_left
    (fun properties '(attr, value) =>
       if (negb (PyStr.startswith "{" attr)
           && negb (existsb (String.eqb attr)
                            ["xmi:id"; "xmi:type"; "name"]))%bool
       then Dict.set attr value properties
       else properties)
    (Xml.attrib elem) [].

Definition _parse_requirement_element (elem : element) (data : elem_data)
  : option Requirement :=
  let xmi_id :=
    match xmi_id_of elem with Some v => v | None => EmptyString end in
  match xmi_id with
  | EmptyString => None
  | String _ _ =>
      let name :=
        match d_name data with
        | Some n => n
        | None => "Unnamed Requirement"
        end in
      let text :=
        match d_stereotype_text data with
        | Some (String _ _ as t) => t
        | _ => _extract_requirement_text elem
        end in
      let req_id :=
        match d_stereotype_id data with
        | Some (String _ _ as i) => i
        | _ => _extract_requirement_id elem xmi_id name
        end in
      let req_type := _determine_requirement_type elem name in
      let properties := _extract_properties elem in
      let owner_id := Xml.get "owner" elem in
      let source_file :=
        match d_source_file data with
        | Some s => s
        | None => "Unknown"
        end in
      Some {| req_id := req_id; name := name; text := text;
              req_type := req_type; xmi_id := xmi_id;
              owner_id := owner_id; properties := properties;
              source_file := source_file;
              derives_from := []; refines := []; satisfies := [];
              verifies := []; traces_to := [] |}
  end.

Definition with_requirements (reqs : Dict.t Requirement) (self : analyzer)
  : analyzer :=
  {| requirements := reqs; elements := elements self;
     id_to_name := id_to_name self;
     stereotype_applications := stereotype_applications self |}.

Definition extract_requirement (self : analyzer)
           (application : string * string) : analyzer :=
  let '(xmi_id, stereotype) := application in
  if (String.eqb stereotype "Requirement"
      && Dict.mem xmi_id (elements self))%bool then
    match Dict.get xmi_id (elements self) with
    | Some data =>
        match d_element data with
        | Some elem =>
            let name :=
              match d_name data with
              | Some n => n
              | None => "Unnamed Requirement"
              end in
            if _is_valid_requirement_name name then
              match _parse_requirement_element elem data with
              | Some req =>
                  with_requirements
                    (Dict.set (CameoAnalyzer.xmi_id req) req
                              (requirements self)) self
              | None => self
              end
            else self
        | None => self
        end
    | None => self
    end
  else self.

Definition _extract_requirements (self : analyzer) : analyzer :=
  fold_left extract_requirement (stereotype_applications self) self.

(** ** Relationships *)

Definition relationship_keywords : list string :=
  ["Dependency"; "Abstraction"; "Realization"; "Trace"].

(** The [if]/[elif] chain on one lowered string; [None] when no keyword
    is in it. *)
Definition classify (lowered : string) : option string :=
  if PyStr.contains "derive" lowered then Some "derives"
  else if PyStr.contains "refine" lowered then Some "refines"
  else if PyStr.contains "satisfy" lowered then Some "satisfies"
  else if PyStr.contains "verify" lowered then Some "verifies"
  else None.

Definition _determine_relationship_type (self : analyzer)
           (elem : element) (xmi_type : string) : string :=
  let xmi_id := xmi_id_of elem in
  let by_stereotype :=
    match xmi_id with
    | Some (String _ _ as xmi_id) =>
        match Dict.get xmi_id (stereotype_applications self) with
        | Some stereotype => classify (PyStr.lower stereotype)
        | None => None
        end
    | _ => None
    end in
  match by_stereotype with
  | Some kind => kind
  | None =>
      let name := PyStr.lower (Xml.get_or "name" EmptyString elem) in
      match classify name with
      | Some kind => kind
      | None => "traces"
      end
  end.

(** [self.requirements[client].<list>.append(supplier)] *)
Definition append_reference (rel_type supplier : string)
           (r : Requirement) : Requirement :=
  let add (kind : string) (l : list string) : list string :=
    if String.eqb rel_type kind then l ++ [supplier] else l in
  let is_known :=
    existsb (String.eqb rel_type)
            ["derives"; "refines"; "satisfies"; "verifies"] in
  {| req_id := req_id r; name := name r; text := text r;
     req_type := req_type r; xmi_id := xmi_id r; owner_id := owner_id r;
     properties := properties r; source_file := source_file r;
     derives_from := add "derives" (derives_from r);
     refines := add "refines" (refines r);
     satisfies := add "satisfies" (satisfies r);
     verifies := add "verifies" (verifies r);
     traces_to := if is_known then traces_to r
                  else traces_to r ++ [supplier] |}.

Definition _parse_relationship_element (self : analyzer)
           (elem : element) (xmi_type : string) : analyzer :=
  let client := Xml.get "client" elem in
  let supplier := Xml.get "supplier" elem in
  match client, supplier with
  | Some (String _ _ as client), Some (String _ _ as supplier) =>
      match Dict.get client (requirements self) with
      | None => self
      | Some r =>
          let rel_type := _determine_relationship_type self elem xmi_type
          in
          with_requirements
            (Dict.set client (append_reference rel_type supplier r)
                      (requirements self)) self
      end
  | _, _ => self
  end.

Definition extract_relationship (self : analyzer) (elem : element)
  : analyzer :=
  let xmi_type := xmi_type_of elem in
  if existsb (fun rel => PyStr.contains rel xmi_type)
             relationship_keywords
  then _parse_relationship_element self elem xmi_type
  else self.

Definition _extract_relationships (root : element) (self : analyzer)
  : analyzer :=
  fold_left extract_relationship (Xml.iter root) self.

(** [[r.xmi_id for r in self.requirements.values() if r.xmi_id in refs]] *)
Definition resolve (all_ids : list string) (refs : list string)
  : list string :=
  filter (fun i => existsb (String.eqb i) refs) all_ids.

Definition _resolve_relationships (self : analyzer) : analyzer :=
  let all_ids := map xmi_id (Dict.values (requirements self)) in
  with_requirements
    (map (fun '(k, r) =>
            (k,
             {| req_id := req_id r; name := name r; text := text r;
                req_type := req_type r; xmi_id := xmi_id r;
                owner_id := owner_id r; properties := properties r;
                source_file := source_file r;
                derives_from := resolve all_ids (derives_from r);
                refines := resolve all_ids (refines r);
                satisfies := resolve all_ids (satisfies r);
                verifies := resolve all_ids (verifies r);
                traces_to := resolve all_ids (traces_to r) |}))
         (requirements self)) self.

(** ** The archive *)

(** What [ET.fromstring] makes of the model entry. *)
Inductive xmi_content : Type :=
| NotXml                       (* [ET.ParseError], caught *)
| Parsed (root : element).

Inductive mdzip : Type :=
| NoSuchFile                   (* [mdzip_path.exists()] is false *)
| BadZipFile                   (* caught *)
| NoModelEntry                 (* the archive lacks the model file *)
| ModelEntry (content : xmi_content).

Definition _parse_xmi_content (content : xmi_content) (self : analyzer)
  : analyzer :=
  match content with
  | NotXml => self
  | Parsed root =>
      let self1 := _collect_stereotype_applications root self in
      let self2 := _collect_all_elements root self1 in
      let self3 := _extract_requirements self2 in
      _extract_relationships root self3
  end.

Definition extract_and_parse (archive : mdzip) (self : analyzer)
  : analyzer :=
  match archive with
  | NoSuchFile | BadZipFile | NoModelEntry => self
  | ModelEntry content =>
      _resolve_relationships (_parse_xmi_content content self)
  end.

(** ** Export *)

Definition strings (l : list string) : json := JList (map JStr l).

Definition string_dict (d : Dict.t string) : json :=
  JDict (map (fun '(k, v) => (k, JStr v)) d).

Definition node_of (req : Requirement) : json :=
  let outgoing :=
    refines req ++ satisfies req ++ verifies req ++ traces_to req in
  let incoming := derives_from req in
  JDict [("name", JStr (name req));
         ("node_type", JStr ("Requirement_" ++ req_type req));
         ("text", JStr (text req));
         ("xmi_id", JStr (xmi_id req));
         ("incoming", strings incoming);
         ("outgoing", strings outgoing);
         ("properties", string_dict (properties req))].

(** The document [export_to_json] writes. *)
Definition export_to_json (self : analyzer) : json :=
  let nodes :=
    fold_left (fun nodes '(_, req) =>
                 Dict.set (req_id req) (node_of req) nodes)
              (requirements self) [] in
  JDict [("nodes", JDict nodes)].

End CameoAnalyzer.

(* ================================================================== *)
(** * backend/cameo_integration/batch_cameo_processor.py *)
(* ================================================================== *)

Module BatchProcessor.

Record requirement_info : Type := {
  info_name : string;
  info_type : string;
  has_text : bool;
  relationship_count : nat
}.

(** What [_process_single_file] returns. *)
Record file_result : Type := {
  requirement_count : nat;
  element_count : nat;
  output_file : string;
  requirement_infos : Dict.t requirement_info
}.

(** An entry of [summary["files"]]. *)
Inductive file_entry : Type :=
| Succeeded (filename : string) (requirements : nat)
            (output_file : string)
| Failed (filename : string) (error : string).

Record summary_t : Type := {
  total_files : nat;
  successful : nat;
  failed : nat;
  total_requirements : nat;
  files : list file_entry
}.

Record processor : Type := {
  output_dir : string;
  results : Dict.t file_result;
  summary : summary_t
}.

Definition init (output_dir : string) : processor :=
  {| output_dir := output_dir; results := [];
     summary := {| total_files := 0; successful := 0; failed := 0;
                   total_requirements := 0; files := [] |} |}.

(** [output_dir / name] *)
Definition path_in (dir name : string) : string :=
  (dir ++ "/" ++ name)%string.

Definition info_of (req : CameoAnalyzer.Requirement) : requirement_info :=
  {| info_name := CameoAnalyzer.name req;
     info_type := CameoAnalyzer.req_type req;
     has_text :=
       (CameoAnalyzer.nonempty (Some (CameoAnalyzer.text req))
        && negb (String.eqb (CameoAnalyzer.text req)
                            "No text specified"))%bool;
     relationship_count :=
       List.length (CameoAnalyzer.derives_from req)
       + List.length (CameoAnalyzer.refines req)
       + List.length (CameoAnalyzer.satisfies req)
       + List.length (CameoAnalyzer.verifies req)
       + List.length (CameoAnalyzer.traces_to req) |}.

(** The analyzer catches what the archive can raise and the model of the
    file system has no failing write, so this returns; the result type
    keeps the shape of the [try] in the caller. *)
Definition _process_single_file (self : processor) (stem : string)
           (archive : CameoAnalyzer.mdzip) (fs : filesystem)
  : result (filesystem * file_result) :=
  let analyzer :=
    CameoAnalyzer.extract_and_parse archive CameoAnalyzer.init in
  let output_filename := (stem ++ "_requirements.json")%string in
  let output_path := path_in (output_dir self) output_filename in
  let fs' :=
    write_json output_path (CameoAnalyzer.export_to_json analyzer) fs in
  Ok (fs',
      {| requirement_count :=
           List.length (CameoAnalyzer.requirements analyzer);
         element_count := List.length (CameoAnalyzer.elements analyzer);
         output_file := output_path;
         requirement_infos :=
           map (fun '(k, req) => (k, info_of req))
               (CameoAnalyzer.requirements analyzer) |}).

Definition str_of_exn (e : exn) : string :=
  match e with
  | OSError => "OSError"
  | JSONDecodeError => "JSONDecodeError"
  | AttributeError => "AttributeError"
  | TypeError => "TypeError"
  | KeyError => "KeyError"
  end.

Definition process_file (st : processor * filesystem)
           (input : string * CameoAnalyzer.mdzip)
  : processor * filesystem :=
  let '(self, fs) := st in
  let '(stem, archive) := input in
  let filename := (stem ++ ".mdzip")%string in
  let s := summary self in
  match _process_single_file self stem archive fs with
  | Ok (fs', r) =>
      ({| output_dir := output_dir self;
          results := Dict.set stem r (results self);
          summary :=
            {| total_files := total_files s;
               successful := S (successful s);
               failed := failed s;
               total_requirements :=
                 total_requirements s + requirement_count r;
               files := files s ++
                        [Succeeded filename (requirement_count r)
                                   (output_file r)] |} |}, fs')
  | Raise e =>
      ({| output_dir := output_dir self;
          results := results self;
          summary :=
            {| total_files := total_files s;
               successful := successful s;
               failed := S (failed s);
               total_requirements := total_requirements s;
               files := files s ++ [Failed filename (str_of_exn e)] |} |},
       fs)
  end.

Definition entry_document (e : file_entry) : json :=
  match e with
  | Succeeded filename requirements output_file =>
      JDict [("filename", JStr filename); ("status", JStr "success");
             ("requirements", JInt (Z.of_nat requirements));
             ("output_file", JStr output_file)]
  | Failed filename error =>
      JDict [("filename", JStr filename); ("status", JStr "failed");
             ("error", JStr error)]
  end.

(** The document [_save_summary] writes. *)
Definition summary_document (s : summary_t) : json :=
  JDict [("total_files", JInt (Z.of_nat (total_files s)));
         ("successful", JInt (Z.of_nat (successful s)));
         ("failed", JInt (Z.of_nat (failed s)));
         ("total_requirements", JInt (Z.of_nat (total_requirements s)));
         ("files", JList (map entry_document (files s)))].

Definition summary_path (self : processor) : string :=
  path_in (output_dir self) "batch_processing_summary.json".

Definition _save_summary (self : processor) (fs : filesystem)
  : filesystem :=
  write_json (summary_path self) (summary_document (summary self)) fs.

(** [mdzip_files]: the archives the glob finds, each with its stem. *)
Definition process_all_files
           (mdzip_files : list (string * CameoAnalyzer.mdzip))
           (self : processor) (fs : filesystem)
  : processor * filesystem :=
  let s := summary self in
  let self0 :=
    {| output_dir := output_dir self; results := results self;
       summary :=
         {| total_files := List.length mdzip_files;
            successful := successful s; failed := failed s;
            total_requirements := total_requirements s;
            files := files s |} |} in
  let '(self1, fs1) := fold_left process_file mdzip_files (self0, fs) in
  (self1, _save_summary self1 fs1).

(** [req_data["source_file"] = file_stem] *)
Definition set_source_file (file_stem : string) (req_data : json)
  : result json :=
  match req_data with
  | JDict d => Ok (JDict (Dict.set "source_file" (JStr file_stem) d))
  | _ => Raise TypeError
  end.

Definition merge_node (file_stem : string) (merged : Dict.t json)
           (item : string * json) : result (Dict.t json) :=
  let '(req_id, req_data) := item in
  req_data' <- set_source_file file_stem req_data ;;
  Ok (Dict.set req_id req_data' merged).

Definition merge_file (fs : filesystem) (merged : Dict.t json)
           (entry : string * file_result) : result (Dict.t json) :=
  let '(file_stem, r) := entry in
  let json_file := fs (output_file r) in
  if exists_ json_file then
    data <- json_load json_file ;;
    nodes <- get_or_empty "nodes" data ;;
    items <- as_dict nodes ;;
    for_each (merge_node file_stem) items merged
  else Ok merged.

(** The nodes map of the merged document. *)
Definition merged_nodes (self : processor) (fs : filesystem)
  : result (Dict.t json) :=
  for_each (merge_file fs) (results self) [].

(** The processor after the call (the method assigns to no attribute)
    and the file system with the merged document written. *)
Definition merge_all_requirements (output_file : string)
           (self : processor) (fs : filesystem)
  : result (processor * filesystem) :=
  merged <- merged_nodes self fs ;;
  let output_path := path_in (output_dir self) output_file in
  Ok (self, write_json output_path (JDict [("nodes", JDict merged)]) fs).

End BatchProcessor.

(* ================================================================== *)
(** * backend/connection_versioning.py *)
(* ================================================================== *)

Module ConnectionVersioning.

(** [a <= b] for two tuples of two strings: by the first component, and
    by the second when the first ones are equal. *)
Definition tuple_leb (a b : string * string) : bool :=
  match String.compare (fst a) (fst b) with
  | Lt => true
  | Gt => false
  | Eq => String.leb (snd a) (snd b)
  end.

(** [sorted(connections)]: insertion sort, stable. *)
Fixpoint insert_tuple (x : string * string) (l : list (string * string))
  : list (string * string) :=
  match l with
  | [] => [x]
  | y :: rest =>
      if tuple_leb x y then x :: y :: rest
      else y :: insert_tuple x rest
  end.

Definition sorted (connections : list (string * string))
  : list (string * string) :=
  fold_right insert_tuple [] connections.

(** A tuple is encoded as a list. *)
Definition tuple_document (c : string * string) : json :=
  JList [JStr (fst c); JStr (snd c)].

Definition compute_connections_hash (connections : list (string * string))
  : string :=
  let sorted_conns := sorted connections in
  let connections_str := dumps (JList (map tuple_document sorted_conns)) in
  Sha256.hexdigest connections_str.

(** The connections of one node: a key of a loaded document is a string,
    so [str(src_sid)] is the key. *)
Definition connections_of (connections : list (string * string))
           (item : string * json) : result (list (string * string)) :=
  let '(src_sid, node_data) := item in
  d <- as_dict node_data ;;
  let outgoing := Dict.get_default "outgoing" (JList []) d in
  targets <- Py.iterate outgoing ;;
  Ok (connections ++ map (fun dst_sid => (src_sid, Py.str dst_sid)) targets).

Definition extract_connections_from_json (json_data : json)
  : result (list (string * string)) :=
  nodes <- get_or_empty "nodes" json_data ;;
  items <- as_dict nodes ;;
  for_each connections_of items [].

End ConnectionVersioning.

(* ================================================================== *)
(** * backend/neo4j_loader.py *)
(* ================================================================== *)

Module Neo4jLoader.

Record BlockNode : Type := {
  sid : string;
  name : string;
  node_type : string;
  model_name : string;
  outgoing : list string
}.

Definition parse_node (nodes : Dict.t BlockNode) (item : string * json)
  : result (Dict.t BlockNode) :=
  let '(sid, payload) := item in
  d <- as_dict payload ;;
  let name := Py.str (Dict.get_default "name" (JStr EmptyString) d) in
  let node_type :=
    Py.str (Dict.get_default "node_type" (JStr EmptyString) d) in
  let model_name :=
    Py.str (Dict.get_default "model_name" (JStr EmptyString) d) in
  targets <- Py.iterate (Dict.get_default "outgoing" (JList []) d) ;;
  Ok (Dict.set sid
        {| sid := sid; name := name; node_type := node_type;
           model_name := model_name; outgoing := map Py.str targets |}
        nodes).

Definition _parse_nodes_from_data (data : json)
  : result (Dict.t BlockNode) :=
  nodes <- get_or_empty "nodes" data ;;
  items <- as_dict nodes ;;
  for_each parse_node items [].

(** [rel_rows] of [upsert_relationships]. *)
Definition rel_rows (blocks : Dict.t BlockNode) : list (string * string) :=
  flat_map (fun '(src_sid, block) =>
              map (fun dst_sid => (src_sid, dst_sid)) (outgoing block))
           blocks.

(** The [pairs] of the query [upsert_relationships] runs; it runs none
    when there is no pair. *)
Definition upsert_relationships (blocks : Dict.t BlockNode)
  : option (list (string * string)) :=
  match rel_rows blocks with
  | [] => None
  | rows => Some rows
  end.

End Neo4jLoader.

(* ================================================================== *)
(** * backend/cameo_neo4j_loader.py *)
(* ================================================================== *)

Module CameoNeo4jLoader.

Record RequirementNode : Type := {
  req_id : string;
  name : string;
  node_type : string;
  text : string;
  xmi_id : string;
  incoming : list string;
  outgoing : list string;
  source_file : json;           (* [None] when the payload has none *)
  properties : json
}.

(** [payload.get(k)]: [None] for a key that is missing. *)
Definition get_or_none (k : string) (d : Dict.t json) : json :=
  Dict.get_default k JNull d.

(** [f"Requirement {req_id}: {what}"] *)
Definition complaint (req_id what : string) : string :=
  ("Requirement " ++ req_id ++ ": " ++ what)%string.

(** The body of the loop of [validate_requirement_data]. *)
Definition validate_node (errors : list string) (item : string * json)
  : list string :=
  let '(req_id, payload) := item in
  match payload with
  | JDict d =>
      let errors :=
        if negb (truthy (get_or_none "name" d))
        then errors ++ [complaint req_id "missing name"]
        else errors in
      let errors :=
        if negb (truthy (get_or_none "node_type" d))
        then errors ++ [complaint req_id "missing node_type"]
        else errors in
      let errors :=
        if negb (Py.is_list (Dict.get_default "incoming" (JList []) d))
        then errors
             ++ [complaint req_id "incoming must be a list"]
        else errors in
      let errors :=
        if negb (Py.is_list (Dict.get_default "outgoing" (JList []) d))
        then errors
             ++ [complaint req_id "outgoing must be a list"]
        else errors in
      errors
  | _ =>
      errors
      ++ [complaint req_id "payload must be a dictionary"]
  end.

Definition validate_requirement_data (data : json) : list string :=
  match data with
  | JDict d =>
      match get_or_none "nodes" d with
      | JDict nodes => fold_left validate_node nodes []
      | _ => ["Data must have a 'nodes' dictionary"]
      end
  | _ => ["Data must be a dictionary"]
  end.

(** [s[n:]] *)
Fixpoint slice_from (n : nat) (s : string) : string :=
  match n, s with
  | S m, String _ rest => slice_from m rest
  | _, _ => s
  end.

(** [[str(x) for x in value]] *)
Definition strs (value : json) : result (list string) :=
  items <- Py.iterate value ;; Ok (map Py.str items).

(** The body of the loop of [_parse_nodes_from_data]. *)
Definition parse_node (nodes : Dict.t RequirementNode)
           (item : string * json) : result (Dict.t RequirementNode) :=
  let '(req_id, payload) := item in
  d <- as_dict payload ;;
  let node_type :=
    Py.str (Dict.get_default "node_type" (JStr EmptyString) d) in
  let node_type :=
    if PyStr.startswith "Requirement_" node_type
    then slice_from 12 node_type else node_type in
  let name := Py.str (Dict.get_default "name" (JStr EmptyString) d) in
  let text := Py.str (Dict.get_default "text" (JStr EmptyString) d) in
  let xmi_id := Py.str (Dict.get_default "xmi_id" (JStr EmptyString) d) in
  incoming <- strs (Dict.get_default "incoming" (JList []) d) ;;
  outgoing <- strs (Dict.get_default "outgoing" (JList []) d) ;;
  Ok (Dict.set req_id
        {| req_id := req_id; name := name; node_type := node_type;
           text := text; xmi_id := xmi_id;
           incoming := incoming; outgoing := outgoing;
           source_file := get_or_none "source_file" d;
           properties := Dict.get_default "properties" (JDict []) d |}
        nodes).

(** How a call ends: [_parse_nodes_from_data] raises a [ValueError] of
    its own, with a message. *)
Inductive outcome (A : Type) : Type :=
| Returned (a : A)
| ValueError (message : string)
| Raised (e : exn).

Arguments Returned {A} a.
Arguments ValueError {A} message.
Arguments Raised {A} e.

Definition separator : string :=
  String (ascii_of_N 10) "- ".

Definition _parse_nodes_from_data (data : json)
  : outcome (Dict.t RequirementNode) :=
  let errors := validate_requirement_data data in
  match errors with
  | _ :: _ =>
      ValueError (PyStr.join separator ("Validation errors:" :: errors))
  | [] =>
      match (nodes <- get_or_empty "nodes" data ;;
             items <- as_dict nodes ;;
             for_each parse_node items []) with
      | Ok nodes => Returned nodes
      | Raise e => Raised e
      end
  end.

(** The two lists of pairs [upsert_relationships] collects. *)
Definition derives_from_pairs (reqs : Dict.t RequirementNode)
  : list (string * string) :=
  flat_map (fun '(req_id, req) =>
              map (fun parent_id => (req_id, parent_id)) (incoming req))
           reqs.

Definition traces_to_pairs (reqs : Dict.t RequirementNode)
  : list (string * string) :=
  flat_map (fun '(req_id, req) =>
              map (fun target_id => (req_id, target_id)) (outgoing req))
           reqs.

(** The queries [upsert_relationships] runs, each with its relationship
    type and its [pairs]: none for a type without pairs. *)
Definition upsert_relationships (reqs : Dict.t RequirementNode)
  : list (string * list (string * string)) :=
  filter (fun query => match snd query with [] => false | _ => true end)
         [("DERIVES_FROM", derives_from_pairs reqs);
          ("TRACES_TO", traces_to_pairs reqs)].

End CameoNeo4jLoader.

(* ================================================================== *)
(** * Facts: dictionaries *)
(* ================================================================== *)

Section DictFacts.
Context {V : Type}.
Implicit Types (d : Dict.t V) (k : string) (v : V).

Lemma get_In d k v : Dict.get k d = Some v -> In (k, v) d.
Proof.
  induction d as [|[k' v'] d IH]; simpl; [discriminate|].
  destruct (String.eqb_spec k k') as [->|_].
  - intros [= ->]. now left.
  - intros H. right. now apply IH.
Qed.

Lemma In_get d k v :
  Dict.is_dict d -> In (k, v) d -> Dict.get k d = Some v.
Proof.
  unfold Dict.is_dict, Dict.keys.
  induction d as [|[k' v'] d IH]; simpl; [intros _ []|].
  intros Hnd [Heq|Hin].
  - injection Heq as -> ->. now rewrite String.eqb_refl.
  - inversion Hnd as [|? ? Hnotin Hnd']; subst.
    destruct (String.eqb_spec k k') as [->|_].
    + exfalso. apply Hnotin. change k' with (fst (k', v)).
      now apply in_map.
    + now apply IH.
Qed.

Lemma get_None d k : Dict.get k d = None <-> ~ In k (Dict.keys d).
Proof.
  induction d as [|[k' v'] d IH]; simpl; [tauto|].
  destruct (String.eqb_spec k k') as [->|Hne].
  - split; [discriminate|]. intros H. exfalso. apply H. now left.
  - rewrite IH. split.
    + intros H [Heq|Hin]; [now apply Hne|now apply H].
    + intros H Hin. apply H. now right.
Qed.

Lemma mem_In d k : Dict.mem k d = true <-> In k (Dict.keys d).
Proof.
  unfold Dict.mem. destruct (Dict.get k d) eqn:E.
  - split; [intros _|reflexivity].
    apply get_In in E. change k with (fst (k, v)). now apply in_map.
  - split; [discriminate|]. intros H. now apply get_None in E.
Qed.

Lemma get_set_same d k v : Dict.get k (Dict.set k v d) = Some v.
Proof.
  induction d as [|[k' v'] d IH]; simpl.
  - now rewrite String.eqb_refl.
  - destruct (String.eqb_spec k k') as [->|Hne]; simpl.
    + now rewrite String.eqb_refl.
    + destruct (String.eqb_spec k k'); [contradiction|exact IH].
Qed.

Lemma get_set_other d k k' v :
  k' <> k -> Dict.get k' (Dict.set k v d) = Dict.get k' d.
Proof.
  intros Hne. induction d as [|[k0 v0] d IH]; simpl.
  - destruct (String.eqb_spec k' k); [contradiction|reflexivity].
  - destruct (String.eqb_spec k k0) as [->|Hne0]; simpl.
    + destruct (String.eqb_spec k' k0); [contradiction|reflexivity].
    + destruct (String.eqb_spec k' k0); [reflexivity|exact IH].
Qed.

Lemma keys_set_present d k v :
  In k (Dict.keys d) -> Dict.keys (Dict.set k v d) = Dict.keys d.
Proof.
  unfold Dict.keys.
  induction d as [|[k0 v0] d IH]; simpl; [intros []|].
  destruct (String.eqb_spec k k0) as [->|Hne]; simpl; [reflexivity|].
  intros [Heq|Hin]; [congruence|]. now rewrite IH.
Qed.

Lemma keys_set_absent d k v :
  ~ In k (Dict.keys d) -> Dict.keys (Dict.set k v d) = Dict.keys d ++ [k].
Proof.
  unfold Dict.keys.
  induction d as [|[k0 v0] d IH]; simpl; [reflexivity|].
  destruct (String.eqb_spec k k0) as [->|Hne]; simpl.
  - intros H. exfalso. apply H. now left.
  - intros H. rewrite IH; [reflexivity|]. intros Hin. apply H. now right.
Qed.

Lemma set_same d k v : Dict.get k d = Some v -> Dict.set k v d = d.
Proof.
  induction d as [|[k0 v0] d IH]; simpl; [discriminate|].
  destruct (String.eqb_spec k k0) as [->|Hne].
  - now intros [= ->].
  - intros H. now rewrite IH.
Qed.

Lemma In_keys_set d k v k' :
  In k' (Dict.keys (Dict.set k v d)) <-> k' = k \/ In k' (Dict.keys d).
Proof.
  destruct (in_dec string_dec k (Dict.keys d)) as [Hin|Hnin].
  - rewrite keys_set_present by assumption.
    split; [now right|]. intros [->|H]; assumption.
  - rewrite keys_set_absent by assumption.
    rewrite in_app_iff. simpl. split.
    + intros [H|[H|[]]]; [now right|now left].
    + intros [->|H]; [right; now left|now left].
Qed.

Lemma is_dict_set d k v : Dict.is_dict d -> Dict.is_dict (Dict.set k v d).
Proof.
  unfold Dict.is_dict. intros Hnd.
  destruct (in_dec string_dec k (Dict.keys d)) as [Hin|Hnin].
  - now rewrite keys_set_present.
  - rewrite keys_set_absent by assumption.
    apply NoDup_app; [assumption|repeat constructor; intros []|].
    intros x Hx [<-|[]]. contradiction.
Qed.

End DictFacts.

(* ================================================================== *)
(** * Facts: the order of sorted items *)
(* ================================================================== *)

Section SortedItems.
Context {V : Type}.
Implicit Types (l : list (string * V)) (x : string * V).

Lemma ascii_compare_N (a b : ascii) :
  Ascii.compare a b = N.compare (N_of_ascii a) (N_of_ascii b).
Proof. reflexivity. Qed.

Lemma compare_Lt_trans (s1 s2 s3 : string) :
  String.compare s1 s2 = Lt -> String.compare s2 s3 = Lt ->
  String.compare s1 s3 = Lt.
Proof.
  revert s2 s3.
  induction s1 as [|a s1 IH]; intros [|b s2] [|c s3]; simpl;
    try discriminate; try reflexivity.
  rewrite !ascii_compare_N.
  destruct (N.compare_spec (N_of_ascii a) (N_of_ascii b)) as [E1|L1|G1];
    try discriminate;
    destruct (N.compare_spec (N_of_ascii b) (N_of_ascii c)) as [E2|L2|G2];
    try discriminate; intros H1 H2.
  - rewrite E1, E2, N.compare_refl. now apply IH with s2.
  - rewrite E1. now apply N.compare_lt_iff in L2 as ->.
  - rewrite <- E2. now apply N.compare_lt_iff in L1 as ->.
  - assert (N_of_ascii a < N_of_ascii c)%N as L by lia.
    now apply N.compare_lt_iff in L as ->.
Qed.

Lemma leb_trans (s1 s2 s3 : string) :
  String.leb s1 s2 = true -> String.leb s2 s3 = true ->
  String.leb s1 s3 = true.
Proof.
  unfold String.leb.
  destruct (String.compare s1 s2) eqn:E1; try discriminate; intros _.
  - apply String.compare_eq_iff in E1. now subst.
  - destruct (String.compare s2 s3) eqn:E2; try discriminate; intros _.
    + apply String.compare_eq_iff in E2. subst. now rewrite E1.
    + now rewrite (compare_Lt_trans _ _ _ E1 E2).
Qed.

Definition key_le (x y : string * V) : Prop :=
  String.leb (fst x) (fst y) = true.

Lemma insert_item_perm x l : Permutation (Dict.insert_item x l) (x :: l).
Proof.
  induction l as [|y l IH]; simpl; [reflexivity|].
  destruct (String.leb (fst x) (fst y)); [reflexivity|].
  rewrite IH. apply perm_swap.
Qed.

Lemma sorted_items_perm l : Permutation (Dict.sorted_items l) l.
Proof.
  induction l as [|x l IH]; simpl; [reflexivity|].
  rewrite insert_item_perm. now constructor.
Qed.

Lemma insert_item_sorted x l :
  StronglySorted key_le l -> StronglySorted key_le (Dict.insert_item x l).
Proof.
  induction 1 as [|y l Hs IH Hall]; simpl.
  - repeat constructor.
  - destruct (String.leb (fst x) (fst y)) eqn:E.
    + constructor; [now constructor|].
      constructor; [exact E|].
      eapply Forall_impl; [|exact Hall].
      intros z Hz. unfold key_le in *. now apply leb_trans with (fst y).
    + constructor; [exact IH|].
      apply (Permutation_Forall (Permutation_sym (insert_item_perm x l))).
      constructor; [|exact Hall].
      unfold key_le.
      destruct (String.leb_total (fst x) (fst y)) as [H|H];
        [congruence|exact H].
Qed.

Lemma sorted_items_sorted l : StronglySorted key_le (Dict.sorted_items l).
Proof.
  induction l as [|x l IH]; simpl; [constructor|].
  now apply insert_item_sorted.
Qed.

Lemma sorted_unique l1 l2 :
  StronglySorted key_le l1 -> StronglySorted key_le l2 ->
  NoDup (map fst l1) -> Permutation l1 l2 -> l1 = l2.
Proof.
  intros H1. revert l2.
  induction H1 as [|x l1 Hs1 IH Hall1]; intros l2 H2 Hnd Hp.
  - now apply Permutation_nil in Hp.
  - destruct H2 as [|y l2 Hs2 Hall2].
    + apply Permutation_sym, Permutation_nil in Hp. discriminate.
    + assert (x = y) as ->.
      { assert (In x (y :: l2)) as Hx
            by (eapply Permutation_in; [exact Hp|now left]).
        assert (In y (x :: l1)) as Hy
            by (eapply Permutation_in;
                [exact (Permutation_sym Hp)|now left]).
        destruct Hx as [->|Hx]; [reflexivity|].
        destruct Hy as [->|Hy]; [reflexivity|].
        rewrite Forall_forall in Hall1, Hall2.
        assert (fst x = fst y) as Hk
            by (apply String.leb_antisym;
                [now apply Hall1|now apply Hall2]).
        inversion Hnd as [|? ? Hnotin _]; subst.
        exfalso. apply Hnotin. rewrite Hk. now apply in_map. }
      f_equal. apply IH; [assumption| |].
      * now inversion Hnd.
      * now apply Permutation_cons_inv in Hp.
Qed.

(** Two orders of insertion of the same items sort to the same list. *)
Lemma sorted_items_order_independent l1 l2 :
  NoDup (map fst l1) -> Permutation l1 l2 ->
  Dict.sorted_items l1 = Dict.sorted_items l2.
Proof.
  intros Hnd Hp.
  apply sorted_unique; try apply sorted_items_sorted.
  - eapply Permutation_NoDup; [|exact Hnd].
    apply Permutation_map, Permutation_sym, sorted_items_perm.
  - rewrite !sorted_items_perm. exact Hp.
Qed.

End SortedItems.

(* ================================================================== *)
(** * Facts: documents *)
(* ================================================================== *)

Section JsonInduction.
Variable P : json -> Prop.
Hypothesis P_null : P JNull.
Hypothesis P_bool : forall b, P (JBool b).
Hypothesis P_int : forall z, P (JInt z).
Hypothesis P_str : forall s, P (JStr s).
Hypothesis P_list : forall l, Forall P l -> P (JList l).
Hypothesis P_dict :
  forall d, Forall (fun kv => P (snd kv)) d -> P (JDict d).

Fixpoint json_ind (j : json) : P j :=
  match j with
  | JNull => P_null
  | JBool b => P_bool b
  | JInt z => P_int z
  | JStr s => P_str s
  | JList l =>
      P_list ((fix all (l : list json) : Forall P l :=
                 match l with
                 | [] => Forall_nil _
                 | x :: r => Forall_cons x (json_ind x) (all r)
                 end) l)
  | JDict d =>
      P_dict ((fix all (d : list (string * json))
               : Forall (fun kv => P (snd kv)) d :=
                 match d with
                 | [] => Forall_nil _
                 | kv :: r => Forall_cons kv (json_ind (snd kv)) (all r)
                 end) d)
  end.
End JsonInduction.

Lemma well_formed_list l :
  well_formed (JList l) <-> Forall well_formed l.
Proof.
  simpl. induction l as [|x l IH].
  - split; [constructor|trivial].
  - rewrite IH. split.
    + intros [H1 H2]. now constructor.
    + intros H. now inversion H.
Qed.

Lemma well_formed_dict d :
  well_formed (JDict d) <->
  Dict.is_dict d /\ Forall (fun kv => well_formed (snd kv)) d.
Proof.
  simpl. unfold Dict.is_dict, Dict.keys.
  enough ((fix all (d : list (string * json)) : Prop :=
             match d with
             | [] => True
             | (_, v) :: r => well_formed v /\ all r
             end) d <-> Forall (fun kv => well_formed (snd kv)) d) as ->
      by reflexivity.
  induction d as [|[k v] d IH].
  - split; [constructor|trivial].
  - rewrite IH. split.
    + intros [H1 H2]. now constructor.
    + intros H. now inversion H.
Qed.

(** What [same_content] checks on two dictionaries. *)
Lemma same_content_dict d1 d2 :
  same_content (JDict d1) (JDict d2) = true <->
  List.length d1 = List.length d2 /\
  Forall (fun kv => exists w, Dict.get (fst kv) d2 = Some w /\
                              same_content (snd kv) w = true) d1.
Proof.
  simpl. rewrite andb_true_iff, Nat.eqb_eq.
  enough ((fix go (d1 : list (string * json)) : bool :=
             match d1 with
             | [] => true
             | (k, v) :: r =>
                 (match Dict.get k d2 with
                  | Some w => same_content v w
                  | None => false
                  end && go r)%bool
             end) d1 = true <->
          Forall (fun kv => exists w, Dict.get (fst kv) d2 = Some w /\
                                      same_content (snd kv) w = true) d1)
    as -> by reflexivity.
  induction d1 as [|[k v] d1 IH].
  - split; [constructor|trivial].
  - rewrite andb_true_iff, IH. simpl. split.
    + intros [H1 H2]. constructor; [|exact H2]. simpl.
      destruct (Dict.get k d2) as [w|]; [|discriminate]. now exists w.
    + intros H. inversion H as [|? ? [w [Hg Hs]] Hr]; subst. simpl in *.
      rewrite Hg. now split.
Qed.

Lemma same_content_list l1 l2 :
  same_content (JList l1) (JList l2) = true <->
  Forall2 (fun x y => same_content x y = true) l1 l2.
Proof.
  simpl. revert l2.
  induction l1 as [|x l1 IH]; intros [|y l2]; simpl.
  - split; [constructor|reflexivity].
  - split; [discriminate|intros H; inversion H].
  - split; [discriminate|intros H; inversion H].
  - rewrite andb_true_iff, IH. split.
    + intros [H1 H2]. now constructor.
    + intros H. now inversion H.
Qed.

Lemma keys_map_values {A B : Type} (f : string * A -> B) (d : Dict.t A) :
  map fst (map (fun kv => (fst kv, f kv)) d) = map fst d.
Proof. rewrite map_map. now apply map_ext. Qed.

Lemma dumps_dict d :
  dumps (JDict d) =
  Json.render_dict
    (Dict.sorted_items (map (fun kv => (fst kv, dumps (snd kv))) d)).
Proof.
  simpl. do 2 f_equal. apply map_ext. now intros [k v].
Qed.

Lemma insert_item_values {A B} (f : string -> A -> B) x l :
  Dict.insert_item (fst x, f (fst x) (snd x))
                   (map (fun kv => (fst kv, f (fst kv) (snd kv))) l)
  = map (fun kv => (fst kv, f (fst kv) (snd kv))) (Dict.insert_item x l).
Proof.
  induction l as [|y l IH]; [reflexivity|].
  simpl. destruct (String.leb (fst x) (fst y)); [reflexivity|].
  simpl. now rewrite IH.
Qed.

Lemma sorted_items_values {A B} (f : string -> A -> B) (d : Dict.t A) :
  Dict.sorted_items (map (fun kv => (fst kv, f (fst kv) (snd kv))) d)
  = map (fun kv => (fst kv, f (fst kv) (snd kv))) (Dict.sorted_items d).
Proof.
  induction d as [|x d IH]; [reflexivity|].
  simpl. rewrite IH. apply insert_item_values.
Qed.

(** Encoding the values and then sorting the items is sorting the items
    and then encoding the values, as the encoder does. *)
Lemma dumps_sorts_first d :
  dumps (JDict d) =
  Json.render_dict
    (map (fun kv => (fst kv, dumps (snd kv))) (Dict.sorted_items d)).
Proof.
  rewrite dumps_dict.
  now rewrite (sorted_items_values (fun _ v => dumps v)).
Qed.

Example dumps_list :
  dumps (JList [JInt 1; JInt (-20); JNull; JBool true; JList []; JDict []])
  = "[1, -20, null, true, [], {}]".
Proof. reflexivity. Qed.

(** The digests of the empty message and of [abc] (FIPS 180-4). *)
Example hexdigest_empty :
  Sha256.hexdigest EmptyString
  = "e3b0c44298fc1c149afbf4c8996fb92427ae41e4649b934ca495991b7852b855".
Proof. vm_compute. reflexivity. Qed.

Example hexdigest_abc :
  Sha256.hexdigest "abc"
  = "ba7816bf8f01cfea414140de5dae2223b00361a396177a9cb410ff61f20015ad".
Proof. vm_compute. reflexivity. Qed.

(** Two documents with the same content are encoded alike. *)
Lemma dumps_same_content a :
  well_formed a -> forall b, well_formed b ->
  same_content a b = true -> dumps a = dumps b.
Proof.
  induction a as [| x | x | x | l1 IH | d1 IH] using json_ind;
    intros Ha b Hb Hs.
  - now destruct b.
  - destruct b as [| y | | | |]; try discriminate.
    simpl in Hs. apply Bool.eqb_prop in Hs. now subst.
  - destruct b as [| | y | | |]; try discriminate.
    simpl in Hs. apply Z.eqb_eq in Hs. now subst.
  - destruct b as [| | | y | |]; try discriminate.
    simpl in Hs. apply String.eqb_eq in Hs. now subst.
  - destruct b as [| | | | l2 |]; try discriminate.
    apply same_content_list in Hs.
    apply well_formed_list in Ha, Hb.
    simpl. f_equal.
    induction Hs as [|x y l1 l2 Hxy Hs IHs]; [reflexivity|].
    inversion IH; inversion Ha; inversion Hb; subst. simpl. f_equal.
    + now auto.
    + now apply IHs.
  - destruct b as [| | | | | d2]; try discriminate.
    apply same_content_dict in Hs as [Hlen Hall].
    apply well_formed_dict in Ha as [Hnd1 Hwf1], Hb as [Hnd2 Hwf2].
    rewrite Forall_forall in IH, Hall, Hwf1, Hwf2.
    rewrite !dumps_dict. f_equal.
    set (enc := fun kv : string * json => (fst kv, dumps (snd kv))).
    assert (forall k v, In (k, v) d1 ->
              exists w, In (k, w) d2 /\ dumps v = dumps w) as Hto.
    { intros k v Hin. destruct (Hall _ Hin) as [w [Hg Hsame]]. simpl in *.
      exists w. apply get_In in Hg. split; [exact Hg|].
      apply (IH _ Hin); [exact (Hwf1 _ Hin)|exact (Hwf2 _ Hg)|exact Hsame]. }
    assert (incl (Dict.keys d2) (Dict.keys d1)) as Hback.
    { apply NoDup_length_incl; [exact Hnd1| |].
      - unfold Dict.keys. rewrite !length_map. lia.
      - intros k Hk. apply in_map_iff in Hk as [[k' v] [<- Hin]].
        destruct (Hto _ _ Hin) as [w [Hw _]].
        change (fst (k', v)) with (fst (k', w)). now apply in_map. }
    apply sorted_items_order_independent.
    + unfold enc. now rewrite keys_map_values.
    + apply NoDup_Permutation.
      * apply (NoDup_map_inv fst). unfold enc.
        now rewrite keys_map_values.
      * apply (NoDup_map_inv fst). unfold enc.
        now rewrite keys_map_values.
      * intros [k s]. rewrite !in_map_iff. split.
        -- intros [[k' v] [[= <- <-] Hin]].
           destruct (Hto _ _ Hin) as [w [Hw Hd]].
           exists (k', w). split; [|exact Hw]. unfold enc. simpl.
           now rewrite Hd.
        -- intros [[k' w] [[= <- <-] Hin]].
           assert (In k' (Dict.keys d1)) as Hk
               by (apply Hback; change k' with (fst (k', w));
                   now apply in_map).
           apply in_map_iff in Hk as [[k0 v] [Hk0 Hv]]. simpl in Hk0. subst.
           destruct (Hto _ _ Hv) as [w' [Hw' Hd]].
           assert (w' = w) as ->.
           { apply (In_get _ _ Hnd2) in Hw'. apply (In_get _ _ Hnd2) in Hin.
             congruence. }
           exists (k', v). split; [|exact Hv]. unfold enc. simpl.
           now rewrite Hd.
Qed.

(** A well-formed document has the same content as itself, and as any
    reordering of the items of its top dictionary. *)
Lemma same_content_refl a : well_formed a -> same_content a a = true.
Proof.
  induction a as [| x | x | x | l IH | d IH] using json_ind; intros Ha.
  - reflexivity.
  - simpl. now destruct x.
  - simpl. apply Z.eqb_refl.
  - simpl. apply String.eqb_refl.
  - apply same_content_list. apply well_formed_list in Ha.
    induction l as [|x l IHl]; constructor;
      inversion IH; inversion Ha; subst; auto.
  - apply same_content_dict. split; [reflexivity|].
    apply well_formed_dict in Ha as [Hnd Hwf].
    rewrite Forall_forall in *. intros [k v] Hin. exists v. simpl. split.
    + now apply In_get.
    + apply (IH _ Hin). exact (Hwf _ Hin).
Qed.

Lemma same_content_reordered d d' :
  well_formed (JDict d) -> Permutation d d' ->
  same_content (JDict d) (JDict d') = true.
Proof.
  intros Hwf Hp. apply same_content_dict.
  split; [now apply Permutation_length|].
  apply well_formed_dict in Hwf as [Hnd Hwf].
  rewrite Forall_forall in *. intros [k v] Hin. exists v. simpl. split.
  - apply In_get.
    + unfold Dict.is_dict, Dict.keys.
      eapply Permutation_NoDup; [|exact Hnd]. now apply Permutation_map.
    + eapply Permutation_in; eassumption.
  - apply same_content_refl. exact (Hwf _ Hin).
Qed.

(* ================================================================== *)
(** * The version hash *)
(* ================================================================== *)

(** C2.  Two snapshots that hold the same content, whatever the order in
    which the keys of their dictionaries were inserted, have the same hash;
    the [version_id] of a created record is that hash, whatever the
    clock, the artifact id, the type, the tool and the parent. *)
Theorem compute_artifact_hash_key_order_independent (a b : json) :
  well_formed a -> well_formed b -> same_content a b = true ->
  compute_artifact_hash a = compute_artifact_hash b /\
  forall now now' id id' ty ty' tl tl' parent parent',
    version_id (create_artifact_version now id a ty tl parent) =
    version_id (create_artifact_version now' id' b ty' tl' parent').
Proof.
  intros Ha Hb Hs.
  assert (compute_artifact_hash a = compute_artifact_hash b) as H.
  { unfold compute_artifact_hash. f_equal. now apply dumps_same_content. }
  split; [exact H|]. intros. simpl. now rewrite H.
Qed.

Definition snapshot_a : json :=
  JDict [("name", JStr "Brake controller");
         ("incoming", JList [JStr "REQ-1"]);
         ("properties", JDict [("owner", JStr "chassis");
                               ("rev", JInt 3)])].

Definition snapshot_b : json :=
  JDict [("properties", JDict [("rev", JInt 3);
                               ("owner", JStr "chassis")]);
         ("incoming", JList [JStr "REQ-1"]);
         ("name", JStr "Brake controller")].

Ltac prove_well_formed :=
  simpl; repeat split;
  repeat (constructor; [simpl; intuition discriminate|]); constructor.

Lemma compute_artifact_hash_key_order_independent_witness :
  compute_artifact_hash snapshot_a = compute_artifact_hash snapshot_b /\
  forall now now' id id' ty ty' tl tl' parent parent',
    version_id (create_artifact_version now id snapshot_a ty tl parent) =
    version_id (create_artifact_version now' id' snapshot_b ty' tl' parent').
Proof.
  apply (compute_artifact_hash_key_order_independent snapshot_a snapshot_b).
  - prove_well_formed.
  - prove_well_formed.
  - reflexivity.
Defined.

(* ================================================================== *)
(** * The version trackers *)
(* ================================================================== *)

(** ** What the tracker is to decide for one artifact *)

Inductive verdict : Type :=
| IsNew                               (* no stored version *)
| IsChanged (prior : ArtifactVersion) (* stored, with another hash *)
| IsUnchanged (prior : ArtifactVersion).

Definition verdict_of (previous_versions : Dict.t ArtifactVersion)
           (item : string * json) : verdict :=
  match Dict.get (fst item) previous_versions with
  | None => IsNew
  | Some prior =>
      if eq_str (version_id prior) (compute_artifact_hash (snd item))
      then IsUnchanged prior else IsChanged prior
  end.

Definition is_new previous_versions (item : string * json) : bool :=
  match verdict_of previous_versions item with IsNew => true | _ => false end.

Definition is_changed previous_versions (item : string * json) : bool :=
  match verdict_of previous_versions item with
  | IsChanged _ => true
  | _ => false
  end.

Definition count {A} (p : A -> bool) (l : list A) : nat :=
  List.length (filter p l).

(** The record that is current for the artifact after the run, when a
    created record reads [stamp] from the clock. *)
Definition current_record (ty : ArtifactType) (tl : Tool) (stamp : string)
           previous_versions (item : string * json) : ArtifactVersion :=
  match verdict_of previous_versions item with
  | IsNew =>
      create_artifact_version stamp (fst item) (snd item) ty tl JNull
  | IsChanged prior =>
      create_artifact_version stamp (fst item) (snd item) ty tl
                              (version_id prior)
  | IsUnchanged prior => prior
  end.

(** The stored versions, the two counts and the number of created records
    after a run over [nodes] meet the rule of the tracker. *)
Record tracks (ty : ArtifactType) (tl : Tool) (now : clock)
       (previous_versions : Dict.t ArtifactVersion) (nodes : Dict.t json)
       (current_versions : Dict.t ArtifactVersion)
       (new_count changed_count : nat) : Prop := {
  tracks_ids : Dict.keys current_versions = Dict.keys nodes;
  tracks_records :
    forall item, In item nodes ->
      exists n, Dict.get (fst item) current_versions =
                Some (current_record ty tl (now n) previous_versions item);
  tracks_new : new_count = count (is_new previous_versions) nodes;
  tracks_changed : changed_count = count (is_changed previous_versions) nodes
}.

Section Loop.
Variables (ty : ArtifactType) (tl : Tool) (now : clock).
Variable previous_versions : Dict.t ArtifactVersion.

(** The state both loops carry: current versions, new, changed, created. *)
Record state : Type := {
  st_current : Dict.t ArtifactVersion;
  st_new : nat;
  st_changed : nat;
  st_created : nat
}.

Definition start : state :=
  {| st_current := []; st_new := 0; st_changed := 0; st_created := 0 |}.

Definition step (st : state) (item : string * json) : state :=
  {| st_current :=
       Dict.set (fst item)
         (current_record ty tl (now (st_created st)) previous_versions
                         item)
         (st_current st);
     st_new := if is_new previous_versions item then S (st_new st)
               else st_new st;
     st_changed := if is_changed previous_versions item
                   then S (st_changed st) else st_changed st;
     st_created := match verdict_of previous_versions item with
                   | IsUnchanged _ => st_created st
                   | _ => S (st_created st)
                   end |}.

Definition steps (nodes : Dict.t json) (st : state) : state :=
  fold_left step nodes st.

Lemma steps_cons item nodes st :
  steps (item :: nodes) st = steps nodes (step st item).
Proof. reflexivity. Qed.

Lemma step_counts nodes : forall st,
  st_new (steps nodes st)
  = st_new st + count (is_new previous_versions) nodes /\
  st_changed (steps nodes st)
  = st_changed st + count (is_changed previous_versions) nodes.
Proof.
  unfold count.
  induction nodes as [|item nodes IH]; intros st.
  - simpl. lia.
  - rewrite steps_cons. destruct (IH (step st item)) as [-> ->]. simpl.
    destruct (is_new previous_versions item),
             (is_changed previous_versions item); simpl; lia.
Qed.

Lemma step_records nodes : forall st,
  NoDup (Dict.keys nodes) ->
  (forall k, In k (Dict.keys nodes) -> ~ In k (Dict.keys (st_current st)))
  ->
  Dict.keys (st_current (steps nodes st))
  = Dict.keys (st_current st) ++ Dict.keys nodes /\
  (forall k, ~ In k (Dict.keys nodes) ->
             Dict.get k (st_current (steps nodes st))
             = Dict.get k (st_current st)) /\
  (forall item, In item nodes ->
     exists n, Dict.get (fst item) (st_current (steps nodes st)) =
               Some (current_record ty tl (now n) previous_versions item)).
Proof.
  induction nodes as [|item nodes IH]; intros st Hnd Hfresh.
  - simpl. rewrite app_nil_r. split; [reflexivity|].
    split; [reflexivity|intros ? []].
  - rewrite steps_cons.
    simpl in Hnd. inversion Hnd as [|? ? Hnotin Hnd']; subst.
    assert (~ In (fst item) (Dict.keys (st_current st))) as Hitem
        by (apply Hfresh; now left).
    destruct (IH (step st item) Hnd') as [Hkeys [Hframe Hrec]].
    { intros k Hk Hin. simpl in Hin.
      apply In_keys_set in Hin as [->|Hin].
      - contradiction.
      - apply (Hfresh k); [now right|exact Hin]. }
    simpl in Hkeys, Hframe.
    rewrite keys_set_absent in Hkeys by assumption.
    rewrite <- app_assoc in Hkeys. simpl in Hkeys.
    split; [exact Hkeys|]. split.
    + intros k Hk. rewrite Hframe by (intros H; apply Hk; now right).
      apply get_set_other. intros ->. apply Hk. now left.
    + intros item' [<-|Hin].
      * exists (st_created st). rewrite Hframe by assumption.
        apply get_set_same.
      * now apply Hrec.
Qed.

Lemma step_tracks nodes :
  Dict.is_dict nodes ->
  tracks ty tl now previous_versions nodes
         (st_current (steps nodes start)) (st_new (steps nodes start))
         (st_changed (steps nodes start)).
Proof.
  intros Hnd.
  destruct (step_counts nodes start) as [Hn Hg].
  destruct (step_records nodes start Hnd (fun _ _ H => H)) as [Hk [_ Hrec]].
  now constructor.
Qed.

End Loop.

(** ** The rule, case by case *)

(** New: no stored version for the artifact id. *)
Definition new_artifacts (previous_versions : Dict.t ArtifactVersion)
           (nodes : Dict.t json) : nat :=
  count (fun item => negb (Dict.mem (fst item) previous_versions)) nodes.

(** Changed: a stored version whose [version_id] is not the hash of the
    current snapshot. *)
Definition changed_artifacts (previous_versions : Dict.t ArtifactVersion)
           (nodes : Dict.t json) : nat :=
  count (fun item =>
           match Dict.get (fst item) previous_versions with
           | Some prior =>
               negb (eq_str (version_id prior)
                            (compute_artifact_hash (snd item)))
           | None => false
           end) nodes.


Lemma count_ext {A} (p q : A -> bool) l :
  (forall x, In x l -> p x = q x) -> count p l = count q l.
Proof.
  unfold count. induction l as [|x l IH]; intros H; [reflexivity|].
  simpl. rewrite (H x) by now left.
  destruct (q x); simpl; rewrite IH; auto; intros; apply H; now right.
Qed.

Lemma count_none {A} (p : A -> bool) l :
  (forall x, In x l -> p x = false) -> count p l = 0.
Proof.
  unfold count. induction l as [|x l IH]; intros H; [reflexivity|].
  simpl. rewrite (H x) by now left. apply IH. intros. apply H. now right.
Qed.

Lemma is_new_mem previous_versions item :
  is_new previous_versions item = negb (Dict.mem (fst item) previous_versions).
Proof.
  unfold is_new, verdict_of, Dict.mem.
  destruct (Dict.get (fst item) previous_versions); [|reflexivity].
  now destruct (eq_str _ _).
Qed.

Lemma is_changed_hash previous_versions item :
  is_changed previous_versions item =
  match Dict.get (fst item) previous_versions with
  | Some prior =>
      negb (eq_str (version_id prior) (compute_artifact_hash (snd item)))
  | None => false
  end.
Proof.
  unfold is_changed, verdict_of.
  destruct (Dict.get (fst item) previous_versions); [|reflexivity].
  now destruct (eq_str _ _).
Qed.


(** ** A second run over the same nodes *)

Lemma eq_str_refl s : eq_str (JStr s) s = true.
Proof. apply String.eqb_refl. Qed.

(** The record that is current after a run carries the hash of the
    snapshot it was decided on. *)
Lemma current_record_hash ty tl stamp previous_versions item :
  eq_str (version_id (current_record ty tl stamp previous_versions item))
         (compute_artifact_hash (snd item)) = true.
Proof.
  unfold current_record, verdict_of.
  destruct (Dict.get (fst item) previous_versions) as [prior|];
    [destruct (eq_str (version_id prior)
                      (compute_artifact_hash (snd item))) eqn:E|]; simpl;
    [exact E|apply eq_str_refl|apply eq_str_refl].
Qed.

Lemma rebuild {V} (f : string -> V) (d : Dict.t V) :
  Dict.is_dict d ->
  (forall k v, In (k, v) d -> f k = v) ->
  forall acc, (forall k, In k (Dict.keys d) -> ~ In k (Dict.keys acc)) ->
  fold_left (fun acc k => Dict.set k (f k) acc) (Dict.keys d) acc = acc ++ d.
Proof.
  unfold Dict.is_dict.
  induction d as [|[k v] d IH]; intros Hnd Hf acc Hfresh; simpl.
  - now rewrite app_nil_r.
  - simpl in Hnd. inversion Hnd as [|? ? Hnotin Hnd']; subst.
    rewrite IH; [| exact Hnd' | |].
    + rewrite (Hf k v) by now left.
      enough (Dict.set k v acc = acc ++ [(k, v)]) as ->
          by now rewrite <- app_assoc.
      assert (~ In k (Dict.keys acc)) as Hk by (apply Hfresh; now left).
      clear - Hk. induction acc as [|[k' v'] acc IHa]; simpl; [reflexivity|].
      destruct (String.eqb_spec k k') as [->|_].
      * exfalso. apply Hk. now left.
      * rewrite IHa; [reflexivity|]. intros H. apply Hk. now right.
    + intros k' v' Hin. apply Hf. now right.
    + intros k' Hk' Hin. apply In_keys_set in Hin as [->|Hin].
      * contradiction.
      * apply (Hfresh k'); [now right|exact Hin].
Qed.

Section Rerun.
Variables (ty : ArtifactType) (tl : Tool) (now now' : clock).
Variable previous_versions : Dict.t ArtifactVersion.
Variable nodes : Dict.t json.
Variable current : Dict.t ArtifactVersion.
Hypothesis nodes_dict : Dict.is_dict nodes.
Hypothesis first_run :
  exists new changed,
    tracks ty tl now previous_versions nodes current new changed.

Lemma second_verdict item :
  In item nodes ->
  exists r, Dict.get (fst item) current = Some r /\
            verdict_of current item = IsUnchanged r.
Proof.
  destruct first_run as [new [changed [_ Hrec _ _]]].
  intros Hin. destruct (Hrec _ Hin) as [n Hget].
  eexists. split; [exact Hget|].
  unfold verdict_of. rewrite Hget. now rewrite current_record_hash.
Qed.

Lemma second_run_steps : forall l st,
  (forall item, In item l -> In item nodes) ->
  st_current (steps ty tl now' current l st) =
  fold_left (fun acc k =>
               Dict.set k (match Dict.get k current with
                           | Some r => r
                           | None => create_artifact_version
                                       EmptyString k JNull ty tl JNull
                           end) acc)
            (Dict.keys l) (st_current st) /\
  st_new (steps ty tl now' current l st) = st_new st /\
  st_changed (steps ty tl now' current l st) = st_changed st.
Proof.
  induction l as [|item l IH]; intros st Hsub; [now simpl|].
  rewrite steps_cons.
  destruct (IH (step ty tl now' current st item)) as [Hc [Hn Hg]];
    [intros; apply Hsub; now right|].
  destruct (second_verdict item) as [r [Hget Hv]]; [apply Hsub; now left|].
  rewrite Hc, Hn, Hg. simpl.
  unfold current_record, is_new, is_changed. rewrite Hv, Hget.
  now repeat split.
Qed.

Lemma second_run :
  st_current (steps ty tl now' current nodes (start)) = current /\
  st_new (steps ty tl now' current nodes (start)) = 0 /\
  st_changed (steps ty tl now' current nodes (start)) = 0.
Proof.
  destruct (second_run_steps nodes start (fun _ H => H)) as [Hc [Hn Hg]].
  split; [|now split].
  rewrite Hc. simpl.
  destruct first_run as [new [changed [Hk _ _ _]]].
  rewrite <- Hk.
  assert (Dict.is_dict current) as Hd
      by (unfold Dict.is_dict; now rewrite Hk).
  rewrite rebuild; [reflexivity|exact Hd| |now intros].
  intros k v Hin. now rewrite (In_get _ _ Hd Hin).
Qed.

End Rerun.

(** ** The two loops follow the rule *)

Definition cameo_view (st : CameoTracker.loop_state) : state :=
  {| st_current := CameoTracker.current_versions st;
     st_new := CameoTracker.new_count st;
     st_changed := CameoTracker.changed_count st;
     st_created := CameoTracker.created st |}.

Definition simulink_view (st : SimulinkTracker.loop_state) : state :=
  {| st_current := SimulinkTracker.current_versions st;
     st_new := SimulinkTracker.total_new st;
     st_changed := SimulinkTracker.total_changed st;
     st_created := SimulinkTracker.created st |}.

Lemma cameo_body_view now previous_versions st item :
  cameo_view (CameoTracker.loop_body now previous_versions st item) =
  step REQUIREMENT CAMEO now previous_versions (cameo_view st) item.
Proof.
  destruct item as [id data].
  unfold CameoTracker.loop_body, step, current_record, is_new, is_changed,
    verdict_of, cameo_view. simpl.
  destruct (Dict.get id previous_versions) as [prior|]; [|reflexivity].
  now destruct (eq_str (version_id prior) (compute_artifact_hash data)).
Qed.

Lemma simulink_body_view now previous_versions st item :
  simulink_view (SimulinkTracker.loop_body now previous_versions st item) =
  step MODEL SIMULINK now previous_versions (simulink_view st) item.
Proof.
  destruct item as [id data].
  unfold SimulinkTracker.loop_body, step, current_record, is_new, is_changed,
    verdict_of, simulink_view. simpl.
  destruct (Dict.get id previous_versions) as [prior|]; [|reflexivity].
  now destruct (eq_str (version_id prior) (compute_artifact_hash data)).
Qed.

Lemma cameo_fold_view now previous_versions nodes : forall st,
  cameo_view (fold_left (CameoTracker.loop_body now previous_versions)
                        nodes st) =
  steps REQUIREMENT CAMEO now previous_versions nodes (cameo_view st).
Proof.
  induction nodes as [|item nodes IH]; intros st; [reflexivity|].
  simpl. rewrite IH, cameo_body_view. reflexivity.
Qed.

Lemma simulink_fold_view now previous_versions nodes : forall st,
  simulink_view (fold_left (SimulinkTracker.loop_body now previous_versions)
                           nodes st) =
  steps MODEL SIMULINK now previous_versions nodes (simulink_view st).
Proof.
  induction nodes as [|item nodes IH]; intros st; [reflexivity|].
  simpl. rewrite IH, simulink_body_view. reflexivity.
Qed.

Lemma cameo_loop_tracks now previous_versions nodes :
  Dict.is_dict nodes ->
  let st := CameoTracker.loop now previous_versions nodes in
  tracks REQUIREMENT CAMEO now previous_versions nodes
         (CameoTracker.current_versions st) (CameoTracker.new_count st)
         (CameoTracker.changed_count st).
Proof.
  intros Hd st.
  pose proof (step_tracks REQUIREMENT CAMEO now previous_versions Hd) as H.
  unfold st, CameoTracker.loop.
  change start with
    (cameo_view {| CameoTracker.current_versions := [];
                   CameoTracker.new_count := 0;
                   CameoTracker.changed_count := 0;
                   CameoTracker.created := 0 |}) in H.
  rewrite <- cameo_fold_view in H. exact H.
Qed.

(** The state a Simulink model starts from: no current version yet, the
    versions and counts of the models before it. *)
Definition simulink_start (all_versions : Dict.t ArtifactVersion)
           (news changes ticks : nat) : SimulinkTracker.loop_state :=
  {| SimulinkTracker.current_versions := [];
     SimulinkTracker.all_versions := all_versions;
     SimulinkTracker.total_new := news;
     SimulinkTracker.total_changed := changes;
     SimulinkTracker.created := ticks |}.

Definition simulink_loop now previous_versions nodes all_versions
           news changes ticks : SimulinkTracker.loop_state :=
  fold_left (SimulinkTracker.loop_body now previous_versions) nodes
            (simulink_start all_versions news changes ticks).

Lemma simulink_loop_counts now previous_versions nodes all0 n0 g0 k0 :
  let st := simulink_loop now previous_versions nodes all0 n0 g0 k0 in
  SimulinkTracker.total_new st = n0 + new_artifacts previous_versions nodes /\
  SimulinkTracker.total_changed st
  = g0 + changed_artifacts previous_versions nodes.
Proof.
  intros st.
  destruct (step_counts MODEL SIMULINK now previous_versions nodes
              (simulink_view (simulink_start all0 n0 g0 k0))) as [Hn Hg].
  rewrite <- simulink_fold_view in Hn, Hg. simpl in Hn, Hg.
  unfold st, simulink_loop, new_artifacts, changed_artifacts.
  rewrite Hn, Hg. split; f_equal; apply count_ext; intros.
  - apply is_new_mem.
  - apply is_changed_hash.
Qed.




(** ** The store gives back what was saved *)

Lemma from_dict_to_dict v : from_dict (to_dict v) = Ok v.
Proof. now destruct v. Qed.

Lemma load_document versions :
  VersionStorage.load (Holds (VersionStorage.document versions))
  = Ok versions.
Proof.
  unfold VersionStorage.load, VersionStorage.document. simpl.
  induction versions as [|[k v] versions IH]; [reflexivity|].
  cbn [map map_result]. rewrite from_dict_to_dict. cbn [bind].
  now rewrite IH.
Qed.

(** The run of the Cameo tracker when its two loads succeed. *)
Lemma track_cameo_requirements_run now fs data nodes previous_versions :
  fs CameoTracker.req_file = Holds data ->
  get_or_empty "nodes" data = Ok (JDict nodes) ->
  VersionStorage.load (fs CameoTracker.version_file) = Ok previous_versions ->
  let c := CameoTracker.loop now previous_versions nodes in
  CameoTracker.track_cameo_requirements now fs =
  Ok (VersionStorage.save CameoTracker.version_file
                          (CameoTracker.current_versions c) fs,
      (CameoTracker.current_versions c, CameoTracker.new_count c,
       CameoTracker.changed_count c)).
Proof.
  intros Hreq Hnodes Hload c.
  unfold CameoTracker.track_cameo_requirements.
  rewrite Hreq. simpl. rewrite Hnodes. simpl. rewrite Hload. reflexivity.
Qed.

(** The run of the Simulink tracker on one model that has blocks, when
    the load of its store succeeds. *)
Lemma process_model_run now rs model_name data nodes previous_versions :
  get_or_empty "nodes" data = Ok (JDict nodes) ->
  nodes <> [] ->
  VersionStorage.load
    (SimulinkTracker.files rs (SimulinkTracker.version_file model_name))
  = Ok previous_versions ->
  let s := simulink_loop now previous_versions nodes
             (SimulinkTracker.versions rs) (SimulinkTracker.news rs)
             (SimulinkTracker.changes rs) (SimulinkTracker.ticks rs) in
  SimulinkTracker.process_model now rs (model_name, Holds data) =
  Ok {| SimulinkTracker.files :=
          VersionStorage.save (SimulinkTracker.version_file model_name)
            (SimulinkTracker.current_versions s) (SimulinkTracker.files rs);
        SimulinkTracker.versions := SimulinkTracker.all_versions s;
        SimulinkTracker.news := SimulinkTracker.total_new s;
        SimulinkTracker.changes := SimulinkTracker.total_changed s;
        SimulinkTracker.ticks := SimulinkTracker.created s |}.
Proof.
  intros Hnodes Hne Hload s.
  unfold SimulinkTracker.process_model. simpl. rewrite Hnodes. simpl.
  destruct nodes as [|item nodes]; [contradiction|]. simpl.
  rewrite Hload. reflexivity.
Qed.



(** A run of three artifacts against a store of two: one unchanged, one
    changed, one new. *)
Module TrackerExample.

Definition now : clock :=
  fun n => ("2025-10-14T14:36:0" ++ PyStr.str_of_Z (Z.of_nat n))%string.

Definition node (name : string) : json :=
  JDict [("name", JStr name); ("node_type", JStr "Requirement_General");
         ("incoming", JList []); ("outgoing", JList [])].

Definition stored : Dict.t ArtifactVersion :=
  [("REQ-1", create_artifact_version "2025-10-01T09:00:00" "REQ-1"
               (node "Brake") REQUIREMENT CAMEO JNull);
   ("REQ-2", create_artifact_version "2025-10-01T09:00:01" "REQ-2"
               (node "Steer") REQUIREMENT CAMEO JNull)].

Definition nodes : Dict.t json :=
  [("REQ-1", node "Brake"); ("REQ-2", node "Steering");
   ("REQ-3", node "Park")].


Example counts :
  let c := CameoTracker.loop now stored nodes in
  CameoTracker.new_count c = 1 /\ CameoTracker.changed_count c = 1 /\
  Dict.get "REQ-1" (CameoTracker.current_versions c)
  = Dict.get "REQ-1" stored /\
  option_map parent_version_id
             (Dict.get "REQ-2" (CameoTracker.current_versions c))
  = option_map version_id (Dict.get "REQ-2" stored) /\
  option_map parent_version_id
             (Dict.get "REQ-3" (CameoTracker.current_versions c))
  = Some JNull.
Proof. vm_compute. repeat split. Qed.

End TrackerExample.


(** ** The trackers and their files *)

Lemma steps_ids ty tl now previous_versions nodes : forall st k,
  In k (Dict.keys (st_current (steps ty tl now previous_versions nodes st)))
  <-> In k (Dict.keys (st_current st)) \/ In k (Dict.keys nodes).
Proof.
  induction nodes as [|item nodes IH]; intros st k.
  - simpl. tauto.
  - rewrite steps_cons, IH. simpl. rewrite In_keys_set. intuition.
Qed.

Lemma steps_without_history ty tl now nodes : forall st,
  (forall id v, Dict.get id (st_current st) = Some v ->
                parent_version_id v = JNull) ->
  forall id v,
    Dict.get id (st_current (steps ty tl now [] nodes st)) = Some v ->
    parent_version_id v = JNull.
Proof.
  induction nodes as [|item nodes IH]; intros st Hst; [exact Hst|].
  rewrite steps_cons. apply IH. intros id v. simpl.
  destruct (string_dec id (fst item)) as [->|Hne].
  - rewrite get_set_same. now intros [= <-].
  - rewrite get_set_other by assumption. apply Hst.
Qed.

Lemma new_artifacts_without_history nodes :
  new_artifacts [] nodes = List.length nodes /\
  changed_artifacts [] nodes = 0.
Proof.
  unfold new_artifacts, changed_artifacts, count. simpl. split.
  - induction nodes; simpl; auto.
  - induction nodes; simpl; auto.
Qed.

Lemma cameo_loop_state now previous_versions nodes :
  let c := CameoTracker.loop now previous_versions nodes in
  cameo_view c = steps REQUIREMENT CAMEO now previous_versions nodes start.
Proof. apply cameo_fold_view. Qed.

Lemma cameo_loop_counts now previous_versions nodes :
  let c := CameoTracker.loop now previous_versions nodes in
  CameoTracker.new_count c = new_artifacts previous_versions nodes /\
  CameoTracker.changed_count c = changed_artifacts previous_versions nodes.
Proof.
  intros c.
  destruct (step_counts REQUIREMENT CAMEO now previous_versions nodes start)
    as [Hn Hg].
  rewrite <- (cameo_loop_state now previous_versions nodes) in Hn, Hg.
  simpl in Hn, Hg. unfold c, new_artifacts, changed_artifacts.
  rewrite Hn, Hg. split; apply count_ext; intros.
  - apply is_new_mem.
  - apply is_changed_hash.
Qed.

Lemma cameo_loop_ids now previous_versions nodes k :
  In k (Dict.keys (CameoTracker.current_versions
                     (CameoTracker.loop now previous_versions nodes)))
  <-> In k (Dict.keys nodes).
Proof.
  pose proof (steps_ids REQUIREMENT CAMEO now previous_versions nodes
                        start k) as H.
  rewrite <- (cameo_loop_state now previous_versions nodes) in H.
  simpl in H. tauto.
Qed.

Lemma simulink_loop_ids now previous_versions nodes all0 n0 g0 k0 k :
  In k (Dict.keys (SimulinkTracker.current_versions
                     (simulink_loop now previous_versions nodes
                                    all0 n0 g0 k0)))
  <-> In k (Dict.keys nodes).
Proof.
  pose proof (steps_ids MODEL SIMULINK now previous_versions nodes
                (simulink_view (simulink_start all0 n0 g0 k0)) k) as H.
  rewrite <- simulink_fold_view in H. simpl in H.
  unfold simulink_loop. tauto.
Qed.

(** When the load of the store raises, so does the tracker. *)
Lemma track_cameo_requirements_raises now fs data nodes e :
  fs CameoTracker.req_file = Holds data ->
  get_or_empty "nodes" data = Ok nodes ->
  VersionStorage.load (fs CameoTracker.version_file) = Raise e ->
  CameoTracker.track_cameo_requirements now fs = Raise e.
Proof.
  intros Hreq Hnodes Hload.
  unfold CameoTracker.track_cameo_requirements.
  rewrite Hreq. simpl. rewrite Hnodes. simpl. now rewrite Hload.
Qed.

Lemma process_model_raises now rs model_name data nodes e :
  get_or_empty "nodes" data = Ok nodes ->
  truthy nodes = true ->
  VersionStorage.load
    (SimulinkTracker.files rs (SimulinkTracker.version_file model_name))
  = Raise e ->
  SimulinkTracker.process_model now rs (model_name, Holds data) = Raise e.
Proof.
  intros Hnodes Ht Hload.
  unfold SimulinkTracker.process_model. simpl. rewrite Hnodes. simpl.
  rewrite Ht. simpl. now rewrite Hload.
Qed.

(** A model without blocks is skipped: nothing is loaded or saved. *)
Lemma process_model_skips now rs model_name data nodes :
  get_or_empty "nodes" data = Ok nodes ->
  truthy nodes = false ->
  SimulinkTracker.process_model now rs (model_name, Holds data) = Ok rs.
Proof.
  intros Hnodes Ht.
  unfold SimulinkTracker.process_model. simpl. rewrite Hnodes. simpl.
  now rewrite Ht.
Qed.

(** ** The store that cannot be loaded *)

Lemma load_missing : VersionStorage.load Missing = Ok [].
Proof. reflexivity. Qed.

Lemma load_unreadable : VersionStorage.load Unreadable = Raise OSError.
Proof. reflexivity. Qed.

Lemma load_malformed : VersionStorage.load Malformed = Raise JSONDecodeError.
Proof. reflexivity. Qed.

Lemma cameo_without_history now nodes :
  let c := CameoTracker.loop now [] nodes in
  CameoTracker.new_count c = List.length nodes /\
  CameoTracker.changed_count c = 0 /\
  (forall id v, Dict.get id (CameoTracker.current_versions c) = Some v ->
                parent_version_id v = JNull).
Proof.
  intros c. destruct (cameo_loop_counts now [] nodes) as [Hn Hg].
  destruct (new_artifacts_without_history nodes) as [Hn' Hg'].
  split; [unfold c; congruence|]. split; [unfold c; congruence|].
  intros id v.
  pose proof (steps_without_history REQUIREMENT CAMEO now nodes start) as H.
  rewrite <- (cameo_loop_state now [] nodes) in H. simpl in H.
  apply H. intros ? ? [=].
Qed.

Lemma simulink_without_history now nodes all0 n0 g0 k0 :
  let s := simulink_loop now [] nodes all0 n0 g0 k0 in
  SimulinkTracker.total_new s = n0 + List.length nodes /\
  SimulinkTracker.total_changed s = g0 /\
  (forall id v, Dict.get id (SimulinkTracker.current_versions s) = Some v ->
                parent_version_id v = JNull).
Proof.
  intros s. destruct (simulink_loop_counts now [] nodes all0 n0 g0 k0)
    as [Hn Hg].
  destruct (new_artifacts_without_history nodes) as [Hn' Hg'].
  split; [unfold s; lia|]. split; [unfold s; lia|].
  intros id v.
  pose proof (steps_without_history MODEL SIMULINK now nodes
                (simulink_view (simulink_start all0 n0 g0 k0))) as H.
  rewrite <- simulink_fold_view in H. simpl in H.
  apply H. intros ? ? [=].
Qed.

(** ** A run of the Simulink tracker, model by model *)

Lemma for_each_app {A S} (body : S -> A -> result S) l1 l2 s :
  for_each body (l1 ++ l2) s =
  (s' <- for_each body l1 s ;; for_each body l2 s')%result.
Proof.
  revert s. induction l1 as [|x l1 IH]; intros s; [reflexivity|].
  simpl. destruct (body s x) as [s1|]; [|reflexivity]. simpl. apply IH.
Qed.


(** The state before the first model, and what the run returns from the
    state after the last one. *)
Definition run_start (fs : filesystem) : SimulinkTracker.run_state :=
  {| SimulinkTracker.files := fs; SimulinkTracker.versions := [];
     SimulinkTracker.news := 0; SimulinkTracker.changes := 0;
     SimulinkTracker.ticks := 0 |}.

Definition run_result (rs : SimulinkTracker.run_state)
  : filesystem * tracked :=
  (SimulinkTracker.files rs,
   (SimulinkTracker.versions rs, SimulinkTracker.news rs,
    SimulinkTracker.changes rs)).

(** The run as the models before one of its files, that file, and the
    models after it. *)
Lemma track_simulink_blocks_models now before item after fs :
  SimulinkTracker.track_simulink_blocks
    now (Some (before ++ item :: after)) fs
  = (rs <- for_each (SimulinkTracker.process_model now) before
             (run_start fs) ;;
     rs1 <- SimulinkTracker.process_model now rs item ;;
     rs2 <- for_each (SimulinkTracker.process_model now) after rs1 ;;
     Ok (run_result rs2)).
Proof.
  unfold SimulinkTracker.track_simulink_blocks.
  destruct (before ++ item :: after) as [|x found] eqn:E.
  - now destruct before.
  - rewrite <- E, for_each_app. fold (run_start fs).
    destruct (for_each _ before (run_start fs)) as [rs|]; [|reflexivity].
    cbn [bind for_each].
    destruct (SimulinkTracker.process_model now rs item) as [rs1|];
      [|reflexivity].
    cbn [bind].
    now destruct (for_each _ after rs1).
Qed.

(** The file holds a nodes map that is not empty: the model is not
    skipped. *)
Definition has_blocks (connectivity_file : file) : bool :=
  match json_load connectivity_file with
  | Ok data =>
      match get_or_empty "nodes" data with
      | Ok blocks => truthy blocks
      | Raise _ => false
      end
  | Raise _ => false
  end.

(** One model: a file without blocks changes nothing, a file with blocks
    writes the store of its model and no other file. *)
Lemma process_model_frame now rs model_name connectivity_file rs' :
  SimulinkTracker.process_model now rs (model_name, connectivity_file)
  = Ok rs' ->
  (has_blocks connectivity_file = false -> rs' = rs) /\
  (forall p, p <> SimulinkTracker.version_file model_name ->
             SimulinkTracker.files rs' p = SimulinkTracker.files rs p).
Proof.
  unfold SimulinkTracker.process_model, has_blocks. intros Hrun.
  destruct (json_load connectivity_file) as [data|]; [|discriminate].
  cbn [bind] in Hrun.
  destruct (get_or_empty "nodes" data) as [blocks|]; [|discriminate].
  cbn [bind] in Hrun.
  destruct (truthy blocks); cbn [negb] in Hrun.
  - split; [discriminate|].
    destruct (VersionStorage.load _) as [previous_versions|];
      [|discriminate].
    cbn [bind] in Hrun.
    destruct (as_dict blocks) as [items|]; [|discriminate].
    cbn [bind] in Hrun. injection Hrun as <-.
    intros p Hp. cbn [SimulinkTracker.files].
    unfold VersionStorage.save, write_json.
    destruct (String.eqb_spec p (SimulinkTracker.version_file model_name));
      [contradiction|reflexivity].
  - injection Hrun as <-. now split.
Qed.

(** Some models: a file is written only when it is the store of a model
    one of whose files has blocks. *)
Lemma process_models_frame now found : forall rs rs',
  for_each (SimulinkTracker.process_model now) found rs = Ok rs' ->
  forall p,
    (forall m f, In (m, f) found -> has_blocks f = true ->
                 p <> SimulinkTracker.version_file m) ->
    SimulinkTracker.files rs' p = SimulinkTracker.files rs p.
Proof.
  induction found as [|[m f] found IH]; intros rs rs' Hrun p Hp.
  - now injection Hrun as <-.
  - cbn [for_each] in Hrun.
    destruct (SimulinkTracker.process_model now rs (m, f)) as [rs1|]
      eqn:H1; [|discriminate]. cbn [bind] in Hrun.
    rewrite (IH _ _ Hrun p)
      by (intros m' f' Hin; apply (Hp m' f'); now right).
    apply process_model_frame in H1 as [Hskip Hframe].
    destruct (has_blocks f) eqn:Hb.
    + apply Hframe. apply (Hp m f); [now left|exact Hb].
    + now rewrite Hskip.
Qed.

(** Two models have two stores. *)
Lemma append_length (a b : string) :
  String.length (a ++ b) = String.length a + String.length b.
Proof. induction a as [|c a IH]; simpl; [reflexivity|now rewrite IH]. Qed.

Lemma append_inv_head (p a b : string) :
  (p ++ a = p ++ b)%string -> a = b.
Proof.
  induction p as [|c p IH]; simpl; [auto|]. intros [= H]. now apply IH.
Qed.

Lemma append_inv_tail (t : string) : forall a b : string,
  (a ++ t = b ++ t)%string -> a = b.
Proof.
  induction a as [|c a IH]; intros [|c' b] H.
  - reflexivity.
  - apply (f_equal String.length) in H. simpl in H.
    rewrite append_length in H. lia.
  - apply (f_equal String.length) in H. simpl in H.
    rewrite append_length in H. lia.
  - simpl in H. injection H as -> H. f_equal. now apply IH.
Qed.

Lemma version_file_injective m m' :
  SimulinkTracker.version_file m = SimulinkTracker.version_file m' ->
  m = m'.
Proof.
  unfold SimulinkTracker.version_file. intros H.
  apply append_inv_head in H. now apply append_inv_tail in H.
Qed.

(** C4, as the code has it.  A store file that does not exist loads as an
    empty history: every artifact of the nodes map is new and no record
    has a parent.  The Cameo run then completes, returns one record for
    each node and saves them; the Simulink run saves the records of the
    model and goes on with the models that follow, so that it completes
    when they do.  A store file that exists and cannot be read, is not
    JSON, or is JSON and no object makes the load raise, as does one whose
    values are no version records; and whenever the load raises, the
    exception leaves the tracker: the run of the Cameo tracker raises it,
    and so does the run of the Simulink tracker, whatever models follow
    the one whose store cannot be loaded.  The store a model finds is the
    file as the run found it, unless an earlier file of the run belongs
    to the same model and has blocks. *)
Theorem missing_store_is_no_history
        (now : clock) (data : json) (nodes : Dict.t json) :
  get_or_empty "nodes" data = Ok (JDict nodes) ->
  (forall fs, fs CameoTracker.req_file = Holds data ->
     (fs CameoTracker.version_file = Missing ->
        exists current,
          CameoTracker.track_cameo_requirements now fs =
          Ok (VersionStorage.save CameoTracker.version_file current fs,
              (current, List.length nodes, 0)) /\
          (forall id v, Dict.get id current = Some v ->
                        parent_version_id v = JNull) /\
          (forall k, In k (Dict.keys current) <-> In k (Dict.keys nodes))) /\
     (forall e, VersionStorage.load (fs CameoTracker.version_file) = Raise e ->
        CameoTracker.track_cameo_requirements now fs = Raise e)) /\
  (forall fs before after model_name rs,
     nodes <> [] ->
     for_each (SimulinkTracker.process_model now) before (run_start fs)
     = Ok rs ->
     let found := before ++ (model_name, Holds data) :: after in
     let store :=
       SimulinkTracker.files rs (SimulinkTracker.version_file model_name) in
     (store = Missing ->
        exists rs' current,
          SimulinkTracker.process_model now rs (model_name, Holds data)
          = Ok rs' /\
          SimulinkTracker.news rs'
          = SimulinkTracker.news rs + List.length nodes /\
          SimulinkTracker.changes rs' = SimulinkTracker.changes rs /\
          SimulinkTracker.files rs'
          = VersionStorage.save (SimulinkTracker.version_file model_name)
                                current (SimulinkTracker.files rs) /\
          (forall id v, Dict.get id current = Some v ->
                        parent_version_id v = JNull) /\
          (forall k, In k (Dict.keys current) <-> In k (Dict.keys nodes)) /\
          SimulinkTracker.track_simulink_blocks now (Some found) fs
          = (rs2 <- for_each (SimulinkTracker.process_model now) after rs' ;;
             Ok (run_result rs2))) /\
     (forall e, VersionStorage.load store = Raise e ->
        SimulinkTracker.track_simulink_blocks now (Some found) fs
        = Raise e) /\
     ((forall m f, In (m, f) before -> has_blocks f = true ->
                   m <> model_name) ->
      store = fs (SimulinkTracker.version_file model_name))) /\
  VersionStorage.load Unreadable = Raise OSError /\
  VersionStorage.load Malformed = Raise JSONDecodeError /\
  (forall raw, Py.is_dict raw = false ->
     VersionStorage.load (Holds raw) = Raise AttributeError) /\
  VersionStorage.load (Holds (JList [])) = Raise AttributeError /\
  VersionStorage.load (Holds (JDict [("REQ-1", JStr "?")])) = Raise TypeError.
Proof.
  intros Hnodes. split; [|split].
  3: { repeat split; try reflexivity.
       intros raw Hraw. destruct raw; try reflexivity; discriminate. }
  - intros fs Hreq. split.
    + intros Hmissing.
      pose proof (fun H => @track_cameo_requirements_run now fs data nodes
                            [] Hreq Hnodes H) as Hrun.
      rewrite Hmissing in Hrun. specialize (Hrun load_missing).
      destruct (cameo_without_history now nodes) as [Hn [Hg Hp]].
      simpl in Hrun. rewrite Hn, Hg in Hrun.
      eexists. split; [exact Hrun|]. split; [exact Hp|].
      intros k. apply cameo_loop_ids.
    + intros e Hload.
      exact (@track_cameo_requirements_raises now fs data (JDict nodes) e
               Hreq Hnodes Hload).
  - intros fs before after model_name rs Hne Hbefore found store.
    split; [|split].
    + intros Hmissing.
      pose proof (fun H => @process_model_run now rs model_name data nodes
                            [] Hnodes Hne H) as Hrun.
      fold store in Hrun. rewrite Hmissing in Hrun.
      specialize (Hrun load_missing). cbv zeta in Hrun.
      destruct (simulink_without_history now nodes
                  (SimulinkTracker.versions rs) (SimulinkTracker.news rs)
                  (SimulinkTracker.changes rs) (SimulinkTracker.ticks rs))
        as [Hn [Hg Hp]].
      eexists. eexists. split; [exact Hrun|].
      cbn [SimulinkTracker.news SimulinkTracker.changes
           SimulinkTracker.files].
      split; [exact Hn|]. split; [exact Hg|]. split; [reflexivity|].
      split; [exact Hp|]. split; [intros k; apply simulink_loop_ids|].
      unfold found. rewrite track_simulink_blocks_models, Hbefore.
      cbn [bind]. rewrite Hrun. reflexivity.
    + intros e Hload.
      unfold found. rewrite track_simulink_blocks_models, Hbefore.
      cbn [bind].
      rewrite (@process_model_raises now rs model_name data (JDict nodes)
                 e Hnodes); [reflexivity| |exact Hload].
      now destruct nodes.
    + intros Hother. unfold store.
      rewrite (@process_models_frame _ _ _ _ Hbefore); [reflexivity|].
      intros m f Hin Hb E. apply version_file_injective in E.
      now apply (Hother m f Hin Hb).
Qed.

Module StoreExample.

Definition data : json := JDict [("nodes", JDict TrackerExample.nodes)].

(** The requirements file and a store file that is not JSON. *)
Definition corrupt : filesystem :=
  fun p => if String.eqb p CameoTracker.req_file then Holds data
           else if String.eqb p CameoTracker.version_file then Malformed
           else Missing.

(** The requirements file and no store file. *)
Definition fresh : filesystem :=
  fun p => if String.eqb p CameoTracker.req_file then Holds data
           else Missing.

(** A Simulink model without blocks, and the store of an earlier run. *)
Definition emptied : json := JDict [("nodes", JDict [])].

Definition stale : filesystem :=
  fun p => if String.eqb p (SimulinkTracker.version_file "plant")
           then Holds (VersionStorage.document TrackerExample.stored)
           else Missing.

(** Two models; the store of the second one is not JSON. *)
Definition second_corrupt : filesystem :=
  fun p => if String.eqb p (SimulinkTracker.version_file "pump")
           then Malformed else Missing.

(** A second connectivity file of the model [plant], with one block. *)
Definition later_nodes : Dict.t json :=
  [("REQ-9", TrackerExample.node "Horn")].

Definition later : json := JDict [("nodes", JDict later_nodes)].

Definition nowhere : filesystem := fun _ => Missing.

End StoreExample.

Lemma missing_store_is_no_history_witness :
  (exists current,
     CameoTracker.track_cameo_requirements TrackerExample.now
                                           StoreExample.fresh =
     Ok (VersionStorage.save CameoTracker.version_file current
                             StoreExample.fresh,
         (current, 3, 0)) /\
     (forall id v, Dict.get id current = Some v ->
                   parent_version_id v = JNull) /\
     (forall k, In k (Dict.keys current)
                <-> In k (Dict.keys TrackerExample.nodes))) /\
  SimulinkTracker.track_simulink_blocks
    TrackerExample.now
    (Some [("plant", Holds StoreExample.data);
           ("pump", Holds StoreExample.data)])
    StoreExample.second_corrupt
  = Raise JSONDecodeError.
Proof.
  destruct (missing_store_is_no_history TrackerExample.now
              StoreExample.data (nodes := TrackerExample.nodes) eq_refl)
    as [Hcameo [Hsimulink _]].
  split.
  - destruct (Hcameo StoreExample.fresh eq_refl) as [Hmissing _].
    exact (Hmissing eq_refl).
  - destruct (for_each (SimulinkTracker.process_model TrackerExample.now)
                       [("plant", Holds StoreExample.data)]
                       (run_start StoreExample.second_corrupt))
      as [rs|e] eqn:Hbefore; [|vm_compute in Hbefore; discriminate].
    assert (TrackerExample.nodes <> []) as Hne by discriminate.
    destruct (Hsimulink StoreExample.second_corrupt
                        [("plant", Holds StoreExample.data)] []
                        "pump" rs Hne Hbefore) as [_ [Hraise Hstore]].
    apply Hraise. rewrite Hstore; [reflexivity|].
    intros m f [[= <- <-]|[]] _. discriminate.
Defined.

(** C4 as stated fails: with a store file that is not JSON the tracker
    raises, where the claim has it complete with every artifact new. *)
Lemma corrupt_store_propagates :
  StoreExample.corrupt CameoTracker.version_file = Malformed /\
  CameoTracker.track_cameo_requirements TrackerExample.now
                                        StoreExample.corrupt
  = Raise JSONDecodeError /\
  ~ exists fs' current,
      CameoTracker.track_cameo_requirements TrackerExample.now
                                            StoreExample.corrupt
      = Ok (fs', (current, List.length TrackerExample.nodes, 0)).
Proof.
  assert (CameoTracker.track_cameo_requirements TrackerExample.now
            StoreExample.corrupt = Raise JSONDecodeError) as H
      by reflexivity.
  split; [reflexivity|]. split; [exact H|].
  intros [fs' [current Hok]]. rewrite H in Hok. discriminate.
Qed.

(** ** The ids of the saved store *)

Lemma tracker_rerun_cameo now now' previous_versions nodes :
  Dict.is_dict nodes ->
  let c := CameoTracker.loop now previous_versions nodes in
  let c' := CameoTracker.loop now' (CameoTracker.current_versions c) nodes in
  CameoTracker.current_versions c' = CameoTracker.current_versions c /\
  CameoTracker.new_count c' = 0 /\
  CameoTracker.changed_count c' = 0.
Proof.
  intros Hd c c'.
  pose proof (cameo_loop_tracks now previous_versions Hd) as Ht.
  destruct (second_run now' Hd (ex_intro _ _ (ex_intro _ _ Ht)))
    as [H1 [H2 H3]].
  rewrite <- (cameo_loop_state now' _ nodes) in H1, H2, H3.
  now repeat split.
Qed.

Lemma get_absent {V} (d : Dict.t V) k :
  ~ In k (Dict.keys d) -> Dict.get k d = None.
Proof. apply get_None. Qed.

(** C10, as the code has it.  When the Cameo tracker completes on a
    requirements file that exists, the store it saved holds a record for
    exactly the artifact ids of the nodes map.  When the Simulink tracker
    completes, the store of a model holds a record for exactly the block
    ids of the last file of that model in the run that has blocks: a
    record of the previous store, or of an earlier file of the same
    model, whose id is not among these nodes is gone.  The store of a
    model none of whose files has blocks is the file the run found. *)
Theorem saved_store_has_the_ids_of_the_nodes
        (now : clock) (data : json) (nodes : Dict.t json) :
  get_or_empty "nodes" data = Ok (JDict nodes) ->
  (forall fs fs' out,
     fs CameoTracker.req_file = Holds data ->
     CameoTracker.track_cameo_requirements now fs = Ok (fs', out) ->
     exists current,
       fs' CameoTracker.version_file
       = Holds (VersionStorage.document current) /\
       (forall k, In k (Dict.keys current) <-> In k (Dict.keys nodes)) /\
       (forall k, ~ In k (Dict.keys nodes) -> Dict.get k current = None)) /\
  (forall fs before after model_name fs' out,
     SimulinkTracker.track_simulink_blocks
       now (Some (before ++ (model_name, Holds data) :: after)) fs
     = Ok (fs', out) ->
     nodes <> [] ->
     (forall m f, In (m, f) after -> has_blocks f = true ->
                  m <> model_name) ->
     exists current,
       fs' (SimulinkTracker.version_file model_name)
       = Holds (VersionStorage.document current) /\
       (forall k, In k (Dict.keys current) <-> In k (Dict.keys nodes)) /\
       (forall k, ~ In k (Dict.keys nodes) -> Dict.get k current = None)) /\
  (forall fs found model_name fs' out,
     SimulinkTracker.track_simulink_blocks now (Some found) fs
     = Ok (fs', out) ->
     (forall m f, In (m, f) found -> has_blocks f = true ->
                  m <> model_name) ->
     fs' (SimulinkTracker.version_file model_name)
     = fs (SimulinkTracker.version_file model_name)).
Proof.
  intros Hnodes. split; [|split].
  - intros fs fs' out Hreq Hrun.
    destruct (VersionStorage.load (fs CameoTracker.version_file))
      as [previous_versions|e] eqn:Hload.
    + rewrite (@track_cameo_requirements_run now fs data nodes
                 previous_versions Hreq Hnodes Hload) in Hrun.
      injection Hrun as <- _.
      eexists. split; [|split].
      * unfold VersionStorage.save, write_json.
        now rewrite String.eqb_refl.
      * intros k. apply cameo_loop_ids.
      * intros k Hk. apply get_absent. now rewrite cameo_loop_ids.
    + rewrite (@track_cameo_requirements_raises now fs data (JDict nodes) e
                 Hreq Hnodes Hload) in Hrun. discriminate.
  - intros fs before after model_name fs' out Hrun Hne Hafter.
    rewrite track_simulink_blocks_models in Hrun.
    destruct (for_each _ before (run_start fs)) as [rs|];
      [|discriminate]. cbn [bind] in Hrun.
    destruct (VersionStorage.load
                (SimulinkTracker.files rs
                   (SimulinkTracker.version_file model_name)))
      as [previous_versions|e] eqn:Hload.
    + rewrite (@process_model_run now rs model_name data nodes
                 previous_versions Hnodes Hne Hload) in Hrun.
      cbn [bind] in Hrun.
      destruct (for_each _ after _) as [rs2|] eqn:Hrest; [|discriminate].
      cbn [bind] in Hrun. injection Hrun as <- _.
      rewrite (@process_models_frame _ _ _ _ Hrest)
        by (intros m f Hin Hb E; apply version_file_injective in E;
            now apply (Hafter m f Hin Hb)).
      cbn [SimulinkTracker.files].
      eexists. split; [|split].
      * unfold VersionStorage.save, write_json.
        now rewrite String.eqb_refl.
      * intros k. apply simulink_loop_ids.
      * intros k Hk. apply get_absent. now rewrite simulink_loop_ids.
    + rewrite (@process_model_raises now rs model_name data (JDict nodes)
                 e Hnodes) in Hrun; [discriminate| |exact Hload].
      now destruct nodes.
  - intros fs found model_name fs' out Hrun Hother.
    unfold SimulinkTracker.track_simulink_blocks in Hrun.
    destruct found as [|x found]; [now injection Hrun as <- _|].
    fold (run_start fs) in Hrun.
    destruct (for_each _ (x :: found) (run_start fs)) as [rs|] eqn:Hall;
      [|discriminate].
    cbn [bind] in Hrun. injection Hrun as <- _.
    rewrite (@process_models_frame _ _ _ _ Hall); [reflexivity|].
    intros m f Hin Hb E. apply version_file_injective in E.
    now apply (Hother m f Hin Hb).
Qed.

Lemma saved_store_has_the_ids_of_the_nodes_witness :
  (exists fs' out current,
     CameoTracker.track_cameo_requirements TrackerExample.now
                                           StoreExample.fresh
     = Ok (fs', out) /\
     fs' CameoTracker.version_file
     = Holds (VersionStorage.document current) /\
     (forall k, In k (Dict.keys current)
                <-> In k (Dict.keys TrackerExample.nodes)) /\
     (forall k, ~ In k (Dict.keys TrackerExample.nodes) ->
                Dict.get k current = None)) /\
  (exists fs' out current,
     SimulinkTracker.track_simulink_blocks
       TrackerExample.now
       (Some [("plant", Holds StoreExample.data);
              ("plant", Holds StoreExample.later)])
       StoreExample.nowhere
     = Ok (fs', out) /\
     fs' (SimulinkTracker.version_file "plant")
     = Holds (VersionStorage.document current) /\
     (forall k, In k (Dict.keys current) <-> k = "REQ-9") /\
     Dict.get "REQ-1" current = None).
Proof.
  split.
  - destruct (CameoTracker.track_cameo_requirements TrackerExample.now
                                                    StoreExample.fresh)
      as [[fs' out]|e] eqn:Hrun; [|vm_compute in Hrun; discriminate].
    destruct (proj1 (saved_store_has_the_ids_of_the_nodes
                       TrackerExample.now StoreExample.data
                       (nodes := TrackerExample.nodes) eq_refl)
                    StoreExample.fresh fs' out eq_refl Hrun)
      as [current H].
    exists fs', out, current. split; [reflexivity|exact H].
  - destruct (SimulinkTracker.track_simulink_blocks
                TrackerExample.now
                (Some [("plant", Holds StoreExample.data);
                       ("plant", Holds StoreExample.later)])
                StoreExample.nowhere)
      as [[fs' out]|e] eqn:Hrun; [|vm_compute in Hrun; discriminate].
    assert (StoreExample.later_nodes <> []) as Hne by discriminate.
    destruct (proj1 (proj2 (saved_store_has_the_ids_of_the_nodes
                              TrackerExample.now StoreExample.later
                              (nodes := StoreExample.later_nodes) eq_refl))
                    StoreExample.nowhere
                    [("plant", Holds StoreExample.data)] [] "plant"
                    fs' out Hrun Hne
                    (fun m f (Hin : In (m, f) []) => match Hin with end))
      as [current [Hstore [Hkeys Habsent]]].
    exists fs', out, current. split; [reflexivity|].
    split; [exact Hstore|]. split.
    + intros k. rewrite Hkeys. simpl. intuition.
    + apply Habsent. simpl. intros [H|[]]. discriminate.
Defined.

(** C10 as stated fails for a Simulink model whose nodes map is empty:
    the run completes, the store of the model still holds the two records
    of the earlier run, and neither id is among the nodes. *)
Lemma skipped_model_keeps_its_store :
  exists fs' saved,
    SimulinkTracker.track_simulink_blocks TrackerExample.now
      (Some [("plant", Holds StoreExample.emptied)]) StoreExample.stale
    = Ok (fs', ([], 0, 0)) /\
    get_or_empty "nodes" StoreExample.emptied = Ok (JDict []) /\
    fs' (SimulinkTracker.version_file "plant")
    = Holds (VersionStorage.document saved) /\
    ~ (forall k, In k (Dict.keys saved)
                 <-> In k (Dict.keys (@nil (string * json)))).
Proof.
  exists StoreExample.stale, TrackerExample.stored.
  split; [reflexivity|]. split; [reflexivity|]. split; [reflexivity|].
  intros H. apply (H "REQ-1"). now left.
Qed.

(** The Cameo tracker run twice on the same requirements file: the second
    run reads the store the first one saved, creates no record and leaves
    the store as it is. *)
Lemma track_cameo_requirements_twice now now' fs fs1 data nodes out :
  fs CameoTracker.req_file = Holds data ->
  get_or_empty "nodes" data = Ok (JDict nodes) ->
  Dict.is_dict nodes ->
  CameoTracker.track_cameo_requirements now fs = Ok (fs1, out) ->
  exists fs2,
    CameoTracker.track_cameo_requirements now' fs1
    = Ok (fs2, (fst (fst out), 0, 0)) /\
    forall p, fs2 p = fs1 p.
Proof.
  intros Hreq Hnodes Hd Hrun.
  destruct (VersionStorage.load (fs CameoTracker.version_file))
    as [previous_versions|e] eqn:Hload.
  - rewrite (@track_cameo_requirements_run now fs data nodes
               previous_versions Hreq Hnodes Hload) in Hrun.
    injection Hrun as <- <-. simpl fst.
    set (c := CameoTracker.loop now previous_versions nodes).
    set (fs1 := VersionStorage.save CameoTracker.version_file
                  (CameoTracker.current_versions c) fs).
    assert (fs1 CameoTracker.req_file = Holds data) as Hreq1
        by (unfold fs1, VersionStorage.save, write_json; exact Hreq).
    assert (VersionStorage.load (fs1 CameoTracker.version_file)
            = Ok (CameoTracker.current_versions c)) as Hload1.
    { unfold fs1, VersionStorage.save, write_json.
      rewrite String.eqb_refl. apply load_document. }
    rewrite (@track_cameo_requirements_run now' fs1 data nodes
               (CameoTracker.current_versions c) Hreq1 Hnodes Hload1).
    destruct (tracker_rerun_cameo now now' previous_versions Hd)
      as [H1 [H2 H3]].
    fold c in H1, H2, H3. rewrite H1, H2, H3.
    eexists. split; [reflexivity|].
    intros p. unfold VersionStorage.save, write_json.
    destruct (String.eqb_spec p CameoTracker.version_file) as [->|_];
      [|reflexivity].
    unfold fs1, VersionStorage.save, write_json.
    now rewrite String.eqb_refl.
  - rewrite (@track_cameo_requirements_raises now fs data (JDict nodes) e
               Hreq Hnodes Hload) in Hrun. discriminate.
Qed.

(* ================================================================== *)
(** * The batch merge *)
(* ================================================================== *)

(** The nodes a result contributes to the merge: those of its output
    file, none when the file does not exist. *)
Definition file_nodes (fs : filesystem) (r : BatchProcessor.file_result)
  : result (Dict.t json) :=
  let json_file := fs (BatchProcessor.output_file r) in
  if exists_ json_file then
    data <- json_load json_file ;;
    nodes <- get_or_empty "nodes" data ;;
    as_dict nodes
  else Ok [].

Lemma merge_file_nodes fs merged stem r :
  BatchProcessor.merge_file fs merged (stem, r) =
  (items <- file_nodes fs r ;;
   for_each (BatchProcessor.merge_node stem) items merged)%result.
Proof.
  unfold BatchProcessor.merge_file, file_nodes.
  destruct (exists_ (fs (BatchProcessor.output_file r))); [|reflexivity].
  destruct (json_load _) as [data|]; [|reflexivity]. simpl.
  destruct (get_or_empty "nodes" data) as [nodes|]; [|reflexivity]. simpl.
  now destruct (as_dict nodes).
Qed.

(** Merging the nodes of one file: an id the file does not have keeps
    what was merged before. *)
Lemma merge_nodes_frame stem items : forall merged merged' id,
  for_each (BatchProcessor.merge_node stem) items merged = Ok merged' ->
  ~ In id (Dict.keys items) ->
  Dict.get id merged' = Dict.get id merged.
Proof.
  induction items as [|[k v] items IH]; intros merged merged' id Hrun Hid.
  - now injection Hrun as <-.
  - simpl in Hrun.
    destruct (BatchProcessor.set_source_file stem v) as [v'|];
      [|discriminate]. simpl in Hrun.
    rewrite (IH _ _ id Hrun) by (intros H; apply Hid; now right).
    apply get_set_other. intros ->. apply Hid. now left.
Qed.

(** An id the file has ends up with the content of the file, its
    [source_file] set to the stem of the file. *)
Lemma merge_nodes_wins stem items : forall merged merged' id d,
  for_each (BatchProcessor.merge_node stem) items merged = Ok merged' ->
  Dict.is_dict items ->
  In (id, JDict d) items ->
  Dict.get id merged' =
  Some (JDict (Dict.set "source_file" (JStr stem) d)).
Proof.
  unfold Dict.is_dict.
  induction items as [|[k v] items IH];
    intros merged merged' id d Hrun Hnd Hin; [destruct Hin|].
  simpl in Hrun, Hnd. inversion Hnd as [|? ? Hnotin Hnd']; subst.
  destruct (BatchProcessor.set_source_file stem v) as [v'|] eqn:Hv;
    [|discriminate]. simpl in Hrun.
  destruct Hin as [[= -> ->]|Hin].
  - rewrite (@merge_nodes_frame stem items _ merged' id Hrun Hnotin).
    simpl in Hv. injection Hv as <-. apply get_set_same.
  - now apply (IH _ _ id d Hrun Hnd').
Qed.

(** The files merged after a given one do not have the id. *)
Definition absent_later (fs : filesystem) (id : string)
           (later : Dict.t BatchProcessor.file_result) : Prop :=
  Forall (fun entry =>
            forall items, file_nodes fs (snd entry) = Ok items ->
                          ~ In id (Dict.keys items)) later.

Lemma merge_files_frame fs id later : forall merged merged',
  for_each (BatchProcessor.merge_file fs) later merged = Ok merged' ->
  absent_later fs id later ->
  Dict.get id merged' = Dict.get id merged.
Proof.
  induction later as [|[stem r] later IH]; intros merged merged' Hrun Habs.
  - now injection Hrun as <-.
  - cbn [for_each] in Hrun. rewrite merge_file_nodes in Hrun.
    inversion Habs as [|? ? Hhere Hlater]; subst. simpl in Hhere.
    destruct (file_nodes fs r) as [items|]; [|discriminate].
    simpl in Hrun.
    destruct (for_each (BatchProcessor.merge_node stem) items merged)
      as [merged1|] eqn:Hone; [|discriminate]. simpl in Hrun.
    rewrite (IH _ _ Hrun Hlater).
    exact (@merge_nodes_frame stem items merged merged1 id Hone
             (Hhere items eq_refl)).
Qed.

(** C5, as the code has it.  When a file of the batch has a node id, and
    no file merged after it has that id, the merged nodes map holds the
    content of that file under the id, with [source_file] set to the stem
    of the file, whatever the files merged before it held under the id.
    The merge assigns to no attribute of the processor and writes the
    merged document only: the summary, in memory and on disk, is what it
    was before the merge. *)
Theorem later_file_wins_summary_untouched
        (self : BatchProcessor.processor) (fs : filesystem)
        (earlier later : Dict.t BatchProcessor.file_result)
        (stem : string) (r : BatchProcessor.file_result)
        (items : Dict.t json) (id : string) (d : Dict.t json)
        (output_file : string) :
  BatchProcessor.results self = earlier ++ (stem, r) :: later ->
  file_nodes fs r = Ok items ->
  Dict.is_dict items ->
  In (id, JDict d) items ->
  absent_later fs id later ->
  forall self' fs',
    BatchProcessor.merge_all_requirements output_file self fs
    = Ok (self', fs') ->
    (exists merged,
       fs' (BatchProcessor.path_in (BatchProcessor.output_dir self)
                                   output_file)
       = Holds (JDict [("nodes", JDict merged)]) /\
       Dict.get id merged
       = Some (JDict (Dict.set "source_file" (JStr stem) d))) /\
    self' = self /\
    BatchProcessor.summary self' = BatchProcessor.summary self /\
    (BatchProcessor.path_in (BatchProcessor.output_dir self) output_file
     <> BatchProcessor.summary_path self ->
     fs' (BatchProcessor.summary_path self)
     = fs (BatchProcessor.summary_path self)).
Proof.
  intros Hres Hnodes Hd Hin Habs self' fs' Hrun.
  unfold BatchProcessor.merge_all_requirements in Hrun.
  destruct (BatchProcessor.merged_nodes self fs) as [merged|] eqn:Hm;
    [|discriminate].
  simpl in Hrun. injection Hrun as <- <-.
  split; [|split; [reflexivity|split; [reflexivity|]]].
  - exists merged. split.
    + unfold write_json. now rewrite String.eqb_refl.
    + unfold BatchProcessor.merged_nodes in Hm.
      rewrite Hres, for_each_app in Hm.
      destruct (for_each (BatchProcessor.merge_file fs) earlier [])
        as [m0|]; [|discriminate].
      cbn [bind for_each] in Hm. rewrite merge_file_nodes, Hnodes in Hm.
      cbn [bind] in Hm.
      destruct (for_each (BatchProcessor.merge_node stem) items m0)
        as [m1|] eqn:Hone; [|discriminate]. simpl in Hm.
      rewrite (@merge_files_frame fs id later m1 merged Hm Habs).
      exact (@merge_nodes_wins stem items m0 m1 id d Hone Hd Hin).
  - intros Hne. unfold write_json.
    destruct (String.eqb_spec (BatchProcessor.summary_path self)
                (BatchProcessor.path_in (BatchProcessor.output_dir self)
                                        output_file)) as [E|_];
      [now symmetry in E|reflexivity].
Qed.

(** A batch of two archives that both export a requirement with the id
    [R-1], and the same batch with the second id changed to [R-2]. *)
Module BatchExample.

Definition xmi_id : string := CameoAnalyzer.XMI ++ "id".
Definition xmi_type : string := CameoAnalyzer.XMI ++ "type".

Definition model (internal req_id name text : string) : CameoAnalyzer.mdzip :=
  CameoAnalyzer.ModelEntry
    (CameoAnalyzer.Parsed
       (Element "xmi:XMI" [] None
          [Element "packagedElement"
             [(xmi_id, internal); (xmi_type, "uml:Class"); ("name", name)]
             None [];
           Element "{http://www.omg.org/spec/SysML/20150709}Requirement"
             [("base_Class", internal); ("Id", req_id); ("Text", text)]
             None []])).

Definition archive_a : CameoAnalyzer.mdzip :=
  model "_a1" "R-1" "Braking distance" "Stop within 40 m".
Definition archive_b : CameoAnalyzer.mdzip :=
  model "_b7" "R-1" "Braking distance" "Stop within 35 m".
Definition archive_c : CameoAnalyzer.mdzip :=
  model "_b7" "R-2" "Braking distance" "Stop within 35 m".

Definition colliding : list (string * CameoAnalyzer.mdzip) :=
  [("a", archive_a); ("b", archive_b)].
Definition distinct : list (string * CameoAnalyzer.mdzip) :=
  [("a", archive_a); ("b", archive_c)].

Definition empty : filesystem := fun _ => Missing.

Definition after (batch : list (string * CameoAnalyzer.mdzip))
  : BatchProcessor.processor * filesystem :=
  BatchProcessor.process_all_files batch (BatchProcessor.init "output")
                                   empty.

Definition self : BatchProcessor.processor := fst (after colliding).
Definition fs : filesystem := snd (after colliding).

Definition result_a : BatchProcessor.file_result :=
  Eval vm_compute in
    match BatchProcessor.results self with
    | (_, r) :: _ => r
    | [] => {| BatchProcessor.requirement_count := 0;
               BatchProcessor.element_count := 0;
               BatchProcessor.output_file := EmptyString;
               BatchProcessor.requirement_infos := [] |}
    end.

Definition result_b : BatchProcessor.file_result :=
  Eval vm_compute in
    match BatchProcessor.results self with
    | _ :: (_, r) :: _ => r
    | _ => result_a
    end.

(** What the export of [archive_b] holds under [R-1], without the
    [source_file] the merge adds. *)
Definition node_b : Dict.t json :=
  [("name", JStr "Braking distance");
   ("node_type", JStr "Requirement_General");
   ("text", JStr "Stop within 35 m");
   ("xmi_id", JStr "_b7");
   ("incoming", JList []);
   ("outgoing", JList []);
   ("properties", JDict [])].

Definition merged_path : string :=
  BatchProcessor.path_in "output" "all_requirements.json".

End BatchExample.

Lemma later_file_wins_summary_untouched_witness :
  exists self' fs',
    BatchProcessor.merge_all_requirements "all_requirements.json"
      BatchExample.self BatchExample.fs = Ok (self', fs') /\
    (exists merged,
       fs' BatchExample.merged_path = Holds (JDict [("nodes", JDict merged)])
       /\ Dict.get "R-1" merged
          = Some (JDict (Dict.set "source_file" (JStr "b")
                                  BatchExample.node_b))) /\
    self' = BatchExample.self /\
    BatchProcessor.summary self' = BatchProcessor.summary BatchExample.self /\
    fs' (BatchProcessor.summary_path BatchExample.self)
    = BatchExample.fs (BatchProcessor.summary_path BatchExample.self).
Proof.
  destruct (BatchProcessor.merge_all_requirements "all_requirements.json"
              BatchExample.self BatchExample.fs) as [[self' fs']|e] eqn:Hrun;
    [|vm_compute in Hrun; discriminate].
  exists self', fs'. split; [reflexivity|].
  destruct (@later_file_wins_summary_untouched
              BatchExample.self BatchExample.fs
              [("a", BatchExample.result_a)] [] "b" BatchExample.result_b
              [("R-1", JDict BatchExample.node_b)] "R-1" BatchExample.node_b
              "all_requirements.json"
              eq_refl eq_refl
              (NoDup_cons _ (fun H : In "R-1" [] => H) (NoDup_nil _))
              (or_introl eq_refl) (Forall_nil _) self' fs' Hrun)
    as [Hwins [Hself [Hsum Hdisk]]].
  split; [exact Hwins|]. split; [exact Hself|]. split; [exact Hsum|].
  apply Hdisk. discriminate.
Defined.

(** C5 as stated fails: the two archives both export [R-1], the merged
    map keeps one node under that id, and the summary, in memory and on
    disk, is the one of the batch in which the ids differ: it holds no
    record of the collision. *)
Lemma collision_leaves_no_trace :
  exists p fs q gs merged,
    BatchProcessor.merge_all_requirements "all_requirements.json"
      (fst (BatchExample.after BatchExample.colliding))
      (snd (BatchExample.after BatchExample.colliding)) = Ok (p, fs) /\
    BatchProcessor.merge_all_requirements "all_requirements.json"
      (fst (BatchExample.after BatchExample.distinct))
      (snd (BatchExample.after BatchExample.distinct)) = Ok (q, gs) /\
    fs BatchExample.merged_path = Holds (JDict [("nodes", JDict merged)]) /\
    Dict.keys merged = ["R-1"] /\
    BatchProcessor.summary p = BatchProcessor.summary q /\
    fs (BatchProcessor.summary_path p) = gs (BatchProcessor.summary_path q) /\
    fs (BatchProcessor.summary_path p)
    = Holds (BatchProcessor.summary_document (BatchProcessor.summary p)).
Proof.
  destruct (BatchProcessor.merge_all_requirements "all_requirements.json"
              (fst (BatchExample.after BatchExample.colliding))
              (snd (BatchExample.after BatchExample.colliding)))
    as [[p fs]|e] eqn:H1; [|vm_compute in H1; discriminate].
  destruct (BatchProcessor.merge_all_requirements "all_requirements.json"
              (fst (BatchExample.after BatchExample.distinct))
              (snd (BatchExample.after BatchExample.distinct)))
    as [[q gs]|e] eqn:H2; [|vm_compute in H2; discriminate].
  exists p, fs, q, gs.
  vm_compute in H1, H2. injection H1 as <- <-. injection H2 as <- <-.
  eexists. split; [reflexivity|]. split; [reflexivity|].
  split; [vm_compute; reflexivity|]. vm_compute. now repeat split.
Qed.

(* ================================================================== *)
(** * The requirement extractor *)
(* ================================================================== *)

(** The validity filter in the words of the specification: after trimming,
    longer than two characters, not made of digits only, with or without
    spaces between them, and not one of the punctuation characters. *)
Definition valid_name (name : string) : Prop :=
  2 < String.length (PyStr.strip name) /\
  PyStr.isdigit (PyStr.strip name) = false /\
  PyStr.isdigit (PyStr.remove_char CameoAnalyzer.space (PyStr.strip name))
  = false /\
  ~ In (PyStr.strip name) CameoAnalyzer.punctuation.

Definition all_valid (reqs : Dict.t CameoAnalyzer.Requirement) : Prop :=
  Forall (fun entry => valid_name (CameoAnalyzer.name (snd entry))) reqs.

Lemma existsb_eqb_In s l :
  existsb (String.eqb s) l = true <-> In s l.
Proof.
  rewrite existsb_exists. split.
  - intros [x [Hin Heq]]. apply String.eqb_eq in Heq. now subst.
  - intros Hin. exists s. split; [exact Hin|apply String.eqb_refl].
Qed.

Lemma _is_valid_requirement_name_valid name :
  CameoAnalyzer._is_valid_requirement_name name = true -> valid_name name.
Proof.
  unfold CameoAnalyzer._is_valid_requirement_name, valid_name.
  destruct (negb (CameoAnalyzer.nonempty (Some name))
            || String.eqb name "Unnamed Requirement")%bool; [discriminate|].
  destruct (Nat.leb (String.length (PyStr.strip name)) 2) eqn:Hlen;
    [discriminate|].
  destruct (PyStr.isdigit (PyStr.strip name)); [discriminate|].
  destruct (existsb (String.eqb (PyStr.strip name))
                    CameoAnalyzer.punctuation) eqn:Hp; [discriminate|].
  destruct (PyStr.isdigit (PyStr.remove_char CameoAnalyzer.space
                                             (PyStr.strip name)));
    [discriminate|].
  intros _. apply Nat.leb_gt in Hlen.
  repeat split; [exact Hlen|].
  intros Hin. apply existsb_eqb_In in Hin. congruence.
Qed.

Lemma all_valid_set reqs k r :
  all_valid reqs -> valid_name (CameoAnalyzer.name r) ->
  all_valid (Dict.set k r reqs).
Proof.
  unfold all_valid. intros Hall Hr.
  induction reqs as [|[k' r'] reqs IH]; simpl.
  - constructor; [exact Hr|constructor].
  - inversion Hall; subst.
    destruct (String.eqb k k'); constructor; auto.
Qed.

Lemma _parse_requirement_element_name elem data req :
  CameoAnalyzer._parse_requirement_element elem data = Some req ->
  CameoAnalyzer.name req =
  match CameoAnalyzer.d_name data with
  | Some n => n
  | None => "Unnamed Requirement"
  end.
Proof.
  unfold CameoAnalyzer._parse_requirement_element.
  destruct (match CameoAnalyzer.xmi_id_of elem with
            | Some v => v
            | None => EmptyString
            end); [discriminate|].
  now intros [= <-].
Qed.

Lemma extract_requirement_valid self application :
  all_valid (CameoAnalyzer.requirements self) ->
  all_valid (CameoAnalyzer.requirements
               (CameoAnalyzer.extract_requirement self application)).
Proof.
  intros Hall. destruct application as [xmi_id stereotype].
  unfold CameoAnalyzer.extract_requirement.
  destruct (String.eqb stereotype "Requirement"
            && Dict.mem xmi_id (CameoAnalyzer.elements self))%bool;
    [|exact Hall].
  destruct (Dict.get xmi_id (CameoAnalyzer.elements self)) as [data|];
    [|exact Hall].
  destruct (CameoAnalyzer.d_element data) as [elem|]; [|exact Hall].
  destruct (CameoAnalyzer._is_valid_requirement_name _) eqn:Hvalid;
    [|exact Hall].
  destruct (CameoAnalyzer._parse_requirement_element elem data)
    as [req|] eqn:Hreq; [|exact Hall].
  simpl. apply all_valid_set; [exact Hall|].
  rewrite (_parse_requirement_element_name _ _ Hreq).
  now apply _is_valid_requirement_name_valid.
Qed.

Lemma extract_requirements_fold_valid applications : forall self,
  all_valid (CameoAnalyzer.requirements self) ->
  all_valid (CameoAnalyzer.requirements
               (fold_left CameoAnalyzer.extract_requirement applications
                          self)).
Proof.
  induction applications as [|a l IH]; intros self Hall; [exact Hall|].
  simpl. apply IH. now apply extract_requirement_valid.
Qed.

Lemma _extract_requirements_valid self :
  all_valid (CameoAnalyzer.requirements self) ->
  all_valid (CameoAnalyzer.requirements
               (CameoAnalyzer._extract_requirements self)).
Proof. apply extract_requirements_fold_valid. Qed.

(** The two collecting passes leave the requirements alone. *)
Lemma _collect_stereotype_applications_requirements root self :
  CameoAnalyzer.requirements
    (CameoAnalyzer._collect_stereotype_applications root self)
  = CameoAnalyzer.requirements self.
Proof.
  unfold CameoAnalyzer._collect_stereotype_applications.
  generalize (Xml.iter root). intros l. revert self.
  induction l as [|e l IH]; intros self; [reflexivity|].
  simpl. rewrite IH. unfold CameoAnalyzer.collect_stereotype.
  destruct (_ || _)%bool; [|reflexivity].
  now destruct (CameoAnalyzer.or_ _ _) as [[|? ?]|].
Qed.

Lemma _collect_all_elements_requirements root self :
  CameoAnalyzer.requirements (CameoAnalyzer._collect_all_elements root self)
  = CameoAnalyzer.requirements self.
Proof.
  unfold CameoAnalyzer._collect_all_elements.
  generalize (Xml.iter root). intros l. revert self.
  induction l as [|e l IH]; intros self; [reflexivity|].
  simpl. rewrite IH. unfold CameoAnalyzer.collect_element.
  now destruct (CameoAnalyzer.xmi_id_of e) as [[|? ?]|].
Qed.

(** Relationships append to the lists of a requirement and keep its name. *)
Lemma extract_relationship_valid self elem :
  all_valid (CameoAnalyzer.requirements self) ->
  all_valid (CameoAnalyzer.requirements
               (CameoAnalyzer.extract_relationship self elem)).
Proof.
  intros Hall. unfold CameoAnalyzer.extract_relationship.
  destruct (existsb _ _); [|exact Hall].
  unfold CameoAnalyzer._parse_relationship_element.
  destruct (Xml.get "client" elem) as [[|c client]|]; try exact Hall.
  destruct (Xml.get "supplier" elem) as [[|s supplier]|]; try exact Hall.
  destruct (Dict.get _ (CameoAnalyzer.requirements self)) as [r|] eqn:Hget;
    [|exact Hall].
  simpl. apply all_valid_set; [exact Hall|]. simpl.
  apply get_In in Hget. unfold all_valid in Hall.
  rewrite Forall_forall in Hall. exact (Hall _ Hget).
Qed.

Lemma _extract_relationships_valid root self :
  all_valid (CameoAnalyzer.requirements self) ->
  all_valid (CameoAnalyzer.requirements
               (CameoAnalyzer._extract_relationships root self)).
Proof.
  unfold CameoAnalyzer._extract_relationships.
  generalize (Xml.iter root). intros l. revert self.
  induction l as [|e l IH]; intros self Hall; [exact Hall|].
  simpl. apply IH. now apply extract_relationship_valid.
Qed.

Lemma _resolve_relationships_valid self :
  all_valid (CameoAnalyzer.requirements self) ->
  all_valid (CameoAnalyzer.requirements
               (CameoAnalyzer._resolve_relationships self)).
Proof.
  unfold all_valid, CameoAnalyzer._resolve_relationships. simpl.
  generalize (map CameoAnalyzer.xmi_id
                  (Dict.values (CameoAnalyzer.requirements self))).
  intros ids Hall.
  induction Hall as [|[k r] reqs Hr Hall IH]; simpl; constructor; auto.
Qed.

Lemma extract_and_parse_valid archive self :
  all_valid (CameoAnalyzer.requirements self) ->
  all_valid (CameoAnalyzer.requirements
               (CameoAnalyzer.extract_and_parse archive self)).
Proof.
  intros Hall. destruct archive as [| | |[|root]]; try exact Hall.
  - now apply _resolve_relationships_valid.
  - simpl. apply _resolve_relationships_valid.
    apply _extract_relationships_valid, _extract_requirements_valid.
    now rewrite _collect_all_elements_requirements,
      _collect_stereotype_applications_requirements.
Qed.

(** C9.  Every requirement the extractor stores, whatever the archive, has
    a name that passes the validity filter; an element whose name does
    not pass is stored by no step of the extraction. *)
Theorem stored_requirements_have_valid_names
        (archive : CameoAnalyzer.mdzip) :
  Forall (fun entry => valid_name (CameoAnalyzer.name (snd entry)))
         (CameoAnalyzer.requirements
            (CameoAnalyzer.extract_and_parse archive CameoAnalyzer.init)) /\
  forall self application,
    all_valid (CameoAnalyzer.requirements self) ->
    all_valid (CameoAnalyzer.requirements
                 (CameoAnalyzer.extract_requirement self application)).
Proof.
  split.
  - apply extract_and_parse_valid. constructor.
  - intros. now apply extract_requirement_valid.
Qed.

(* ================================================================== *)
(** * The stereotype collector *)
(* ================================================================== *)

Definition only_requirement (index : Dict.t string) : Prop :=
  forall k v, Dict.get k index = Some v -> v = "Requirement".

Lemma collect_stereotype_only_requirement self elem :
  only_requirement (CameoAnalyzer.stereotype_applications self) ->
  only_requirement
    (CameoAnalyzer.stereotype_applications
       (CameoAnalyzer.collect_stereotype self elem)).
Proof.
  intros Hinv. unfold CameoAnalyzer.collect_stereotype.
  destruct (_ || _)%bool; [|exact Hinv].
  destruct (CameoAnalyzer.or_ _ _) as [[|c base]|]; try exact Hinv.
  simpl. intros k v.
  destruct (string_dec k (String c base)) as [->|Hne].
  - rewrite get_set_same. now intros [= <-].
  - rewrite get_set_other by assumption. apply Hinv.
Qed.

(** The index the collector builds maps every id to ['Requirement']: no
    other stereotype name is ever stored. *)
Lemma stereotype_index_only_requirement root :
  only_requirement
    (CameoAnalyzer.stereotype_applications
       (CameoAnalyzer._collect_stereotype_applications
          root CameoAnalyzer.init)).
Proof.
  unfold CameoAnalyzer._collect_stereotype_applications.
  assert (only_requirement
            (CameoAnalyzer.stereotype_applications CameoAnalyzer.init))
    as Hinit by (intros k v [=]).
  revert Hinit. generalize CameoAnalyzer.init, (Xml.iter root).
  intros self l. revert self.
  induction l as [|e l IH]; intros self Hinv; [exact Hinv|].
  simpl. apply IH. now apply collect_stereotype_only_requirement.
Qed.

(** The base element the collector reads on an element. *)
Definition base_of (elem : element) : option string :=
  CameoAnalyzer.or_ (Xml.get "base_Class" elem)
    (CameoAnalyzer.or_ (Xml.get "base_Element" elem)
       (Xml.get (CameoAnalyzer.UML ++ "base_Class") elem)).

Lemma collect_stereotype_keeps self elem k :
  Dict.get k (CameoAnalyzer.stereotype_applications self)
  = Some "Requirement" ->
  Dict.get k (CameoAnalyzer.stereotype_applications
                (CameoAnalyzer.collect_stereotype self elem))
  = Some "Requirement".
Proof.
  intros Hk. unfold CameoAnalyzer.collect_stereotype.
  destruct (_ || _)%bool; [|exact Hk].
  destruct (CameoAnalyzer.or_ _ _) as [[|c base]|]; try exact Hk.
  simpl. destruct (string_dec k (String c base)) as [->|Hne].
  - apply get_set_same.
  - now rewrite get_set_other.
Qed.

(** For the keyword [Requirement] the claim holds: an element whose tag or
    type contains it and that names a base element is indexed under that
    base element. *)
Lemma requirement_stereotype_is_indexed root elem base :
  In elem (Xml.iter root) ->
  (PyStr.contains "Requirement" (Xml.tag elem)
   || PyStr.contains "Requirement" (CameoAnalyzer.xmi_type_of elem))%bool
  = true ->
  base_of elem = Some base -> base <> EmptyString ->
  Dict.get base
    (CameoAnalyzer.stereotype_applications
       (CameoAnalyzer._collect_stereotype_applications
          root CameoAnalyzer.init))
  = Some "Requirement".
Proof.
  intros Hin Hkw Hbase Hne.
  unfold CameoAnalyzer._collect_stereotype_applications.
  generalize CameoAnalyzer.init. revert Hin. generalize (Xml.iter root).
  intros l. induction l as [|e l IH]; intros Hin self; [destruct Hin|].
  simpl. destruct Hin as [->|Hin]; [|now apply IH].
  assert (Dict.get base
            (CameoAnalyzer.stereotype_applications
               (CameoAnalyzer.collect_stereotype self elem))
          = Some "Requirement") as Hnow.
  { unfold CameoAnalyzer.collect_stereotype. rewrite Hkw.
    fold (base_of elem). rewrite Hbase.
    destruct base as [|c base]; [contradiction|]. simpl.
    apply get_set_same. }
  revert Hnow. generalize (CameoAnalyzer.collect_stereotype self elem).
  clear. induction l as [|e l IH]; intros self Hk; [exact Hk|].
  simpl. apply IH. now apply collect_stereotype_keeps.
Qed.

(** A model with two requirement stereotypes and a [DeriveReqt] stereotype
    applied to the abstraction [_d1] between the two requirements. *)
Module StereotypeExample.

Definition xmi_id : string := CameoAnalyzer.XMI ++ "id".
Definition xmi_type : string := CameoAnalyzer.XMI ++ "type".
Definition sysml : string := "{http://www.omg.org/spec/SysML/20150709}".

Definition abstraction : element :=
  Element "packagedElement"
    [(xmi_id, "_d1"); (xmi_type, "uml:Abstraction");
     ("client", "_r1"); ("supplier", "_r2")] None [].

Definition derive : element :=
  Element (sysml ++ "DeriveReqt") [("base_Element", "_d1")] None [].

Definition root : element :=
  Element "xmi:XMI" [] None
    [Element "packagedElement"
       [(xmi_id, "_r1"); (xmi_type, "uml:Class");
        ("name", "Braking distance")] None [];
     Element "packagedElement"
       [(xmi_id, "_r2"); (xmi_type, "uml:Class");
        ("name", "Stopping time")] None [];
     Element "packagedElement"
       [(xmi_id, "_r3"); (xmi_type, "uml:Class"); ("name", " 1 2 ")]
       None [];
     abstraction;
     Element (sysml ++ "Requirement")
       [("base_Class", "_r1"); ("Id", "R-1")] None [];
     Element (sysml ++ "Requirement")
       [("base_Class", "_r2"); ("Id", "R-2")] None [];
     Element (sysml ++ "Requirement")
       [("base_Class", "_r3"); ("Id", "R-3")] None [];
     derive].

Definition parsed : CameoAnalyzer.analyzer :=
  CameoAnalyzer._parse_xmi_content (CameoAnalyzer.Parsed root)
                                   CameoAnalyzer.init.

(** The two requirements with a valid name are stored, the one named
    [" 1 2 "] is not. *)
Example valid_names_are_stored :
  Dict.keys (CameoAnalyzer.requirements parsed) = ["_r1"; "_r2"].
Proof. reflexivity. Qed.

End StereotypeExample.

(** C3 fails on the code.  The collector tests for the keyword
    [Requirement] alone: the [DeriveReqt] stereotype, whose tag contains
    [Derive] and which names the base element [_d1], gets no entry in the
    index, and the abstraction [_d1] is classified as a trace, not as a
    derivation.  Every value of the index is ['Requirement'], so the test
    of [_determine_relationship_type] on the stereotype never succeeds. *)
Theorem derive_stereotype_is_not_indexed :
  let self :=
    CameoAnalyzer._collect_stereotype_applications
      StereotypeExample.root CameoAnalyzer.init in
  PyStr.contains "Derive" (Xml.tag StereotypeExample.derive) = true /\
  base_of StereotypeExample.derive = Some "_d1" /\
  Dict.get "_d1" (CameoAnalyzer.stereotype_applications self) = None /\
  CameoAnalyzer.stereotype_applications self
  = [("_r1", "Requirement"); ("_r2", "Requirement");
     ("_r3", "Requirement")] /\
  CameoAnalyzer._determine_relationship_type
    StereotypeExample.parsed StereotypeExample.abstraction "uml:Abstraction"
  = "traces" /\
  option_map CameoAnalyzer.traces_to
    (Dict.get "_r1" (CameoAnalyzer.requirements StereotypeExample.parsed))
  = Some ["_r2"] /\
  option_map CameoAnalyzer.derives_from
    (Dict.get "_r1" (CameoAnalyzer.requirements StereotypeExample.parsed))
  = Some [].
Proof. vm_compute. repeat split. Qed.

(* ================================================================== *)
(** * Lines and branches *)
(* ================================================================== *)

(** ** Endpoints *)



Lemma span_app p s a b :
  PyStr.span p s = (a, b) ->
  s = (a ++ b)%string /\
  forallb p (list_ascii_of_string a) = true /\
  match b with String c _ => p c = false | EmptyString => True end.
Proof.
  revert a b. induction s as [|c s IH]; intros a b; cbn [PyStr.span].
  - intros [= <- <-]. now repeat split.
  - destruct (p c) eqn:Hc.
    + destruct (PyStr.span p s) as [a' b'] eqn:Hs. intros [= <- <-].
      destruct (IH a' b' eq_refl) as [-> [Ha Hb]].
      cbn [append list_ascii_of_string forallb]. rewrite Hc.
      now repeat split.
    + intros [= <- <-]. now repeat split.
Qed.



Lemma drop_prefix_inv p s r :
  PyStr.drop_prefix p s = Some r -> s = (p ++ r)%string.
Proof.
  revert s. induction p as [|c p IH]; intros s; simpl.
  - now intros [= ->].
  - destruct s as [|d s]; [discriminate|].
    destruct (Ascii.eqb_spec c d) as [->|_]; [|discriminate].
    intros H. now rewrite (IH _ H).
Qed.







(** ** Lines *)






Module LineExample.

Definition P (name value : string) : element :=
  Element "P" [("Name", name)] (Some value) [].

Definition branch (dst : string) : element :=
  Element "Branch" [] None [P "ZOrder" "3"; P "Dst" dst].

(** A source, no destination of its own, two branches. *)
Definition line : element :=
  Element "Line" [] None
    [P "ZOrder" "1"; P "Src" "10#out:1";
     branch "20#in:1"; branch "30#in:1"].


End LineExample.


(* ================================================================== *)
(** * Code mappings *)
(* ================================================================== *)

Lemma key_eqb_eq a b : SlxcAnalyzer.key_eqb a b = true <-> a = b.
Proof.
  unfold SlxcAnalyzer.key_eqb. destruct a as [a1 a2], b as [b1 b2]. simpl.
  rewrite andb_true_iff, !String.eqb_eq. split.
  - now intros [-> ->].
  - now intros [= -> ->].
Qed.

Lemma key_eqb_refl a : SlxcAnalyzer.key_eqb a a = true.
Proof. now apply key_eqb_eq. Qed.

Lemma key_eqb_neq a b : a <> b -> SlxcAnalyzer.key_eqb a b = false.
Proof.
  intros Hne. destruct (SlxcAnalyzer.key_eqb a b) eqn:E; [|reflexivity].
  now apply key_eqb_eq in E.
Qed.

Lemma get_location_add_same k ref d :
  SlxcAnalyzer.get_location k (SlxcAnalyzer.add_reference k ref d) =
  Some (match SlxcAnalyzer.get_location k d with
        | Some refs => refs ++ [ref]
        | None => [ref]
        end).
Proof.
  induction d as [|[k' refs] d IH]; simpl.
  - now rewrite key_eqb_refl.
  - destruct (SlxcAnalyzer.key_eqb k k') eqn:E; simpl; now rewrite E.
Qed.

Lemma get_location_add_other k k' ref d :
  k' <> k ->
  SlxcAnalyzer.get_location k' (SlxcAnalyzer.add_reference k ref d) =
  SlxcAnalyzer.get_location k' d.
Proof.
  intros Hne. induction d as [|[k0 refs] d IH]; simpl.
  - now rewrite key_eqb_neq.
  - destruct (SlxcAnalyzer.key_eqb k k0) eqn:E; simpl.
    + apply key_eqb_eq in E as ->. now rewrite key_eqb_neq.
    + now rewrite IH.
Qed.

Lemma add_reference_keys k ref d :
  map fst (SlxcAnalyzer.add_reference k ref d) =
  match SlxcAnalyzer.get_location k d with
  | Some _ => map fst d
  | None => map fst d ++ [k]
  end.
Proof.
  induction d as [|[k' refs] d IH]; simpl; [reflexivity|].
  destruct (SlxcAnalyzer.key_eqb k k') eqn:E; simpl; [reflexivity|].
  rewrite IH. now destruct (SlxcAnalyzer.get_location k d).
Qed.

Lemma get_location_None k d :
  SlxcAnalyzer.get_location k d = None -> ~ In k (map fst d).
Proof.
  induction d as [|[k' refs] d IH]; simpl; [tauto|].
  destruct (SlxcAnalyzer.key_eqb k k') eqn:E; [discriminate|].
  intros H [Heq|Hin]; [|now apply IH].
  subst. now rewrite key_eqb_refl in E.
Qed.

Definition key_of (m : SlxcAnalyzer.CodeMapping) : SlxcAnalyzer.location_key :=
  (SlxcAnalyzer.file_path m, SlxcAnalyzer.block_path m).

Definition group_step (by_location : list (SlxcAnalyzer.location_key
                                           * list json))
           (m : SlxcAnalyzer.CodeMapping) :=
  SlxcAnalyzer.add_reference (key_of m) (SlxcAnalyzer.reference m)
                             by_location.

(** The entry of a key holds the references of the mappings with that
    key, all of them and in their order, and each key has one entry. *)
Lemma group_fold mappings : forall acc,
  NoDup (map fst acc) ->
  NoDup (map fst (fold_left group_step mappings acc)) /\
  forall k,
    SlxcAnalyzer.get_location k (fold_left group_step mappings acc) =
    match SlxcAnalyzer.get_location k acc,
          filter (fun m => SlxcAnalyzer.key_eqb (key_of m) k) mappings with
    | None, [] => None
    | None, l => Some (map SlxcAnalyzer.reference l)
    | Some refs, l => Some (refs ++ map SlxcAnalyzer.reference l)
    end.
Proof.
  induction mappings as [|m mappings IH]; intros acc Hnd.
  - split; [exact Hnd|]. intros k. simpl.
    destruct (SlxcAnalyzer.get_location k acc); [|reflexivity].
    now rewrite app_nil_r.
  - simpl fold_left.
    assert (NoDup (map fst (group_step acc m))) as Hnd'.
    { unfold group_step. rewrite add_reference_keys.
      destruct (SlxcAnalyzer.get_location (key_of m) acc) eqn:E;
        [exact Hnd|].
      apply NoDup_app; [exact Hnd|repeat constructor; intros []|].
      intros x Hx [<-|[]]. now apply get_location_None in E. }
    destruct (IH _ Hnd') as [Hn Hget]. split; [exact Hn|].
    intros k. rewrite Hget. simpl filter. unfold group_step at 1.
    destruct (SlxcAnalyzer.key_eqb (key_of m) k) eqn:E.
    + apply key_eqb_eq in E as <-. rewrite get_location_add_same.
      destruct (SlxcAnalyzer.get_location (key_of m) acc); simpl.
      * now rewrite <- app_assoc.
      * reflexivity.
    + rewrite get_location_add_other
        by (intros ->; now rewrite key_eqb_refl in E).
      reflexivity.
Qed.

Lemma group_is_fold mappings :
  SlxcAnalyzer.group mappings = fold_left group_step mappings [].
Proof. reflexivity. Qed.



(** ** The lines of a file *)

Lemma enumerate_In {A} (l : list A) : forall start i x,
  In (i, x) (SlxcAnalyzer.enumerate start l) <->
  exists n, nth_error l n = Some x /\ i = (start + Z.of_nat n)%Z.
Proof.
  induction l as [|y l IH]; intros start i x; simpl.
  - split; [intros []|]. intros [[|n] [H _]]; discriminate.
  - rewrite IH. split.
    + intros [[= <- <-]|[n [Hn ->]]].
      * exists 0. split; [reflexivity|lia].
      * exists (S n). split; [exact Hn|lia].
    + intros [[|n] [Hn ->]].
      * left. simpl in Hn. injection Hn as <-. f_equal. lia.
      * right. exists n. split; [exact Hn|lia].
Qed.


(** ** The last segment of a block path *)









(** Line 42 of [foo.c] holds an indented comment with the token of
    [<S1>/K]. *)
Module CodeExample.

Fixpoint newlines (n : nat) : string :=
  match n with
  | O => EmptyString
  | S k => String SlxcAnalyzer.newline (newlines k)
  end.

Definition line : string := "  /* Gain: '<S1>/K' */".

Definition content : string := newlines 41 ++ line.

Definition c_files : Dict.t string := [("foo.c", content)].


End CodeExample.



(* ================================================================== *)
(** * Hierarchy inference *)
(* ================================================================== *)

(** ** One conditional append *)

(** [s in nodes[node_id][key]] holds. *)
Definition includes (nodes : Dict.t json) (node_id key s : string) : Prop :=
  exists node entries,
    Dict.get node_id nodes = Some node /\
    Hierarchy.item key node = Ok entries /\
    Hierarchy.py_in s entries = Ok true.

Lemma item_set_same key v d :
  Hierarchy.item key (JDict (Dict.set key v d)) = Ok v.
Proof. unfold Hierarchy.item. now rewrite get_set_same. Qed.

Lemma item_set_other key key' v d :
  key' <> key ->
  Hierarchy.item key' (JDict (Dict.set key v d))
  = Hierarchy.item key' (JDict d).
Proof. intros H. unfold Hierarchy.item. now rewrite get_set_other. Qed.

Lemma item_dict key node v :
  Hierarchy.item key node = Ok v -> exists d, node = JDict d.
Proof. destruct node; try discriminate. intros _. now eexists. Qed.

(** What a successful [add_if_absent] did. *)
Lemma add_if_absent_inv node_id key s nodes nodes' added :
  Hierarchy.add_if_absent node_id key s nodes = Ok (nodes', added) ->
  exists d entries,
    Dict.get node_id nodes = Some (JDict d) /\
    Hierarchy.item key (JDict d) = Ok entries /\
    ((Hierarchy.py_in s entries = Ok true /\ nodes' = nodes /\ added = false)
     \/
     (exists l,
        entries = JList l /\
        Hierarchy.py_in s entries = Ok false /\
        nodes' = Dict.set node_id
                   (JDict (Dict.set key (JList (l ++ [JStr s])) d)) nodes /\
        added = true)).
Proof.
  unfold Hierarchy.add_if_absent, Hierarchy.nodes_item.
  destruct (Dict.get node_id nodes) as [node|] eqn:Hget; [|discriminate].
  cbn [bind].
  destruct (Hierarchy.item key node) as [entries|] eqn:Hitem; [|discriminate].
  destruct (item_dict _ _ Hitem) as [d ->].
  cbn [bind].
  destruct (Hierarchy.py_in s entries) as [[|]|] eqn:Hin; try discriminate;
    cbn [bind].
  - intros [= <- <-]. exists d, entries.
    split; [reflexivity|]. split; [exact Hitem|]. left. now repeat split.
  - destruct entries as [| | | |l|]; try discriminate.
    cbn [Hierarchy.append bind]. unfold Hierarchy.store. rewrite Hget.
    intros [= <- <-]. exists d, (JList l).
    split; [reflexivity|]. split; [exact Hitem|]. right.
    exists l. now repeat split.
Qed.

Lemma eq_str_existsb_app s l :
  existsb (fun y => eq_str y s) (l ++ [JStr s]) = true.
Proof.
  rewrite existsb_app. simpl. rewrite String.eqb_refl.
  now rewrite orb_true_r.
Qed.

(** After the call the entry is there. *)
Lemma add_if_absent_includes node_id key s nodes nodes' added :
  Hierarchy.add_if_absent node_id key s nodes = Ok (nodes', added) ->
  includes nodes' node_id key s.
Proof.
  intros H. apply add_if_absent_inv in H
    as [d [entries [Hget [Hitem [[Hin [-> _]]|[l [-> [_ [-> _]]]]]]]]].
  - now exists (JDict d), entries.
  - eexists. eexists. split; [apply get_set_same|].
    split; [apply item_set_same|]. simpl. f_equal.
    apply eq_str_existsb_app.
Qed.

(** An entry that is there makes the call do nothing. *)
Lemma includes_add_if_absent node_id key s nodes :
  includes nodes node_id key s ->
  Hierarchy.add_if_absent node_id key s nodes = Ok (nodes, false).
Proof.
  intros [node [entries [Hget [Hitem Hin]]]].
  unfold Hierarchy.add_if_absent, Hierarchy.nodes_item.
  rewrite Hget. cbn [bind]. rewrite Hitem. cbn [bind]. now rewrite Hin.
Qed.

(** A call keeps the entries that are there, and the ids of the map. *)
Lemma add_if_absent_keeps node_id key s nodes nodes' added id key' s' :
  Hierarchy.add_if_absent node_id key s nodes = Ok (nodes', added) ->
  includes nodes id key' s' -> includes nodes' id key' s'.
Proof.
  intros H [node [entries [Hget [Hitem Hin]]]].
  apply add_if_absent_inv in H
    as [d [entries0 [Hget0 [Hitem0 [[_ [-> _]]|[l [-> [_ [-> _]]]]]]]]].
  - now exists node, entries.
  - destruct (string_dec id node_id) as [->|Hid].
    + rewrite Hget0 in Hget. injection Hget as <-.
      destruct (string_dec key' key) as [->|Hkey].
      * eexists. eexists. split; [apply get_set_same|].
        split; [apply item_set_same|].
        rewrite Hitem0 in Hitem. injection Hitem as <-.
        simpl in Hin |- *. injection Hin as Hin. f_equal.
        rewrite existsb_app, Hin. reflexivity.
      * eexists. exists entries. split; [apply get_set_same|].
        split; [rewrite item_set_other by assumption; exact Hitem|].
        exact Hin.
    + exists node, entries. now rewrite get_set_other.
Qed.

Lemma add_if_absent_keys node_id key s nodes nodes' added :
  Hierarchy.add_if_absent node_id key s nodes = Ok (nodes', added) ->
  Dict.keys nodes' = Dict.keys nodes.
Proof.
  intros H. apply add_if_absent_inv in H
    as [d [entries [Hget [_ [[_ [-> _]]|[l [_ [_ [-> _]]]]]]]]];
    [reflexivity|].
  apply keys_set_present. apply get_In in Hget.
  change node_id with (fst (node_id, JDict d)). now apply in_map.
Qed.

Lemma mem_keys {V W} (a : Dict.t V) (b : Dict.t W) k :
  Dict.keys a = Dict.keys b -> Dict.mem k a = Dict.mem k b.
Proof.
  intros Hk.
  destruct (Dict.mem k a) eqn:Ha, (Dict.mem k b) eqn:Hb; try reflexivity.
  - apply mem_In in Ha. rewrite Hk in Ha. apply mem_In in Ha. congruence.
  - apply mem_In in Hb. rewrite <- Hk in Hb. apply mem_In in Hb. congruence.
Qed.

(** A call on one key leaves the value under another key of every node. *)
Lemma add_if_absent_other_key node_id key s nodes nodes' added id key' :
  Hierarchy.add_if_absent node_id key s nodes = Ok (nodes', added) ->
  key' <> key ->
  option_map (Hierarchy.item key') (Dict.get id nodes')
  = option_map (Hierarchy.item key') (Dict.get id nodes).
Proof.
  intros H Hkey. apply add_if_absent_inv in H
    as [d [entries [Hget [_ [[_ [-> _]]|[l [_ [_ [-> _]]]]]]]]];
    [reflexivity|].
  destruct (string_dec id node_id) as [->|Hid].
  - rewrite get_set_same, Hget. cbn [option_map].
    now rewrite item_set_other.
  - now rewrite get_set_other.
Qed.

(** A call on one node leaves the other nodes. *)
Lemma add_if_absent_other_node node_id key s nodes nodes' added id :
  Hierarchy.add_if_absent node_id key s nodes = Ok (nodes', added) ->
  id <> node_id ->
  Dict.get id nodes' = Dict.get id nodes.
Proof.
  intros H Hid. apply add_if_absent_inv in H
    as [d [entries [Hget [_ [[_ [-> _]]|[l [_ [_ [-> _]]]]]]]]];
    [reflexivity|].
  now rewrite get_set_other.
Qed.

(** ** One id *)

(** The candidate parent of an id: what stands before its last dot. *)
Definition parent_of (req_id : string) : option string :=
  if PyStr.has_char Hierarchy.dot req_id then
    match PyStr.rsplit1 Hierarchy.dot req_id with
    | [parent_id; _] => Some parent_id
    | _ => None
    end
  else None.

Lemma loop_body_parent nodes count req_id :
  Hierarchy.loop_body (nodes, count) req_id =
  match parent_of req_id with
  | Some parent_id =>
      if Dict.mem parent_id nodes then
        ('(nodes1, added) <- Hierarchy.add_if_absent req_id "incoming"
                               parent_id nodes ;;
         '(nodes2, _) <- Hierarchy.add_if_absent parent_id "outgoing"
                           req_id nodes1 ;;
         Ok (nodes2, if added then S count else count))%result
      else Ok (nodes, count)
  | None => Ok (nodes, count)
  end.
Proof.
  unfold Hierarchy.loop_body, parent_of.
  destruct (PyStr.has_char Hierarchy.dot req_id); [|reflexivity]. simpl.
  now destruct (PyStr.rsplit1 Hierarchy.dot req_id) as [|a [|b [|? ?]]].
Qed.

(** Nothing is left to add for the id. *)
Definition settled (nodes : Dict.t json) (req_id : string) : Prop :=
  match parent_of req_id with
  | Some parent_id =>
      Dict.mem parent_id nodes = true ->
      includes nodes req_id "incoming" parent_id /\
      includes nodes parent_id "outgoing" req_id
  | None => True
  end.

Lemma settled_step nodes count req_id :
  settled nodes req_id ->
  Hierarchy.loop_body (nodes, count) req_id = Ok (nodes, count).
Proof.
  unfold settled. rewrite loop_body_parent.
  destruct (parent_of req_id) as [parent_id|]; [|reflexivity].
  destruct (Dict.mem parent_id nodes); [|reflexivity].
  intros H. destruct (H eq_refl) as [Hin Hout].
  rewrite (includes_add_if_absent Hin). cbn [bind].
  now rewrite (includes_add_if_absent Hout).
Qed.

(** What a successful step did: the two calls, or nothing. *)
Lemma loop_body_inv nodes count req_id nodes' count' :
  Hierarchy.loop_body (nodes, count) req_id = Ok (nodes', count') ->
  (nodes' = nodes /\ count' = count /\
   match parent_of req_id with
   | Some parent_id => Dict.mem parent_id nodes = false
   | None => True
   end) \/
  (exists parent_id nodes1 added added',
     parent_of req_id = Some parent_id /\
     Dict.mem parent_id nodes = true /\
     Hierarchy.add_if_absent req_id "incoming" parent_id nodes
     = Ok (nodes1, added) /\
     Hierarchy.add_if_absent parent_id "outgoing" req_id nodes1
     = Ok (nodes', added') /\
     count' = if added then S count else count).
Proof.
  rewrite loop_body_parent.
  destruct (parent_of req_id) as [parent_id|];
    [|intros [= <- <-]; left; now repeat split].
  destruct (Dict.mem parent_id nodes) eqn:Hmem;
    [|intros [= <- <-]; left; now repeat split].
  destruct (Hierarchy.add_if_absent req_id "incoming" parent_id nodes)
    as [[nodes1 added]|] eqn:H1; [|discriminate]. cbn [bind].
  destruct (Hierarchy.add_if_absent parent_id "outgoing" req_id nodes1)
    as [[nodes2 added']|] eqn:H2; [|discriminate]. cbn [bind].
  intros [= <- <-]. right.
  exists parent_id, nodes1, added, added'. now repeat split.
Qed.

Lemma loop_body_keys nodes count req_id nodes' count' :
  Hierarchy.loop_body (nodes, count) req_id = Ok (nodes', count') ->
  Dict.keys nodes' = Dict.keys nodes.
Proof.
  intros H. apply loop_body_inv in H
    as [[-> _]|[p [n1 [a [a' [_ [_ [H1 [H2 _]]]]]]]]]; [reflexivity|].
  apply add_if_absent_keys in H1, H2. congruence.
Qed.

Lemma loop_body_keeps nodes count req_id nodes' count' id key s :
  Hierarchy.loop_body (nodes, count) req_id = Ok (nodes', count') ->
  includes nodes id key s -> includes nodes' id key s.
Proof.
  intros H Hinc. apply loop_body_inv in H
    as [[-> _]|[p [n1 [a [a' [_ [_ [H1 [H2 _]]]]]]]]]; [exact Hinc|].
  eapply add_if_absent_keeps; [exact H2|].
  eapply add_if_absent_keeps; [exact H1|exact Hinc].
Qed.

Lemma loop_body_settles nodes count req_id nodes' count' :
  Hierarchy.loop_body (nodes, count) req_id = Ok (nodes', count') ->
  settled nodes' req_id.
Proof.
  intros H. unfold settled.
  pose proof H as Hkeys. apply loop_body_keys in Hkeys.
  apply loop_body_inv in H
    as [[-> [_ Hno]]|[p [n1 [a [a' [Hp [_ [H1 [H2 _]]]]]]]]].
  - destruct (parent_of req_id); [|exact I]. intros Hmem. congruence.
  - rewrite Hp. intros _. split.
    + eapply add_if_absent_keeps; [exact H2|].
      eapply add_if_absent_includes; exact H1.
    + eapply add_if_absent_includes; exact H2.
Qed.

Lemma loop_body_preserves nodes count req_id nodes' count' id :
  Hierarchy.loop_body (nodes, count) req_id = Ok (nodes', count') ->
  settled nodes id -> settled nodes' id.
Proof.
  intros H. unfold settled.
  destruct (parent_of id) as [p|]; [|trivial].
  intros Hs Hmem.
  pose proof H as Hkeys. apply loop_body_keys in Hkeys.
  rewrite (mem_keys nodes' nodes p Hkeys) in Hmem.
  destruct (Hs Hmem) as [Hin Hout].
  split; eapply loop_body_keeps; eassumption.
Qed.

(** A step leaves the incoming list of every id without a parent. *)
Lemma loop_body_incoming nodes count req_id nodes' count' id :
  Hierarchy.loop_body (nodes, count) req_id = Ok (nodes', count') ->
  parent_of id = None ->
  option_map (Hierarchy.item "incoming") (Dict.get id nodes')
  = option_map (Hierarchy.item "incoming") (Dict.get id nodes).
Proof.
  intros H Hid. apply loop_body_inv in H
    as [[-> _]|[p [n1 [a [a' [Hp [_ [H1 [H2 _]]]]]]]]]; [reflexivity|].
  erewrite add_if_absent_other_key; [|exact H2|discriminate].
  erewrite add_if_absent_other_node; [reflexivity|exact H1|].
  intros ->. congruence.
Qed.

(** ** The loop *)

Lemma infer_steps ids : forall st st',
  for_each Hierarchy.loop_body ids st = Ok st' ->
  Dict.keys (fst st') = Dict.keys (fst st) /\
  (forall id, settled (fst st) id -> settled (fst st') id) /\
  (forall id, In id ids -> settled (fst st') id) /\
  (forall id, parent_of id = None ->
     option_map (Hierarchy.item "incoming") (Dict.get id (fst st'))
     = option_map (Hierarchy.item "incoming") (Dict.get id (fst st))).
Proof.
  induction ids as [|k ids IH]; intros [nodes count] st' Hrun.
  - injection Hrun as <-. repeat split; auto. intros ? [].
  - cbn [for_each] in Hrun.
    destruct (Hierarchy.loop_body (nodes, count) k) as [[nodes1 count1]|]
      eqn:Hstep; [|discriminate]. cbn [bind] in Hrun.
    destruct (IH _ _ Hrun) as [Hk [Hpres [Hall Hinc]]]. simpl fst in *.
    split; [rewrite Hk; eapply loop_body_keys; exact Hstep|].
    split; [|split].
    + intros id Hs. apply Hpres.
      eapply loop_body_preserves; [exact Hstep|exact Hs].
    + intros id [<-|Hin]; [|now apply Hall].
      apply Hpres. eapply loop_body_settles; exact Hstep.
    + intros id Hid. rewrite (Hinc id Hid).
      eapply loop_body_incoming; [exact Hstep|exact Hid].
Qed.

Lemma settled_run ids : forall nodes count,
  (forall id, In id ids -> settled nodes id) ->
  for_each Hierarchy.loop_body ids (nodes, count) = Ok (nodes, count).
Proof.
  induction ids as [|k ids IH]; intros nodes count Hall; [reflexivity|].
  cbn [for_each]. rewrite settled_step by (apply Hall; now left).
  cbn [bind]. apply IH. intros id Hin. apply Hall. now right.
Qed.

(** Inference applied to its own output adds nothing. *)
Lemma infer_idempotent nodes nodes' added :
  Hierarchy.infer nodes = Ok (nodes', added) ->
  Hierarchy.infer nodes' = Ok (nodes', 0).
Proof.
  unfold Hierarchy.infer. intros Hrun.
  destruct (infer_steps _ _ Hrun) as [Hk [_ [Hall _]]]. simpl fst in *.
  rewrite Hk. now apply settled_run.
Qed.

(** ** Nodes of the canonical shape *)

(** Every node is a dictionary whose [incoming] and [outgoing] are lists,
    as the exports write them. *)
Definition shaped (nodes : Dict.t json) : Prop :=
  forall id node, Dict.get id nodes = Some node ->
    exists d incoming outgoing,
      node = JDict d /\
      Dict.get "incoming" d = Some (JList incoming) /\
      Dict.get "outgoing" d = Some (JList outgoing).

Lemma In_keys_get {V} (d : Dict.t V) k :
  In k (Dict.keys d) -> exists v, Dict.get k d = Some v.
Proof.
  intros Hin. destruct (Dict.get k d) as [v|] eqn:E; [now exists v|].
  now apply get_None in E.
Qed.

Lemma add_if_absent_shaped node_id key s nodes :
  shaped nodes -> In node_id (Dict.keys nodes) ->
  key = "incoming" \/ key = "outgoing" ->
  exists nodes' added,
    Hierarchy.add_if_absent node_id key s nodes = Ok (nodes', added) /\
    shaped nodes'.
Proof.
  intros Hshape Hin Hkey.
  destruct (In_keys_get _ _ Hin) as [node Hget].
  destruct (Hshape _ _ Hget) as [d [inc [out [-> [Hinc Hout]]]]].
  assert (exists l, Dict.get key d = Some (JList l)) as [l Hl]
      by (destruct Hkey as [-> | ->]; eauto).
  unfold Hierarchy.add_if_absent, Hierarchy.nodes_item.
  rewrite Hget. cbn [bind]. unfold Hierarchy.item at 1. rewrite Hl.
  cbn [bind Hierarchy.py_in].
  destruct (existsb (fun y => eq_str y s) l).
  - exists nodes, false. now split.
  - cbn [Hierarchy.append bind]. unfold Hierarchy.store. rewrite Hget.
    eexists. exists true. split; [reflexivity|].
    intros id node. destruct (string_dec id node_id) as [->|Hid].
    + rewrite get_set_same. intros [= <-].
      destruct Hkey as [-> | ->].
      * exists (Dict.set "incoming" (JList (l ++ [JStr s])) d),
          (l ++ [JStr s]), out.
        split; [reflexivity|]. split; [apply get_set_same|].
        rewrite get_set_other by discriminate. exact Hout.
      * exists (Dict.set "outgoing" (JList (l ++ [JStr s])) d),
          inc, (l ++ [JStr s]).
        split; [reflexivity|]. split; [|apply get_set_same].
        rewrite get_set_other by discriminate. exact Hinc.
    + rewrite get_set_other by assumption. apply Hshape.
Qed.

Lemma loop_body_shaped nodes count req_id :
  shaped nodes -> In req_id (Dict.keys nodes) ->
  exists nodes' count',
    Hierarchy.loop_body (nodes, count) req_id = Ok (nodes', count') /\
    shaped nodes'.
Proof.
  intros Hshape Hin. rewrite loop_body_parent.
  destruct (parent_of req_id) as [p|]; [|now exists nodes, count].
  destruct (Dict.mem p nodes) eqn:Hmem; [|now exists nodes, count].
  destruct (@add_if_absent_shaped req_id "incoming" p nodes Hshape Hin
              (or_introl eq_refl)) as [n1 [a [H1 Hs1]]].
  rewrite H1. cbn [bind].
  assert (In p (Dict.keys n1)) as Hp.
  { apply add_if_absent_keys in H1. rewrite H1. now apply mem_In. }
  destruct (@add_if_absent_shaped p "outgoing" req_id n1 Hs1 Hp
              (or_intror eq_refl)) as [n2 [a' [H2 Hs2]]].
  rewrite H2. cbn [bind]. eexists. eexists. now split.
Qed.

Lemma infer_shaped ids : forall nodes count,
  shaped nodes -> incl ids (Dict.keys nodes) ->
  exists nodes' count',
    for_each Hierarchy.loop_body ids (nodes, count) = Ok (nodes', count').
Proof.
  induction ids as [|k ids IH]; intros nodes count Hshape Hsub.
  - now exists nodes, count.
  - cbn [for_each].
    destruct (@loop_body_shaped nodes count k Hshape
                (Hsub k (or_introl eq_refl))) as [n1 [c1 [Hstep Hs1]]].
    rewrite Hstep. cbn [bind]. apply IH; [exact Hs1|].
    apply loop_body_keys in Hstep. rewrite Hstep.
    intros x Hx. apply Hsub. now right.
Qed.

(** On nodes of the canonical shape the inference returns. *)
Lemma infer_total nodes :
  shaped nodes ->
  exists nodes' added, Hierarchy.infer nodes = Ok (nodes', added).
Proof.
  intros Hshape. apply infer_shaped; [exact Hshape|apply incl_refl].
Qed.

Module HierarchyExample.

Definition node (name : string) (incoming outgoing : list string) : json :=
  JDict [("name", JStr name);
         ("node_type", JStr "Requirement_General");
         ("incoming", JList (map JStr incoming));
         ("outgoing", JList (map JStr outgoing))].

Definition nodes : Dict.t json :=
  [("A", node "top" [] []); ("A.1", node "middle" [] []);
   ("A.1.2", node "leaf" [] [])].

Definition inferred : Dict.t json :=
  [("A", node "top" [] ["A.1"]); ("A.1", node "middle" ["A"] ["A.1.2"]);
   ("A.1.2", node "leaf" ["A.1"] [])].

End HierarchyExample.

(** C6.  On the nodes [A], [A.1], [A.1.2] one application puts [A] into
    the incoming list of [A.1] and [A.1] into that of [A.1.2], and leaves
    the incoming list of [A] as it is.  In general, whenever the
    inference returns: it keeps the ids; every id whose candidate parent
    is a node has that parent in its incoming list and is in the outgoing
    list of the parent; the step of an id without a dot does nothing and
    its incoming list is what it was; and a second application to the
    output returns the output and adds no relationship.  On nodes of the
    canonical shape the inference returns. *)
Theorem hierarchy_inference_is_idempotent :
  Hierarchy.infer HierarchyExample.nodes
  = Ok (HierarchyExample.inferred, 2) /\
  (forall nodes nodes' added,
     Hierarchy.infer nodes = Ok (nodes', added) ->
     Dict.keys nodes' = Dict.keys nodes /\
     (forall id parent_id,
        In id (Dict.keys nodes) -> parent_of id = Some parent_id ->
        Dict.mem parent_id nodes = true ->
        includes nodes' id "incoming" parent_id /\
        includes nodes' parent_id "outgoing" id) /\
     (forall id,
        PyStr.has_char Hierarchy.dot id = false ->
        (forall ns count,
           Hierarchy.loop_body (ns, count) id = Ok (ns, count)) /\
        option_map (Hierarchy.item "incoming") (Dict.get id nodes')
        = option_map (Hierarchy.item "incoming") (Dict.get id nodes)) /\
     Hierarchy.infer nodes' = Ok (nodes', 0)) /\
  (forall nodes,
     shaped nodes ->
     exists nodes' added, Hierarchy.infer nodes = Ok (nodes', added)).
Proof.
  split; [reflexivity|]. split; [|exact infer_total].
  intros nodes nodes' added Hrun.
  pose proof Hrun as Hsteps. unfold Hierarchy.infer in Hsteps.
  apply infer_steps in Hsteps as [Hk [_ [Hall Hinc]]]. simpl fst in *.
  split; [exact Hk|]. split; [|split].
  - intros id p Hin Hp Hmem. specialize (Hall id Hin).
    unfold settled in Hall. rewrite Hp in Hall. apply Hall.
    now rewrite (mem_keys nodes' nodes p Hk).
  - intros id Hdot.
    assert (parent_of id = None) as Hnone
        by (unfold parent_of; now rewrite Hdot).
    split; [|now apply Hinc].
    intros ns count. apply settled_step. unfold settled. now rewrite Hnone.
  - eapply infer_idempotent. exact Hrun.
Qed.

(* ================================================================== *)
(** * The requirements an archive yields *)
(* ================================================================== *)

Lemma Forall_set {V} (P : string * V -> Prop) (d : Dict.t V) k v :
  Forall P d -> P (k, v) -> Forall P (Dict.set k v d).
Proof.
  intros Hall Hv. induction d as [|[k' v'] d IH]; simpl.
  - constructor; [exact Hv|constructor].
  - inversion Hall; subst. destruct (String.eqb k k'); constructor; auto.
Qed.

(** ** The entries of [self.elements] *)

Lemma get_ensure_data k k' els :
  Dict.get k' (CameoAnalyzer.ensure_data k els) =
  if String.eqb k' k then
    Some match Dict.get k els with
         | Some d => d
         | None => CameoAnalyzer.no_data
         end
  else Dict.get k' els.
Proof.
  unfold CameoAnalyzer.ensure_data, Dict.mem.
  destruct (String.eqb_spec k' k) as [->|Hne].
  - destruct (Dict.get k els) eqn:E; [exact E|apply get_set_same].
  - destruct (Dict.get k els); [reflexivity|now apply get_set_other].
Qed.

Lemma get_update_data k k' f els :
  Dict.get k' (CameoAnalyzer.update_data k f els) =
  if String.eqb k' k then option_map f (Dict.get k els)
  else Dict.get k' els.
Proof.
  unfold CameoAnalyzer.update_data.
  destruct (String.eqb_spec k' k) as [->|Hne].
  - destruct (Dict.get k els) eqn:E; [apply get_set_same|exact E].
  - destruct (Dict.get k els); [now apply get_set_other|reflexivity].
Qed.

(** Every entry that holds an element holds one of the tree, under the
    id of that element and with its name. *)
Definition elements_of (root : element)
           (els : Dict.t CameoAnalyzer.elem_data) : Prop :=
  forall k data elem,
    Dict.get k els = Some data ->
    CameoAnalyzer.d_element data = Some elem ->
    In elem (Xml.iter root) /\
    CameoAnalyzer.xmi_id_of elem = Some k /\
    CameoAnalyzer.d_name data
    = Some (Xml.get_or "name" EmptyString elem).

Lemma elements_of_ensure root k els :
  elements_of root els ->
  elements_of root (CameoAnalyzer.ensure_data k els).
Proof.
  intros H k' data elem. rewrite get_ensure_data.
  destruct (String.eqb_spec k' k) as [->|_]; [|apply H].
  destruct (Dict.get k els) as [d|] eqn:E.
  - intros [= <-]. now apply H.
  - intros [= <-]. discriminate.
Qed.

Lemma elements_of_update root k f els :
  (forall d, CameoAnalyzer.d_element (f d) = CameoAnalyzer.d_element d /\
             CameoAnalyzer.d_name (f d) = CameoAnalyzer.d_name d) ->
  elements_of root els ->
  elements_of root (CameoAnalyzer.update_data k f els).
Proof.
  intros Hf H k' data elem. rewrite get_update_data.
  destruct (String.eqb_spec k' k) as [->|_]; [|apply H].
  destruct (Dict.get k els) as [d|] eqn:E; [|discriminate].
  cbn [option_map]. intros [= <-]. destruct (Hf d) as [-> ->].
  now apply H.
Qed.

(** ** The index of stereotype applications *)

(** The test of the collector on an element, and the base element the
    element names. *)
Definition applies_requirement (st : element) (k : string) : Prop :=
  (PyStr.contains "Requirement" (Xml.tag st)
   || PyStr.contains "Requirement" (CameoAnalyzer.xmi_type_of st))%bool
  = true /\
  base_of st = Some k.

Definition applications_of (root : element) (apps : Dict.t string) : Prop :=
  forall k, In k (Dict.keys apps) ->
    exists st, In st (Xml.iter root) /\ applies_requirement st k.

Lemma collect_stereotype_inv root self elem :
  In elem (Xml.iter root) ->
  elements_of root (CameoAnalyzer.elements self) ->
  applications_of root (CameoAnalyzer.stereotype_applications self) ->
  elements_of root
    (CameoAnalyzer.elements (CameoAnalyzer.collect_stereotype self elem)) /\
  applications_of root
    (CameoAnalyzer.stereotype_applications
       (CameoAnalyzer.collect_stereotype self elem)).
Proof.
  intros Hin He Ha. unfold CameoAnalyzer.collect_stereotype.
  destruct (_ || _)%bool eqn:Hkw; [|now split].
  fold (base_of elem).
  destruct (base_of elem) as [[|c base]|] eqn:Hbase; try now split.
  cbn [CameoAnalyzer.elements CameoAnalyzer.stereotype_applications].
  split.
  - repeat match goal with
           | |- elements_of _ (if ?b then _ else _) => destruct b
           | |- elements_of _ (CameoAnalyzer.update_data _ _ _) =>
               apply elements_of_update; [intros d; now split|]
           end;
      now apply elements_of_ensure.
  - intros k Hk. apply In_keys_set in Hk as [->|Hk]; [|now apply Ha].
    exists elem. split; [exact Hin|]. now split.
Qed.

Lemma collect_stereotypes_inv root l : forall self,
  incl l (Xml.iter root) ->
  elements_of root (CameoAnalyzer.elements self) ->
  applications_of root (CameoAnalyzer.stereotype_applications self) ->
  elements_of root
    (CameoAnalyzer.elements
       (fold_left CameoAnalyzer.collect_stereotype l self)) /\
  applications_of root
    (CameoAnalyzer.stereotype_applications
       (fold_left CameoAnalyzer.collect_stereotype l self)).
Proof.
  induction l as [|e l IH]; intros self Hl He Ha; [now split|].
  simpl. destruct (@collect_stereotype_inv root self e) as [He' Ha'];
    [apply Hl; now left|exact He|exact Ha|].
  apply IH; [|exact He'|exact Ha'].
  intros x Hx. apply Hl. now right.
Qed.

Lemma collect_element_inv root self elem :
  In elem (Xml.iter root) ->
  elements_of root (CameoAnalyzer.elements self) ->
  elements_of root
    (CameoAnalyzer.elements (CameoAnalyzer.collect_element self elem)) /\
  CameoAnalyzer.stereotype_applications
    (CameoAnalyzer.collect_element self elem)
  = CameoAnalyzer.stereotype_applications self.
Proof.
  intros Hin He. unfold CameoAnalyzer.collect_element.
  destruct (CameoAnalyzer.xmi_id_of elem) as [[|c xmi_id]|] eqn:Hid;
    try now split.
  cbn [CameoAnalyzer.elements CameoAnalyzer.stereotype_applications].
  split; [|reflexivity].
  intros k data e. rewrite get_update_data.
  destruct (String.eqb_spec k (String c xmi_id)) as [->|_].
  - rewrite get_ensure_data, String.eqb_refl. cbn [option_map].
    intros [= <-]. cbn [CameoAnalyzer.d_element CameoAnalyzer.d_name].
    intros [= <-]. now repeat split.
  - intros Hget. eapply elements_of_ensure; [exact He|exact Hget].
Qed.

Lemma collect_elements_inv root l : forall self,
  incl l (Xml.iter root) ->
  elements_of root (CameoAnalyzer.elements self) ->
  elements_of root
    (CameoAnalyzer.elements
       (fold_left CameoAnalyzer.collect_element l self)) /\
  CameoAnalyzer.stereotype_applications
    (fold_left CameoAnalyzer.collect_element l self)
  = CameoAnalyzer.stereotype_applications self.
Proof.
  induction l as [|e l IH]; intros self Hl He; [now split|].
  simpl. destruct (@collect_element_inv root self e) as [He' Hs'];
    [apply Hl; now left|exact He|].
  destruct (IH (CameoAnalyzer.collect_element self e)) as [He2 Hs2];
    [intros x Hx; apply Hl; now right|exact He'|].
  split; [exact He2|congruence].
Qed.

(** ** The stored requirements *)

(** The requirement is read off the element: it has the id of the
    element, its name, its owner and its properties. *)
Definition read_from (elem : element) (k : string)
           (r : CameoAnalyzer.Requirement) : Prop :=
  CameoAnalyzer.xmi_id_of elem = Some k /\
  CameoAnalyzer.xmi_id r = k /\
  CameoAnalyzer.name r = Xml.get_or "name" EmptyString elem /\
  CameoAnalyzer.owner_id r = Xml.get "owner" elem /\
  CameoAnalyzer.properties r = CameoAnalyzer._extract_properties elem.

(** The entry is read off an element of the tree, and an element of the
    tree applies the requirement stereotype to its id. *)
Definition backed (root : element)
           (entry : string * CameoAnalyzer.Requirement) : Prop :=
  (exists elem,
     In elem (Xml.iter root) /\ read_from elem (fst entry) (snd entry)) /\
  (exists st,
     In st (Xml.iter root) /\ applies_requirement st (fst entry)).

Lemma extract_requirement_frame self application :
  CameoAnalyzer.elements
    (CameoAnalyzer.extract_requirement self application)
  = CameoAnalyzer.elements self.
Proof.
  destruct application as [k s]. unfold CameoAnalyzer.extract_requirement.
  destruct (_ && _)%bool; [|reflexivity].
  destruct (Dict.get k (CameoAnalyzer.elements self)) as [data|];
    [|reflexivity].
  destruct (CameoAnalyzer.d_element data); [|reflexivity].
  destruct (CameoAnalyzer._is_valid_requirement_name _); [|reflexivity].
  now destruct (CameoAnalyzer._parse_requirement_element _ _).
Qed.

Lemma extract_requirement_backed root self application :
  elements_of root (CameoAnalyzer.elements self) ->
  (exists st, In st (Xml.iter root)
              /\ applies_requirement st (fst application)) ->
  Forall (backed root) (CameoAnalyzer.requirements self) ->
  Forall (backed root)
         (CameoAnalyzer.requirements
            (CameoAnalyzer.extract_requirement self application)).
Proof.
  intros He Hst Hall. destruct application as [k s].
  unfold CameoAnalyzer.extract_requirement.
  destruct (_ && _)%bool; [|exact Hall].
  destruct (Dict.get k (CameoAnalyzer.elements self)) as [data|] eqn:Hget;
    [|exact Hall].
  destruct (CameoAnalyzer.d_element data) as [elem|] eqn:Helem;
    [|exact Hall].
  destruct (He _ _ _ Hget Helem) as [Hin [Hid Hname]].
  rewrite Hname.
  destruct (CameoAnalyzer._is_valid_requirement_name _); [|exact Hall].
  destruct (CameoAnalyzer._parse_requirement_element elem data)
    as [req|] eqn:Hreq; [|exact Hall].
  cbn [CameoAnalyzer.requirements CameoAnalyzer.with_requirements].
  unfold CameoAnalyzer._parse_requirement_element in Hreq.
  rewrite Hid, Hname in Hreq.
  destruct k as [|c k]; [discriminate|]. injection Hreq as <-.
  cbn [CameoAnalyzer.xmi_id].
  apply Forall_set; [exact Hall|]. split; [|exact Hst].
  exists elem. split; [exact Hin|]. now repeat split.
Qed.

Lemma extract_requirements_backed root applications : forall self,
  elements_of root (CameoAnalyzer.elements self) ->
  (forall a, In a applications ->
     exists st, In st (Xml.iter root) /\ applies_requirement st (fst a)) ->
  Forall (backed root) (CameoAnalyzer.requirements self) ->
  Forall (backed root)
         (CameoAnalyzer.requirements
            (fold_left CameoAnalyzer.extract_requirement applications
                       self)).
Proof.
  induction applications as [|a l IH]; intros self He Hl Hall;
    [exact Hall|].
  simpl. apply IH.
  - now rewrite extract_requirement_frame.
  - intros b Hb. apply Hl. now right.
  - apply extract_requirement_backed; [exact He| |exact Hall].
    apply Hl. now left.
Qed.

(** A relationship and the resolution change the five lists only. *)
Definition same_origin (r r' : CameoAnalyzer.Requirement) : Prop :=
  CameoAnalyzer.xmi_id r' = CameoAnalyzer.xmi_id r /\
  CameoAnalyzer.req_id r' = CameoAnalyzer.req_id r /\
  CameoAnalyzer.name r' = CameoAnalyzer.name r /\
  CameoAnalyzer.owner_id r' = CameoAnalyzer.owner_id r /\
  CameoAnalyzer.properties r' = CameoAnalyzer.properties r.

Lemma backed_same_origin root k r r' :
  same_origin r r' -> backed root (k, r) -> backed root (k, r').
Proof.
  intros [Hx [_ [Hn [Ho Hp]]]] [[elem [Hin [H1 [H2 [H3 [H4 H5]]]]]] Hst].
  split; [|exact Hst]. exists elem. split; [exact Hin|].
  simpl in *. repeat split; congruence.
Qed.

Lemma extract_relationship_backed root self elem :
  Forall (backed root) (CameoAnalyzer.requirements self) ->
  Forall (backed root)
         (CameoAnalyzer.requirements
            (CameoAnalyzer.extract_relationship self elem)).
Proof.
  intros Hall. unfold CameoAnalyzer.extract_relationship.
  destruct (existsb _ _); [|exact Hall].
  unfold CameoAnalyzer._parse_relationship_element.
  destruct (Xml.get "client" elem) as [[|c client]|]; try exact Hall.
  destruct (Xml.get "supplier" elem) as [[|s supplier]|]; try exact Hall.
  destruct (Dict.get _ (CameoAnalyzer.requirements self)) as [r|] eqn:Hget;
    [|exact Hall].
  cbn [CameoAnalyzer.requirements CameoAnalyzer.with_requirements].
  apply Forall_set; [exact Hall|].
  apply get_In in Hget. rewrite Forall_forall in Hall.
  eapply backed_same_origin; [|exact (Hall _ Hget)].
  now repeat split.
Qed.

Lemma extract_relationships_backed root l : forall self,
  Forall (backed root) (CameoAnalyzer.requirements self) ->
  Forall (backed root)
         (CameoAnalyzer.requirements
            (fold_left CameoAnalyzer.extract_relationship l self)).
Proof.
  induction l as [|e l IH]; intros self Hall; [exact Hall|].
  simpl. apply IH. now apply extract_relationship_backed.
Qed.

Lemma _resolve_relationships_backed root self :
  Forall (backed root) (CameoAnalyzer.requirements self) ->
  Forall (backed root)
         (CameoAnalyzer.requirements
            (CameoAnalyzer._resolve_relationships self)).
Proof.
  unfold CameoAnalyzer._resolve_relationships.
  cbn [CameoAnalyzer.requirements CameoAnalyzer.with_requirements].
  generalize (map CameoAnalyzer.xmi_id
                  (Dict.values (CameoAnalyzer.requirements self))).
  intros ids Hall.
  induction Hall as [|[k r] reqs Hr Hall IH]; simpl; constructor; auto.
Qed.

(** X1.  Every requirement the analyzer stores for a model comes from the
    model: an element of the tree carries its id, and the requirement has
    the name, the owner and the properties of that element; and an
    element of the tree whose tag or type contains [Requirement] names
    that id as its base element.  Nothing is stored without both. *)
Theorem stored_requirement_comes_from_the_model (root : element) :
  Forall (backed root)
         (CameoAnalyzer.requirements
            (CameoAnalyzer.extract_and_parse
               (CameoAnalyzer.ModelEntry (CameoAnalyzer.Parsed root))
               CameoAnalyzer.init)).
Proof.
  cbn [CameoAnalyzer.extract_and_parse CameoAnalyzer._parse_xmi_content].
  apply _resolve_relationships_backed.
  unfold CameoAnalyzer._extract_relationships.
  apply extract_relationships_backed.
  unfold CameoAnalyzer._collect_stereotype_applications,
    CameoAnalyzer._collect_all_elements.
  destruct (@collect_stereotypes_inv root (Xml.iter root) CameoAnalyzer.init)
    as [He Ha];
    [apply incl_refl|intros k data elem [=]|intros k []|].
  set (self1 := fold_left CameoAnalyzer.collect_stereotype (Xml.iter root)
                          CameoAnalyzer.init) in *.
  destruct (@collect_elements_inv root (Xml.iter root) self1) as [He2 Hs2];
    [apply incl_refl|exact He|].
  set (self2 := fold_left CameoAnalyzer.collect_element (Xml.iter root)
                          self1) in *.
  unfold CameoAnalyzer._extract_requirements.
  apply extract_requirements_backed; [exact He2| |].
  - intros [k s] Hin. apply Ha. rewrite <- Hs2.
    change k with (fst (k, s)). now apply in_map.
  - assert (CameoAnalyzer.requirements self2 = []) as ->; [|constructor].
    unfold self2, self1.
    pose proof (_collect_all_elements_requirements root
                  (CameoAnalyzer._collect_stereotype_applications
                     root CameoAnalyzer.init)) as H1.
    pose proof (_collect_stereotype_applications_requirements root
                  CameoAnalyzer.init) as H2.
    unfold CameoAnalyzer._collect_all_elements,
      CameoAnalyzer._collect_stereotype_applications in H1, H2.
    now rewrite H1, H2.
Qed.

(** ** The relationships after resolution *)

(** Every requirement is stored under its own [xmi_id]. *)
Definition keyed (reqs : Dict.t CameoAnalyzer.Requirement) : Prop :=
  Dict.is_dict reqs /\
  Forall (fun entry => CameoAnalyzer.xmi_id (snd entry) = fst entry) reqs.

Lemma keyed_set reqs k r :
  keyed reqs -> CameoAnalyzer.xmi_id r = k -> keyed (Dict.set k r reqs).
Proof.
  intros [Hd Hall] Hr. split; [now apply is_dict_set|].
  now apply Forall_set.
Qed.

Lemma extract_requirement_keyed self application :
  keyed (CameoAnalyzer.requirements self) ->
  keyed (CameoAnalyzer.requirements
           (CameoAnalyzer.extract_requirement self application)).
Proof.
  intros Hk. destruct application as [k s].
  unfold CameoAnalyzer.extract_requirement.
  destruct (_ && _)%bool; [|exact Hk].
  destruct (Dict.get k (CameoAnalyzer.elements self)) as [data|];
    [|exact Hk].
  destruct (CameoAnalyzer.d_element data) as [elem|]; [|exact Hk].
  destruct (CameoAnalyzer._is_valid_requirement_name _); [|exact Hk].
  destruct (CameoAnalyzer._parse_requirement_element elem data) as [req|];
    [|exact Hk].
  now apply keyed_set.
Qed.

Lemma extract_relationship_keyed self elem :
  keyed (CameoAnalyzer.requirements self) ->
  keyed (CameoAnalyzer.requirements
           (CameoAnalyzer.extract_relationship self elem)).
Proof.
  intros Hk. unfold CameoAnalyzer.extract_relationship.
  destruct (existsb _ _); [|exact Hk].
  unfold CameoAnalyzer._parse_relationship_element.
  destruct (Xml.get "client" elem) as [[|c client]|]; try exact Hk.
  destruct (Xml.get "supplier" elem) as [[|s supplier]|]; try exact Hk.
  destruct (Dict.get _ (CameoAnalyzer.requirements self)) as [r|] eqn:Hget;
    [|exact Hk].
  cbn [CameoAnalyzer.requirements CameoAnalyzer.with_requirements].
  apply keyed_set; [exact Hk|].
  cbn [CameoAnalyzer.append_reference CameoAnalyzer.xmi_id].
  apply get_In in Hget. destruct Hk as [_ Hall].
  rewrite Forall_forall in Hall. exact (Hall _ Hget).
Qed.

Lemma _parse_xmi_content_keyed content :
  keyed (CameoAnalyzer.requirements
           (CameoAnalyzer._parse_xmi_content content CameoAnalyzer.init)).
Proof.
  assert (keyed []) as Hnil by (split; constructor).
  destruct content as [|root]; [exact Hnil|].
  cbn [CameoAnalyzer._parse_xmi_content].
  unfold CameoAnalyzer._extract_relationships,
    CameoAnalyzer._extract_requirements.
  set (self2 := CameoAnalyzer._collect_all_elements root _).
  assert (keyed (CameoAnalyzer.requirements self2)) as H2.
  { unfold self2.
    now rewrite _collect_all_elements_requirements,
      _collect_stereotype_applications_requirements. }
  clearbody self2.
  assert (forall l self,
             keyed (CameoAnalyzer.requirements self) ->
             keyed (CameoAnalyzer.requirements
                      (fold_left CameoAnalyzer.extract_requirement l self)))
    as Hreq.
  { induction l as [|a l IH]; intros self H; [exact H|].
    simpl. apply IH. now apply extract_requirement_keyed. }
  assert (forall l self,
             keyed (CameoAnalyzer.requirements self) ->
             keyed (CameoAnalyzer.requirements
                      (fold_left CameoAnalyzer.extract_relationship l self)))
    as Hrel.
  { induction l as [|a l IH]; intros self H; [exact H|].
    simpl. apply IH. now apply extract_relationship_keyed. }
  apply Hrel, Hreq, H2.
Qed.

Lemma keyed_ids reqs :
  keyed reqs ->
  map CameoAnalyzer.xmi_id (Dict.values reqs) = Dict.keys reqs.
Proof.
  intros [_ Hall]. unfold Dict.values, Dict.keys.
  induction Hall as [|[k r] reqs Hr Hall IH]; [reflexivity|].
  simpl in *. now rewrite Hr, IH.
Qed.

Lemma resolve_spec all_ids refs :
  NoDup all_ids ->
  NoDup (CameoAnalyzer.resolve all_ids refs) /\
  forall id, In id (CameoAnalyzer.resolve all_ids refs) <->
             In id all_ids /\ In id refs.
Proof.
  intros Hnd. unfold CameoAnalyzer.resolve. split.
  - now apply NoDup_filter.
  - intros id. rewrite filter_In. now rewrite existsb_eqb_In.
Qed.

(** The five lists of a requirement. *)
Definition relationship_lists (r : CameoAnalyzer.Requirement)
  : list (list string) :=
  [CameoAnalyzer.derives_from r; CameoAnalyzer.refines r;
   CameoAnalyzer.satisfies r; CameoAnalyzer.verifies r;
   CameoAnalyzer.traces_to r].

(** The lists of [r'] are those of [r] cut down to the stored ids. *)
Definition resolved_from (ids : list string)
           (r r' : CameoAnalyzer.Requirement) : Prop :=
  same_origin r r' /\
  relationship_lists r'
  = map (CameoAnalyzer.resolve ids) (relationship_lists r).

Lemma _resolve_relationships_spec self :
  let reqs := CameoAnalyzer.requirements self in
  let reqs' :=
    CameoAnalyzer.requirements (CameoAnalyzer._resolve_relationships self)
  in
  Dict.keys reqs' = Dict.keys reqs /\
  Forall2 (fun e e' =>
             fst e' = fst e /\
             resolved_from (map CameoAnalyzer.xmi_id (Dict.values reqs))
                           (snd e) (snd e'))
          reqs reqs'.
Proof.
  unfold CameoAnalyzer._resolve_relationships.
  cbn [CameoAnalyzer.requirements CameoAnalyzer.with_requirements].
  generalize (map CameoAnalyzer.xmi_id
                  (Dict.values (CameoAnalyzer.requirements self))).
  intros ids.
  induction (CameoAnalyzer.requirements self) as [|[k r] reqs [IHk IHf]];
    [split; [reflexivity|constructor]|].
  split.
  - unfold Dict.keys in *. simpl. now rewrite IHk.
  - simpl. constructor; [|exact IHf].
    split; [reflexivity|]. split; [now repeat split|reflexivity].
Qed.

Lemma resolved_lists (P : string -> Prop) ids reqs reqs' :
  NoDup ids -> (forall id, In id ids -> P id) ->
  Forall2 (fun e e' =>
             fst e' = fst e /\ resolved_from ids (snd e) (snd e'))
          reqs reqs' ->
  Forall (fun entry => CameoAnalyzer.xmi_id (snd entry) = fst entry) reqs ->
  Forall (fun entry =>
            CameoAnalyzer.xmi_id (snd entry) = fst entry /\
            Forall (fun refs => NoDup refs /\ forall id, In id refs -> P id)
                   (relationship_lists (snd entry)))
         reqs'.
Proof.
  intros Hnd HP Hf.
  induction Hf as [|[k r] [k' r'] l l' [Hfst [Hsame Hlists]] Hf IH];
    intros Hall; [constructor|].
  inversion Hall as [|? ? Hr Hall']; subst. cbn [fst snd] in *. subst.
  constructor; [|now apply IH].
  cbn [fst snd]. split; [now destruct Hsame as [-> _]|].
  rewrite Hlists. apply Forall_map, Forall_forall. intros refs _.
  destruct (@resolve_spec ids refs Hnd) as [H1 H2].
  split; [exact H1|]. intros id Hid. apply HP. now apply H2.
Qed.

(** X2.  After an archive is analysed, whatever it holds, every stored
    requirement is stored under its own [xmi_id], once; each of its five
    relationship lists holds ids of stored requirements only, and none of
    them twice: a relationship to an element that is no stored requirement
    leaves no trace, and a relationship given twice is kept once. *)
Theorem relationships_name_stored_requirements
        (archive : CameoAnalyzer.mdzip) :
  let reqs :=
    CameoAnalyzer.requirements
      (CameoAnalyzer.extract_and_parse archive CameoAnalyzer.init) in
  Dict.is_dict reqs /\
  Forall (fun entry =>
            CameoAnalyzer.xmi_id (snd entry) = fst entry /\
            Forall (fun refs =>
                      NoDup refs /\
                      forall id, In id refs -> Dict.mem id reqs = true)
                   (relationship_lists (snd entry)))
         reqs.
Proof.
  destruct archive as [| | |content];
    try (split; [constructor|constructor]).
  cbv zeta. cbn [CameoAnalyzer.extract_and_parse].
  pose proof (_parse_xmi_content_keyed content) as Hk.
  set (self := CameoAnalyzer._parse_xmi_content content CameoAnalyzer.init)
    in *.
  destruct (_resolve_relationships_spec self) as [Hkeys Hf].
  cbv zeta in Hkeys, Hf. rewrite (keyed_ids Hk) in Hf.
  destruct Hk as [Hd Hall].
  set (reqs := CameoAnalyzer.requirements
                 (CameoAnalyzer._resolve_relationships self)) in *.
  split; [unfold Dict.is_dict; now rewrite Hkeys|].
  eapply (@resolved_lists (fun id => Dict.mem id reqs = true));
    [exact Hd| |exact Hf|exact Hall].
  intros id Hin. apply mem_In. now rewrite Hkeys.
Qed.

(* ================================================================== *)
(** * Dictionaries filled by a loop *)
(* ================================================================== *)

(** [for x in l: d[key(x)] = value(x)] *)
Section Filled.
Context {A V : Type} (key : A -> string) (value : A -> V).

Definition fill (d : Dict.t V) (l : list A) : Dict.t V :=
  fold_left (fun d x => Dict.set (key x) (value x) d) l d.

Lemma fill_is_dict l : forall d, Dict.is_dict d -> Dict.is_dict (fill d l).
Proof.
  induction l as [|x l IH]; intros d Hd; [exact Hd|].
  simpl. apply IH. now apply is_dict_set.
Qed.

Lemma fill_keys l : forall d k,
  In k (Dict.keys (fill d l)) <->
  In k (Dict.keys d) \/ exists x, In x l /\ key x = k.
Proof.
  induction l as [|x l IH]; intros d k; simpl.
  - split; [now left|]. intros [H|[x [[] _]]]. exact H.
  - rewrite IH, In_keys_set. split.
    + intros [[->|H]|[y [Hy Hk]]].
      * right. exists x. split; [now left|reflexivity].
      * now left.
      * right. exists y. split; [now right|exact Hk].
    + intros [H|[y [[<-|Hy] Hk]]].
      * left. now right.
      * left. now left.
      * right. now exists y.
Qed.

Lemma fill_other l : forall d k,
  (forall x, In x l -> key x <> k) ->
  Dict.get k (fill d l) = Dict.get k d.
Proof.
  induction l as [|x l IH]; intros d k Hl; [reflexivity|].
  simpl. rewrite IH by (intros y Hy; apply Hl; now right).
  apply get_set_other. intros ->. apply (Hl x); [now left|reflexivity].
Qed.

(** The last item with a key gives the value under that key. *)
Lemma fill_last earlier x later d :
  (forall y, In y later -> key y <> key x) ->
  Dict.get (key x) (fill d (earlier ++ x :: later)) = Some (value x).
Proof.
  intros Hl. unfold fill. rewrite fold_left_app. simpl.
  fold (fill (Dict.set (key x) (value x)
                       (fold_left (fun d x => Dict.set (key x) (value x) d)
                                  earlier d)) later).
  rewrite fill_other by exact Hl. apply get_set_same.
Qed.

Lemma fill_length l : forall d,
  List.length (fill d l) <= List.length d + List.length l.
Proof.
  induction l as [|x l IH]; intros d; simpl; [lia|].
  specialize (IH (Dict.set (key x) (value x) d)).
  assert (List.length (Dict.set (key x) (value x) d) <= S (List.length d))
    as Hset.
  { clear. induction d as [|[k v] d IHd]; simpl; [lia|].
    destruct (String.eqb (key x) k); simpl; lia. }
  unfold fill in *. lia.
Qed.

End Filled.

(* ================================================================== *)
(** * The exported requirements *)
(* ================================================================== *)

Lemma export_to_json_fill self :
  CameoAnalyzer.export_to_json self =
  JDict [("nodes",
          JDict (fill (fun e => CameoAnalyzer.req_id (snd e))
                      (fun e => CameoAnalyzer.node_of (snd e))
                      [] (CameoAnalyzer.requirements self)))].
Proof.
  unfold CameoAnalyzer.export_to_json, fill. do 4 f_equal.
  generalize (@nil (string * json)).
  induction (CameoAnalyzer.requirements self) as [|[k r] l IH];
    intros acc; [reflexivity|].
  simpl. apply IH.
Qed.

(** X3.  The export keys the nodes by [req_id], not by the [xmi_id] the
    requirements are stored under: the document has one node for each
    [req_id] that occurs, and when several stored requirements share a
    [req_id] the node is the one of the last of them; the others are not
    exported. *)
Theorem export_keeps_the_last_requirement_of_an_id
        (self : CameoAnalyzer.analyzer) :
  exists nodes,
    CameoAnalyzer.export_to_json self = JDict [("nodes", JDict nodes)] /\
    Dict.is_dict nodes /\
    List.length nodes <= List.length (CameoAnalyzer.requirements self) /\
    (forall id,
       In id (Dict.keys nodes) <->
       exists entry,
         In entry (CameoAnalyzer.requirements self) /\
         CameoAnalyzer.req_id (snd entry) = id) /\
    (forall earlier k r later,
       CameoAnalyzer.requirements self = earlier ++ (k, r) :: later ->
       (forall entry, In entry later ->
          CameoAnalyzer.req_id (snd entry) <> CameoAnalyzer.req_id r) ->
       Dict.get (CameoAnalyzer.req_id r) nodes
       = Some (CameoAnalyzer.node_of r)).
Proof.
  eexists. split; [apply export_to_json_fill|].
  split; [apply fill_is_dict; constructor|].
  split; [apply (fill_length _ _ _ [])|]. split.
  - intros id. rewrite fill_keys. simpl. split.
    + intros [[]|H]. exact H.
    + intros H. now right.
  - intros earlier k r later -> Hlater.
    exact (fill_last (fun e => CameoAnalyzer.req_id (snd e))
                     (fun e => CameoAnalyzer.node_of (snd e))
                     earlier (k, r) later [] Hlater).
Qed.

(* ================================================================== *)
(** * The summary of a batch *)
(* ================================================================== *)

Definition is_success (e : BatchProcessor.file_entry) : bool :=
  match e with
  | BatchProcessor.Succeeded _ _ _ => true
  | BatchProcessor.Failed _ _ => false
  end.

Definition requirements_in (e : BatchProcessor.file_entry) : nat :=
  match e with
  | BatchProcessor.Succeeded _ n _ => n
  | BatchProcessor.Failed _ _ => 0
  end.

Definition entry_filename (e : BatchProcessor.file_entry) : string :=
  match e with
  | BatchProcessor.Succeeded f _ _ => f
  | BatchProcessor.Failed f _ => f
  end.

Definition archive_name (input : string * CameoAnalyzer.mdzip) : string :=
  fst input ++ ".mdzip".

(** What the entries [entries], appended for the archives [inputs], add
    to the summary [s] to give [s']. *)
Record accounts (inputs : list (string * CameoAnalyzer.mdzip))
       (s s' : BatchProcessor.summary_t)
       (entries : list BatchProcessor.file_entry) : Prop := {
  accounts_files :
    BatchProcessor.files s' = BatchProcessor.files s ++ entries;
  accounts_names : map entry_filename entries = map archive_name inputs;
  accounts_successful :
    BatchProcessor.successful s'
    = BatchProcessor.successful s + count is_success entries;
  accounts_failed :
    BatchProcessor.failed s'
    = BatchProcessor.failed s
      + count (fun e => negb (is_success e)) entries;
  accounts_requirements :
    BatchProcessor.total_requirements s'
    = BatchProcessor.total_requirements s
      + list_sum (map requirements_in entries);
  accounts_total :
    BatchProcessor.total_files s' = BatchProcessor.total_files s
}.

Lemma process_file_accounts self fs input :
  let st' := BatchProcessor.process_file (self, fs) input in
  BatchProcessor.output_dir (fst st') = BatchProcessor.output_dir self /\
  exists e,
    accounts [input] (BatchProcessor.summary self)
             (BatchProcessor.summary (fst st')) [e].
Proof.
  destruct input as [stem archive].
  cbv zeta. unfold BatchProcessor.process_file.
  destruct (BatchProcessor._process_single_file self stem archive fs)
    as [[fs' r]|e]; cbn [fst BatchProcessor.output_dir
                          BatchProcessor.summary];
    (split; [reflexivity|]); eexists; constructor;
    cbn [BatchProcessor.files BatchProcessor.successful
         BatchProcessor.failed BatchProcessor.total_requirements
         BatchProcessor.total_files];
    try reflexivity; unfold count; simpl; lia.
Qed.

Lemma accounts_app inputs1 inputs2 s0 s1 s2 entries1 entries2 :
  accounts inputs1 s0 s1 entries1 -> accounts inputs2 s1 s2 entries2 ->
  accounts (inputs1 ++ inputs2) s0 s2 (entries1 ++ entries2).
Proof.
  intros [F1 N1 S1 X1 R1 T1] [F2 N2 S2 X2 R2 T2]. constructor.
  - now rewrite F2, F1, app_assoc.
  - now rewrite !map_app, N1, N2.
  - unfold count in *. rewrite filter_app, length_app. lia.
  - unfold count in *. rewrite filter_app, length_app. lia.
  - rewrite map_app, list_sum_app. lia.
  - congruence.
Qed.

Lemma process_files_accounts inputs : forall self fs,
  let st' := fold_left BatchProcessor.process_file inputs (self, fs) in
  BatchProcessor.output_dir (fst st') = BatchProcessor.output_dir self /\
  exists entries,
    accounts inputs (BatchProcessor.summary self)
             (BatchProcessor.summary (fst st')) entries.
Proof.
  induction inputs as [|input inputs IH]; intros self fs.
  - split; [reflexivity|]. exists []. constructor; simpl;
      try rewrite app_nil_r; try reflexivity; unfold count; simpl; lia.
  - cbv zeta. cbn [fold_left].
    destruct (process_file_accounts self fs input) as [Hd [e He]].
    destruct (BatchProcessor.process_file (self, fs) input)
      as [self1 fs1] eqn:E1.
    destruct (IH self1 fs1) as [Hd' [entries Hes]]. cbn [fst] in *.
    split; [congruence|]. exists ([e] ++ entries).
    exact (@accounts_app [input] inputs _ _ _ _ _ He Hes).
Qed.

(** X4.  A batch run appends one entry per archive to the summary, in
    the order of the archives and under their file names; it adds the
    successes, the failures and the requirements of the successes to the
    three counters, sets [total_files] to the number of archives, and
    saves the summary it returns.  On a fresh processor the counters add
    up: [successful + failed = total_files], the number of entries. *)
Theorem batch_summary_adds_up
        (mdzip_files : list (string * CameoAnalyzer.mdzip))
        (self : BatchProcessor.processor) (fs : filesystem) :
  let out := BatchProcessor.process_all_files mdzip_files self fs in
  let s := BatchProcessor.summary self in
  let s' := BatchProcessor.summary (fst out) in
  (exists entries,
     BatchProcessor.files s' = BatchProcessor.files s ++ entries /\
     map entry_filename entries = map archive_name mdzip_files /\
     BatchProcessor.successful s'
     = BatchProcessor.successful s + count is_success entries /\
     BatchProcessor.failed s'
     = BatchProcessor.failed s
       + count (fun e => negb (is_success e)) entries /\
     BatchProcessor.total_requirements s'
     = BatchProcessor.total_requirements s
       + list_sum (map requirements_in entries)) /\
  BatchProcessor.total_files s' = List.length mdzip_files /\
  BatchProcessor.successful s' + BatchProcessor.failed s'
  = BatchProcessor.successful s + BatchProcessor.failed s
    + List.length mdzip_files /\
  snd out (BatchProcessor.summary_path self)
  = Holds (BatchProcessor.summary_document s') /\
  (self = BatchProcessor.init (BatchProcessor.output_dir self) ->
   BatchProcessor.successful s' + BatchProcessor.failed s'
   = BatchProcessor.total_files s' /\
   List.length (BatchProcessor.files s') = BatchProcessor.total_files s').
Proof.
  cbv zeta. unfold BatchProcessor.process_all_files.
  set (self0 := {| BatchProcessor.output_dir := _ |}).
  destruct (process_files_accounts mdzip_files self0 fs) as [Hd [entries H]].
  destruct (fold_left BatchProcessor.process_file mdzip_files (self0, fs))
    as [self1 fs1].
  cbn [fst snd] in *. destruct H as [F N S X R T].
  cbn [self0 BatchProcessor.summary BatchProcessor.files
       BatchProcessor.successful BatchProcessor.failed
       BatchProcessor.total_requirements BatchProcessor.total_files
       BatchProcessor.output_dir] in *.
  assert (count is_success entries
          + count (fun e => negb (is_success e)) entries
          = List.length mdzip_files) as Hsplit.
  { rewrite <- (length_map archive_name), <- N, length_map.
    unfold count. clear. induction entries as [|e l IH]; [reflexivity|].
    simpl. destruct (is_success e); simpl; lia. }
  split; [exists entries; now repeat split|].
  split; [exact T|]. split; [lia|]. split.
  - unfold BatchProcessor._save_summary, write_json,
      BatchProcessor.summary_path.
    now rewrite Hd, String.eqb_refl.
  - intros Hinit. rewrite Hinit in S, X, F. simpl in S, X, F.
    split; [lia|].
    rewrite F, T, <- (length_map archive_name), <- N, length_map.
    reflexivity.
Qed.

(* ================================================================== *)
(** * The references of the exported code mappings *)
(* ================================================================== *)

Definition references_in (d : list (SlxcAnalyzer.location_key * list json))
  : nat :=
  list_sum (map (fun entry => List.length (snd entry)) d).

Lemma add_reference_total k ref d :
  references_in (SlxcAnalyzer.add_reference k ref d) = S (references_in d).
Proof.
  unfold references_in.
  induction d as [|[k' refs] d IH]; simpl; [reflexivity|].
  destruct (SlxcAnalyzer.key_eqb k k'); simpl.
  - rewrite length_app. simpl. lia.
  - rewrite IH. lia.
Qed.

Lemma add_reference_nonempty k ref d :
  Forall (fun entry => snd entry <> []) d ->
  Forall (fun entry => snd entry <> [])
         (SlxcAnalyzer.add_reference k ref d).
Proof.
  induction 1 as [|[k' refs] d Hne Hall IH]; simpl.
  - constructor; [discriminate|constructor].
  - destruct (SlxcAnalyzer.key_eqb k k'); constructor; auto.
    simpl. now destruct refs.
Qed.

Lemma group_totals mappings : forall acc,
  Forall (fun entry => snd entry <> []) acc ->
  references_in (fold_left group_step mappings acc)
  = references_in acc + List.length mappings /\
  Forall (fun entry => snd entry <> [])
         (fold_left group_step mappings acc).
Proof.
  induction mappings as [|m mappings IH]; intros acc Hne.
  - simpl. split; [lia|exact Hne].
  - cbn [fold_left].
    destruct (IH (group_step acc m)) as [Ht Hn];
      [now apply add_reference_nonempty|].
    split; [|exact Hn]. rewrite Ht. unfold group_step.
    rewrite add_reference_total. simpl. lia.
Qed.

Lemma In_get_location k refs d :
  NoDup (map fst d) -> In (k, refs) d ->
  SlxcAnalyzer.get_location k d = Some refs.
Proof.
  induction d as [|[k' refs'] d IH]; simpl; [intros _ []|].
  intros Hnd [Heq|Hin].
  - injection Heq as -> ->. now rewrite key_eqb_refl.
  - inversion Hnd as [|? ? Hnotin Hnd']; subst.
    rewrite key_eqb_neq; [now apply IH|].
    intros ->. apply Hnotin. change k' with (fst (k', refs)).
    now apply in_map.
Qed.

(** X5.  The grouping of the export loses no reference and invents
    none: the entries together hold as many references as there are
    mappings, no entry is empty, no two entries share a file and block
    path, and the references of an entry are those of the mappings with
    its file and its block path, in the order the mappings were found. *)
Theorem grouping_keeps_every_reference
        (slxc_path : string) (c_files : Dict.t string)
        (code_mappings : list SlxcAnalyzer.CodeMapping) :
  let groups := SlxcAnalyzer.group code_mappings in
  SlxcAnalyzer.export_to_json slxc_path c_files code_mappings
  = JDict [("source_file", JStr slxc_path);
           ("c_files", JList (map JStr (Dict.keys c_files)));
           ("mappings", JList (map SlxcAnalyzer.mapping_entry groups))] /\
  references_in groups = List.length code_mappings /\
  List.length groups <= List.length code_mappings /\
  NoDup (map fst groups) /\
  Forall (fun entry =>
            snd entry <> [] /\
            snd entry
            = map SlxcAnalyzer.reference
                  (filter (fun m => SlxcAnalyzer.key_eqb (key_of m)
                                                         (fst entry))
                          code_mappings))
         groups.
Proof.
  intros groups. split; [reflexivity|].
  destruct (@group_totals code_mappings [] (Forall_nil _)) as [Ht Hn].
  destruct (@group_fold code_mappings [] (NoDup_nil _)) as [Hnd Hget].
  fold (SlxcAnalyzer.group code_mappings) in Ht, Hn, Hnd, Hget.
  rewrite <- group_is_fold in Ht, Hn, Hnd, Hget.
  fold groups in Ht, Hn, Hnd, Hget.
  change (references_in []) with 0 in Ht. cbn [Nat.add] in Ht.
  split; [exact Ht|]. split.
  - rewrite <- Ht. clear - Hn. unfold references_in.
    induction Hn as [|[k refs] d Hne Hall IH]; simpl; [lia|].
    simpl in Hne. destruct refs; [contradiction|simpl; lia].
  - split; [exact Hnd|].
    rewrite Forall_forall in Hn |- *. intros [k refs] Hin.
    split; [now apply Hn|]. simpl.
    pose proof (In_get_location _ _ _ Hnd Hin) as Hk.
    rewrite Hget in Hk. simpl in Hk.
    destruct (filter _ code_mappings); [discriminate|].
    now injection Hk as <-.
Qed.

(* ================================================================== *)
(** * The tokens behind the code mappings *)
(* ================================================================== *)

Lemma prefix_app p s : prefix p (p ++ s) = true.
Proof.
  induction p as [|c p IH]; simpl; [now destruct s|].
  destruct (ascii_dec c c); [exact IH|contradiction].
Qed.

Lemma contains_app needle a b :
  PyStr.contains needle (a ++ needle ++ b) = true.
Proof.
  induction a as [|c a IH].
  - cbn [append]. pose proof (prefix_app needle b) as Hp.
    destruct (needle ++ b)%string; cbn [PyStr.contains]; now rewrite Hp.
  - cbn [append PyStr.contains]. rewrite IH.
    now destruct (prefix needle _).
Qed.

Lemma forallb_not_char c s :
  forallb (fun d => negb (Ascii.eqb d c)) (list_ascii_of_string s) = true ->
  PyStr.has_char c s = false.
Proof.
  unfold PyStr.has_char. induction s as [|d s IH]; [reflexivity|].
  cbn [list_ascii_of_string forallb PyStr.mem_char].
  rewrite andb_true_iff, negb_true_iff. intros [Hd Hs].
  now rewrite Ascii.eqb_sym, Hd, IH.
Qed.

(** The text of the token of a block path. *)
Definition token (path name : string) : string :=
  "'<" ++ path ++ ">/" ++ name ++ "'".

(** A path and a name the pattern can capture. *)
Definition captured (path name : string) : Prop :=
  path <> EmptyString /\ name <> EmptyString /\
  PyStr.has_char ">" path = false /\
  PyStr.has_char SlxcAnalyzer.quote_char name = false.

Lemma append_assoc (a b c : string) :
  ((a ++ b) ++ c = a ++ (b ++ c))%string.
Proof. induction a as [|x a IH]; simpl; [reflexivity|now rewrite IH]. Qed.

Lemma match_at_inv s path name len :
  SlxcAnalyzer.match_at s = Some (path, name, len) ->
  captured path name /\ exists rest, s = (token path name ++ rest)%string.
Proof.
  unfold SlxcAnalyzer.match_at.
  destruct (PyStr.drop_prefix "'<" s) as [s1|] eqn:H1; [|discriminate].
  apply drop_prefix_inv in H1.
  destruct (PyStr.span _ s1) as [p s2] eqn:H2.
  apply span_app in H2 as [Hs1 [Hp _]].
  destruct p as [|c p]; [discriminate|].
  destruct (PyStr.drop_prefix ">/" s2) as [s3|] eqn:H3; [|discriminate].
  apply drop_prefix_inv in H3.
  destruct (PyStr.span _ s3) as [n s4] eqn:H4.
  apply span_app in H4 as [Hs3 [Hn Hq]].
  destruct n as [|d n]; [discriminate|].
  destruct s4 as [|q s4]; [discriminate|].
  intros [= <- <- _]. split.
  - repeat split; try discriminate; now apply forallb_not_char.
  - exists s4. apply negb_false_iff, Ascii.eqb_eq in Hq. subst q.
    rewrite H1, Hs1, H3, Hs3. unfold token, SlxcAnalyzer.quote_char.
    rewrite !append_assoc. reflexivity.
Qed.

Lemma scan_inv s : forall skip path name,
  In (path, name) (SlxcAnalyzer.scan skip s) ->
  captured path name /\
  exists before rest, s = (before ++ token path name ++ rest)%string.
Proof.
  induction s as [|c s IH]; intros skip path name; [intros []|].
  cbn [SlxcAnalyzer.scan].
  assert (forall k, In (path, name) (SlxcAnalyzer.scan k s) ->
            captured path name /\
            exists before rest,
              String c s = (before ++ token path name ++ rest)%string)
    as Hrest.
  { intros k Hin. destruct (IH _ _ _ Hin) as [Hc [before [rest ->]]].
    split; [exact Hc|]. now exists (String c before), rest. }
  destruct skip as [|k]; [|apply Hrest].
  destruct (SlxcAnalyzer.match_at (String c s)) as [[[p n] len]|] eqn:Hm;
    [|apply Hrest].
  intros [[= <- <-]|Hin]; [|now apply (Hrest (len - 1))].
  apply match_at_inv in Hm as [Hc [rest ->]].
  split; [exact Hc|]. now exists EmptyString, rest.
Qed.

(** The mapping [_parse_c_file] makes of a token on line [n + 1]. *)
Definition mapping_of (file : string) (n : nat) (line path name : string)
  : SlxcAnalyzer.CodeMapping :=
  {| SlxcAnalyzer.file_path := file;
     SlxcAnalyzer.line_number := Z.of_nat n + 1;
     SlxcAnalyzer.block_path := "<" ++ path ++ ">/" ++ name;
     SlxcAnalyzer.block_name := name;
     SlxcAnalyzer.code_line := PyStr.strip line |}.

Lemma _parse_c_file_inv file content m :
  In m (SlxcAnalyzer._parse_c_file file content) ->
  exists n line path name,
    nth_error (PyStr.split SlxcAnalyzer.newline content) n = Some line /\
    In (path, name) (SlxcAnalyzer.findall line) /\
    m = mapping_of file n line path name.
Proof.
  unfold SlxcAnalyzer._parse_c_file. rewrite in_flat_map.
  intros [[i line] [Hi Hm]]. apply enumerate_In in Hi as [n [Hn ->]].
  apply in_map_iff in Hm as [[path name] [<- Hin]].
  exists n, line, path, name. split; [exact Hn|]. split; [exact Hin|].
  unfold mapping_of. f_equal. lia.
Qed.

(** X6.  Every code mapping the analyzer records stands for a token that
    is in the text: it names a file of the archive and a line of that
    file, counted from 1, which contains the quoted token of its block
    path; the path part is not empty and has no [>], the name is not
    empty and has no quote; the recorded code is that line, stripped. *)
Theorem every_mapping_is_a_token_of_its_line (c_files : Dict.t string) :
  Forall (fun m =>
            exists content n line path name,
              In (SlxcAnalyzer.file_path m, content) c_files /\
              nth_error (PyStr.split SlxcAnalyzer.newline content) n
              = Some line /\
              m = mapping_of (SlxcAnalyzer.file_path m) n line path name /\
              captured path name /\
              PyStr.contains (token path name) line = true)
         (SlxcAnalyzer.analyze_code_mappings c_files).
Proof.
  apply Forall_forall. intros m Hm.
  unfold SlxcAnalyzer.analyze_code_mappings in Hm.
  apply in_flat_map in Hm as [[file content] [Hfile Hm]].
  apply _parse_c_file_inv in Hm as [n [line [path [name [Hn [Hin ->]]]]]].
  apply scan_inv in Hin as [Hc [before [rest Hline]]].
  exists content, n, line, path, name. cbn [mapping_of
    SlxcAnalyzer.file_path].
  split; [exact Hfile|]. split; [exact Hn|]. split; [reflexivity|].
  split; [exact Hc|]. rewrite Hline. apply contains_app.
Qed.

(* ================================================================== *)
(** * What the inference adds *)
(* ================================================================== *)

(** The id has a dot and what stands before its last dot is a node. *)
Definition linked (nodes : Dict.t json) (req_id : string) : bool :=
  match parent_of req_id with
  | Some parent_id => Dict.mem parent_id nodes
  | None => false
  end.

(** The entry [s] under [nodes[id][key]] is a link between a child and
    its parent. *)
Definition parent_link (nodes : Dict.t json) (id key s : string) : Prop :=
  (key = "incoming" /\ parent_of id = Some s /\ linked nodes id = true) \/
  (key = "outgoing" /\ parent_of s = Some id /\ linked nodes s = true
   /\ In s (Dict.keys nodes)).

Lemma existsb_eq_str_app s' l s :
  existsb (fun y => eq_str y s') (l ++ [JStr s]) = true ->
  existsb (fun y => eq_str y s') l = true \/ s' = s.
Proof.
  rewrite existsb_app. simpl. rewrite orb_false_r.
  intros H. apply orb_true_iff in H as [H|H]; [now left|right].
  apply String.eqb_eq in H. now symmetry.
Qed.

(** An entry that is there after a call was there before, or is the one
    the call was to add. *)
Lemma add_if_absent_sound node_id key s nodes nodes' added id key' s' :
  Hierarchy.add_if_absent node_id key s nodes = Ok (nodes', added) ->
  includes nodes' id key' s' ->
  includes nodes id key' s' \/ (id = node_id /\ key' = key /\ s' = s).
Proof.
  intros H [node [entries [Hget [Hitem Hin]]]].
  apply add_if_absent_inv in H
    as [d [entries0 [Hget0 [Hitem0 [[_ [-> _]]|[l [-> [_ [-> _]]]]]]]]].
  - left. now exists node, entries.
  - destruct (string_dec id node_id) as [->|Hid].
    + rewrite get_set_same in Hget. injection Hget as <-.
      destruct (string_dec key' key) as [->|Hkey].
      * rewrite item_set_same in Hitem. injection Hitem as <-.
        simpl in Hin. injection Hin as Hin.
        apply existsb_eq_str_app in Hin as [Hin | ->]; [left|now right].
        exists (JDict d), (JList l). split; [exact Hget0|].
        split; [exact Hitem0|]. simpl. now rewrite Hin.
      * rewrite item_set_other in Hitem by assumption.
        left. now exists (JDict d), entries.
    + rewrite get_set_other in Hget by assumption.
      left. now exists node, entries.
Qed.

Lemma linked_keys nodes nodes' id :
  Dict.keys nodes' = Dict.keys nodes -> linked nodes' id = linked nodes id.
Proof.
  intros Hk. unfold linked. destruct (parent_of id); [|reflexivity].
  now apply mem_keys.
Qed.

Lemma parent_link_keys nodes nodes' id key s :
  Dict.keys nodes' = Dict.keys nodes ->
  parent_link nodes id key s -> parent_link nodes' id key s.
Proof.
  intros Hk [[H1 [H2 H3]]|[H1 [H2 [H3 H4]]]]; [left|right].
  - now rewrite (@linked_keys nodes nodes' id Hk).
  - rewrite (@linked_keys nodes nodes' s Hk), Hk. now repeat split.
Qed.

(** One step: the two entries of the id, or nothing; at most one is
    counted; the values under the other keys stay. *)
Lemma loop_body_sound nodes count req_id nodes' count' :
  In req_id (Dict.keys nodes) ->
  Hierarchy.loop_body (nodes, count) req_id = Ok (nodes', count') ->
  (forall id key s,
     includes nodes' id key s ->
     includes nodes id key s \/ parent_link nodes id key s) /\
  count' <= count + (if linked nodes req_id then 1 else 0) /\
  count <= count' /\
  (forall id key,
     key <> "incoming" -> key <> "outgoing" ->
     option_map (Hierarchy.item key) (Dict.get id nodes')
     = option_map (Hierarchy.item key) (Dict.get id nodes)).
Proof.
  intros Hreq H. apply loop_body_inv in H
    as [[-> [-> _]]|[p [n1 [a [a' [Hp [Hmem [H1 [H2 ->]]]]]]]]].
  - split; [now left|]. split; [lia|]. split; [lia|reflexivity].
  - assert (linked nodes req_id = true) as Hl
        by (unfold linked; now rewrite Hp).
    split; [|split; [|split]].
    + intros id key s Hinc.
      destruct (@add_if_absent_sound _ _ _ _ _ _ _ _ _ H2 Hinc)
        as [Hinc1|[-> [-> ->]]].
      * destruct (@add_if_absent_sound _ _ _ _ _ _ _ _ _ H1 Hinc1)
          as [Hinc0|[-> [-> ->]]]; [now left|].
        right. left. now repeat split.
      * right. right. now repeat split.
    + rewrite Hl. destruct a; lia.
    + destruct a; lia.
    + intros id key Hi Ho.
      erewrite add_if_absent_other_key; [|exact H2|exact Ho].
      erewrite add_if_absent_other_key; [reflexivity|exact H1|exact Hi].
Qed.

Lemma infer_sound ids : forall nodes count nodes' count',
  incl ids (Dict.keys nodes) ->
  for_each Hierarchy.loop_body ids (nodes, count) = Ok (nodes', count') ->
  (forall id key s,
     includes nodes' id key s ->
     includes nodes id key s \/ parent_link nodes id key s) /\
  count' <= count + List.length (filter (linked nodes) ids) /\
  count <= count' /\
  (forall id key,
     key <> "incoming" -> key <> "outgoing" ->
     option_map (Hierarchy.item key) (Dict.get id nodes')
     = option_map (Hierarchy.item key) (Dict.get id nodes)).
Proof.
  induction ids as [|k ids IH]; intros nodes count nodes' count' Hsub Hrun.
  - injection Hrun as <- <-. split; [now left|]. simpl.
    split; [lia|]. split; [lia|reflexivity].
  - cbn [for_each] in Hrun.
    destruct (Hierarchy.loop_body (nodes, count) k) as [[nodes1 count1]|]
      eqn:Hstep; [|discriminate]. cbn [bind] in Hrun.
    pose proof (@loop_body_keys _ _ _ _ _ Hstep) as Hk.
    destruct (@loop_body_sound nodes count k nodes1 count1
                (Hsub k (or_introl eq_refl)) Hstep)
      as [Hs1 [Hc1 [Hm1 Hf1]]].
    destruct (IH nodes1 count1 nodes' count') as [Hs [Hc [Hm Hf]]];
      [rewrite Hk; intros x Hx; apply Hsub; now right|exact Hrun|].
    split; [|split; [|split]].
    + intros id key s Hinc. destruct (Hs _ _ _ Hinc) as [Hinc1|Hlink].
      * now apply Hs1.
      * right. apply (@parent_link_keys nodes1 nodes id key s);
          [now symmetry|exact Hlink].
    + cbn [filter].
      rewrite (filter_ext (linked nodes1) (linked nodes)) in Hc
        by (intros x; now apply linked_keys).
      destruct (linked nodes k); simpl; lia.
    + lia.
    + intros id key Hi Ho. rewrite (Hf id key Hi Ho). now apply Hf1.
Qed.

(** What an inference that returns has done. *)
Definition adds_parent_links_only (nodes nodes' : Dict.t json)
           (added : nat) : Prop :=
  (forall id key s,
     includes nodes' id key s ->
     includes nodes id key s \/ parent_link nodes id key s) /\
  added <= List.length (filter (linked nodes) (Dict.keys nodes)) /\
  (forall id key,
     key <> "incoming" -> key <> "outgoing" ->
     option_map (Hierarchy.item key) (Dict.get id nodes')
     = option_map (Hierarchy.item key) (Dict.get id nodes)).

(** X7.  When the inference returns, every entry of an [incoming] or
    [outgoing] list of its output was in the input or links a child with
    the node its id names as parent: the parent in the [incoming] list of
    the child, the child in the [outgoing] list of the parent.  The number
    of relationships it reports is at most the number of ids whose
    candidate parent is a node, and what the nodes hold under their other
    keys is what they held. *)
Theorem inference_adds_parent_links_only
        (nodes nodes' : Dict.t json) (added : nat) :
  Hierarchy.infer nodes = Ok (nodes', added) ->
  adds_parent_links_only nodes nodes' added.
Proof.
  unfold Hierarchy.infer. intros Hrun.
  destruct (@infer_sound (Dict.keys nodes) nodes 0 nodes' added
              (incl_refl _) Hrun) as [Hs [Hc [_ Hf]]].
  split; [exact Hs|]. split; [exact Hc|exact Hf].
Qed.

Lemma inference_adds_parent_links_only_witness :
  Hierarchy.infer HierarchyExample.nodes
  = Ok (HierarchyExample.inferred, 2) /\
  adds_parent_links_only HierarchyExample.nodes HierarchyExample.inferred 2.
Proof.
  split; [reflexivity|].
  apply (@inference_adds_parent_links_only HierarchyExample.nodes
           HierarchyExample.inferred 2).
  reflexivity.
Defined.

(* ================================================================== *)
(** * From the batch to the hierarchy *)
(* ================================================================== *)

Lemma In_set_inv {V} (d : Dict.t V) k v k' v' :
  In (k', v') (Dict.set k v d) -> (k', v') = (k, v) \/ In (k', v') d.
Proof.
  induction d as [|[k0 v0] d IH]; simpl.
  - intros [H|[]]. now left.
  - destruct (String.eqb k k0); simpl.
    + intros [H|H]; [now left|right; now right].
    + intros [H|H]; [right; now left|].
      destruct (IH H) as [E|E]; [now left|right; now right].
Qed.

(** A node with a name and the two lists, as the exports write it. *)
Definition node_shaped (node : json) : Prop :=
  exists d incoming outgoing name,
    node = JDict d /\
    Dict.get "incoming" d = Some (JList incoming) /\
    Dict.get "outgoing" d = Some (JList outgoing) /\
    Dict.get "name" d = Some name.

Definition all_shaped (items : Dict.t json) : Prop :=
  Forall (fun entry => node_shaped (snd entry)) items.

Lemma all_shaped_shaped items : all_shaped items -> shaped items.
Proof.
  intros Hall id node Hget. apply get_In in Hget.
  unfold all_shaped in Hall. rewrite Forall_forall in Hall.
  destruct (Hall _ Hget) as [d [inc [out [name [Hd [Hi [Ho _]]]]]]].
  now exists d, inc, out.
Qed.

(** What the batch leaves for the merge: a document whose nodes, if it
    has any, have a name and the two lists. *)
Definition mergeable (f : file) : Prop :=
  match f with
  | Holds doc =>
      exists items,
        get_or_empty "nodes" doc = Ok (JDict items) /\ all_shaped items
  | _ => False
  end.

Lemma node_of_shaped req : node_shaped (CameoAnalyzer.node_of req).
Proof.
  unfold CameoAnalyzer.node_of, CameoAnalyzer.strings.
  eexists. eexists. eexists. eexists. split; [reflexivity|].
  now repeat split.
Qed.

Lemma fill_all_shaped {A} (key : A -> string) (value : A -> json) l :
  (forall x, node_shaped (value x)) ->
  forall d, all_shaped d -> all_shaped (fill key value d l).
Proof.
  intros Hv. induction l as [|x l IH]; intros d Hd; [exact Hd|].
  simpl. apply IH. apply Forall_set; [exact Hd|apply Hv].
Qed.

Lemma export_mergeable self :
  mergeable (Holds (CameoAnalyzer.export_to_json self)).
Proof.
  rewrite export_to_json_fill. eexists. split; [reflexivity|].
  apply fill_all_shaped; [|constructor].
  intros x. apply node_of_shaped.
Qed.

Lemma summary_mergeable s :
  mergeable (Holds (BatchProcessor.summary_document s)).
Proof. exists []. split; [reflexivity|constructor]. Qed.

(** Every file a result names can be merged. *)
Definition results_mergeable (self : BatchProcessor.processor)
           (fs : filesystem) : Prop :=
  forall stem r,
    In (stem, r) (BatchProcessor.results self) ->
    mergeable (fs (BatchProcessor.output_file r)).

Lemma write_json_mergeable path doc fs p :
  mergeable (Holds doc) -> mergeable (fs p) ->
  mergeable (write_json path doc fs p).
Proof.
  intros Hdoc Hp. unfold write_json. now destruct (String.eqb p path).
Qed.

Lemma process_file_mergeable self fs input :
  results_mergeable self fs ->
  results_mergeable (fst (BatchProcessor.process_file (self, fs) input))
                    (snd (BatchProcessor.process_file (self, fs) input)).
Proof.
  intros Hinv. destruct input as [stem archive].
  unfold BatchProcessor.process_file, BatchProcessor._process_single_file.
  cbn [fst snd]. intros stem' r' Hin.
  cbn [BatchProcessor.results] in Hin.
  apply In_set_inv in Hin as [[= -> ->]|Hin].
  - cbn [BatchProcessor.output_file]. unfold write_json.
    rewrite String.eqb_refl. apply export_mergeable.
  - apply write_json_mergeable; [apply export_mergeable|].
    now apply (Hinv stem').
Qed.

Lemma process_files_mergeable inputs : forall self fs,
  results_mergeable self fs ->
  results_mergeable
    (fst (fold_left BatchProcessor.process_file inputs (self, fs)))
    (snd (fold_left BatchProcessor.process_file inputs (self, fs))).
Proof.
  induction inputs as [|input inputs IH]; intros self fs Hinv;
    [exact Hinv|].
  cbn [fold_left].
  pose proof (process_file_mergeable input Hinv) as H1.
  destruct (BatchProcessor.process_file (self, fs) input) as [self1 fs1].
  now apply IH.
Qed.

Lemma process_all_files_mergeable inputs output_dir fs :
  let out :=
    BatchProcessor.process_all_files
      inputs (BatchProcessor.init output_dir) fs in
  results_mergeable (fst out) (snd out) /\
  BatchProcessor.output_dir (fst out) = output_dir.
Proof.
  cbv zeta. unfold BatchProcessor.process_all_files.
  set (self0 := {| BatchProcessor.output_dir := _ |}).
  assert (results_mergeable self0 fs) as H0 by (intros stem r []).
  pose proof (process_files_mergeable inputs H0) as H1.
  destruct (process_files_accounts inputs self0 fs) as [Hd _].
  destruct (fold_left BatchProcessor.process_file inputs (self0, fs))
    as [self1 fs1].
  cbn [fst snd] in *. split; [|exact Hd].
  intros stem r Hin. unfold BatchProcessor._save_summary.
  apply write_json_mergeable; [apply summary_mergeable|].
  now apply (H1 stem).
Qed.

(** ** The merge of such files *)

Lemma merge_nodes_shaped stem items : forall merged,
  all_shaped items -> all_shaped merged ->
  exists merged',
    for_each (BatchProcessor.merge_node stem) items merged = Ok merged' /\
    all_shaped merged'.
Proof.
  induction items as [|[id node] items IH]; intros merged Hitems Hm.
  - now exists merged.
  - inversion Hitems as [|? ? Hnode Hrest]; subst.
    destruct Hnode as [d [inc [out [name [Hd [Hi [Ho Hn]]]]]]].
    simpl in Hd. subst node.
    cbn [for_each BatchProcessor.merge_node
         BatchProcessor.set_source_file bind].
    apply IH; [exact Hrest|].
    apply Forall_set; [exact Hm|].
    exists (Dict.set "source_file" (JStr stem) d), inc, out, name.
    split; [reflexivity|].
    now rewrite !get_set_other by discriminate.
Qed.

Lemma merge_file_shaped fs stem r merged :
  mergeable (fs (BatchProcessor.output_file r)) -> all_shaped merged ->
  exists merged',
    BatchProcessor.merge_file fs merged (stem, r) = Ok merged' /\
    all_shaped merged'.
Proof.
  intros Hf Hm. unfold BatchProcessor.merge_file.
  destruct (fs (BatchProcessor.output_file r)) as [| | |doc];
    try contradiction.
  destruct Hf as [items [Hnodes Hitems]].
  cbn [exists_ json_load bind]. rewrite Hnodes.
  cbn [bind as_dict]. now apply merge_nodes_shaped.
Qed.

Lemma merge_files_shaped fs results : forall merged,
  (forall stem r, In (stem, r) results ->
     mergeable (fs (BatchProcessor.output_file r))) ->
  all_shaped merged ->
  exists merged',
    for_each (BatchProcessor.merge_file fs) results merged = Ok merged' /\
    all_shaped merged'.
Proof.
  induction results as [|[stem r] results IH]; intros merged Hinv Hm.
  - now exists merged.
  - destruct (@merge_file_shaped fs stem r merged) as [m1 [H1 Hs1]];
      [apply (Hinv stem); now left|exact Hm|].
    cbn [for_each]. rewrite H1. cbn [bind].
    apply IH; [|exact Hs1].
    intros stem' r' Hin. apply (Hinv stem'). now right.
Qed.

(** ** The inference on such nodes *)

Lemma add_if_absent_all_shaped node_id key s nodes nodes' added :
  key = "incoming" \/ key = "outgoing" ->
  Hierarchy.add_if_absent node_id key s nodes = Ok (nodes', added) ->
  all_shaped nodes -> all_shaped nodes'.
Proof.
  intros Hkey H Hall. apply add_if_absent_inv in H
    as [d [entries [Hget [_ [[_ [-> _]]|[l [_ [_ [-> _]]]]]]]]];
    [exact Hall|].
  apply Forall_set; [exact Hall|].
  apply get_In in Hget. unfold all_shaped in Hall.
  rewrite Forall_forall in Hall.
  destruct (Hall _ Hget) as [d' [inc [out [name [[= <-] [Hi [Ho Hn]]]]]]].
  destruct Hkey as [-> | ->].
  - exists (Dict.set "incoming" (JList (l ++ [JStr s])) d),
      (l ++ [JStr s]), out, name.
    split; [reflexivity|]. rewrite get_set_same.
    now rewrite !get_set_other by discriminate.
  - exists (Dict.set "outgoing" (JList (l ++ [JStr s])) d),
      inc, (l ++ [JStr s]), name.
    split; [reflexivity|]. rewrite get_set_same.
    now rewrite !get_set_other by discriminate.
Qed.

Lemma infer_all_shaped ids : forall nodes count nodes' count',
  for_each Hierarchy.loop_body ids (nodes, count) = Ok (nodes', count') ->
  all_shaped nodes -> all_shaped nodes'.
Proof.
  induction ids as [|k ids IH]; intros nodes count nodes' count' Hrun Hall.
  - now injection Hrun as <- _.
  - cbn [for_each] in Hrun.
    destruct (Hierarchy.loop_body (nodes, count) k) as [[nodes1 count1]|]
      eqn:Hstep; [|discriminate]. cbn [bind] in Hrun.
    apply (IH _ _ _ _ Hrun).
    apply loop_body_inv in Hstep
      as [[-> _]|[p [n1 [a [a' [_ [_ [H1 [H2 _]]]]]]]]]; [exact Hall|].
    eapply add_if_absent_all_shaped; [now right|exact H2|].
    eapply add_if_absent_all_shaped; [now left|exact H1|exact Hall].
Qed.

(** ** The statistics on such nodes *)

Lemma map_result_total {A B} (f : A -> result B) (l : list A) :
  Forall (fun x => exists y, f x = Ok y) l ->
  exists ys, map_result f l = Ok ys /\ List.length ys = List.length l.
Proof.
  induction 1 as [|x l [y Hy] Hl [ys [IH Hlen]]].
  - now exists [].
  - exists (y :: ys). cbn [map_result]. rewrite Hy, IH. cbn [bind].
    split; [reflexivity|]. simpl. now rewrite Hlen.
Qed.

Lemma count_with_total key nodes :
  all_shaped nodes -> exists n, Hierarchy.count_with key nodes = Ok n.
Proof.
  intros Hall. unfold Hierarchy.count_with.
  destruct (@map_result_total _ _
              (fun n => d <- as_dict n ;;
                        Ok (truthy (Dict.get_default key JNull d)))
              (Dict.values nodes)) as [flags [-> _]].
  - unfold Dict.values. apply Forall_map.
    eapply Forall_impl; [|exact Hall].
    intros [k node] [d [inc [out [name [Hd _]]]]]. cbn [snd] in *.
    subst node. eexists. reflexivity.
  - eexists. reflexivity.
Qed.

Lemma total_of_total key nodes :
  key = "incoming" \/ key = "outgoing" ->
  all_shaped nodes -> exists n, Hierarchy.total_of key nodes = Ok n.
Proof.
  intros Hkey Hall. unfold Hierarchy.total_of.
  destruct (@map_result_total _ _
              (fun n => d <- as_dict n ;;
                        Py.len (Dict.get_default key (JList []) d))
              (Dict.values nodes)) as [lengths [-> _]].
  - unfold Dict.values. apply Forall_map.
    eapply Forall_impl; [|exact Hall].
    intros [k node] [d [inc [out [name [Hd [Hi [Ho _]]]]]]].
    cbn [snd] in *. subst node. cbn [as_dict bind].
    unfold Dict.get_default.
    destruct Hkey as [-> | ->]; [rewrite Hi|rewrite Ho]; eexists;
      reflexivity.
  - eexists. reflexivity.
Qed.

Lemma roots_of_total nodes :
  all_shaped nodes ->
  exists roots,
    Hierarchy.roots_of nodes = Ok roots /\ incl roots (Dict.keys nodes).
Proof.
  intros Hall. unfold Hierarchy.roots_of.
  induction Hall as [|[k node] nodes [d [inc [out [name [Hd _]]]]] Hall
                       [roots [IH Hsub]]].
  - exists []. split; [reflexivity|]. intros x [].
  - cbn [snd] in Hd. subst node. cbn [map_result as_dict bind].
    destruct (map_result _ nodes) as [flags|]; [|discriminate].
    cbn [bind] in *. injection IH as <-.
    eexists. split; [reflexivity|]. cbn [filter snd].
    destruct (negb (truthy (Dict.get_default "incoming" JNull d)));
      cbn [map fst Dict.keys].
    + intros x [<-|Hx]; [now left|right; now apply Hsub].
    + intros x Hx. right. now apply Hsub.
Qed.

Lemma incl_firstn {A} n (l : list A) : incl (firstn n l) l.
Proof.
  revert n. induction l as [|x l IH]; intros [|n]; simpl;
    try (now intros z []).
  intros z [<-|Hz]; [now left|right; now apply (IH n)].
Qed.

Lemma statistics_total nodes :
  all_shaped nodes -> exists printed, Hierarchy.statistics nodes = Ok printed.
Proof.
  intros Hall. unfold Hierarchy.statistics.
  destruct (count_with_total "incoming" Hall) as [wi ->].
  destruct (count_with_total "outgoing" Hall) as [wo ->].
  destruct (@total_of_total "incoming" nodes (or_introl eq_refl) Hall)
    as [ti ->].
  destruct (@total_of_total "outgoing" nodes (or_intror eq_refl) Hall)
    as [to ->].
  destruct (roots_of_total Hall) as [roots [-> Hsub]]. cbn [bind].
  destruct (@map_result_total _ _
              (fun root => node <- Hierarchy.nodes_item root nodes ;;
                           Hierarchy.item "name" node)
              (firstn 5 roots)) as [shown [-> _]].
  - apply Forall_forall. intros root Hroot.
    apply incl_firstn, Hsub, In_keys_get in Hroot as [node Hget].
    unfold Hierarchy.nodes_item. rewrite Hget. cbn [bind].
    apply get_In in Hget. unfold all_shaped in Hall.
    rewrite Forall_forall in Hall.
    destruct (Hall _ Hget) as [d [inc [out [name [Hd [_ [_ Hn]]]]]]].
    cbn [snd] in Hd. subst node. cbn [Hierarchy.item]. rewrite Hn.
    now exists name.
  - eexists. reflexivity.
Qed.

(** X8.  The three stages compose.  After a batch run of a fresh
    processor, whatever the archives hold, every file a result names
    holds a document whose nodes have a name and the two lists; the merge
    of these files returns and writes the merged nodes, which have them
    too; and the hierarchy extraction on the merged file runs to its end:
    the inference returns, the updated document is written to the output
    file, the statistics that follow the write raise nothing, and the
    call returns the path of the output file. *)
Theorem batch_merge_and_inference_return
        (mdzip_files : list (string * CameoAnalyzer.mdzip))
        (output_dir output_file : string) (hierarchy_file : option string)
        (fs : filesystem) :
  let out :=
    BatchProcessor.process_all_files
      mdzip_files (BatchProcessor.init output_dir) fs in
  let merged_file := BatchProcessor.path_in output_dir output_file in
  let written :=
    match hierarchy_file with
    | Some path => path
    | None =>
        Hierarchy.replace ".json" "_with_hierarchy.json" merged_file
    end in
  results_mergeable (fst out) (snd out) /\
  exists merged nodes' added,
    let fs1 :=
      write_json merged_file (JDict [("nodes", JDict merged)]) (snd out) in
    BatchProcessor.merge_all_requirements output_file (fst out) (snd out)
    = Ok (fst out, fs1) /\
    all_shaped merged /\
    Hierarchy.infer merged = Ok (nodes', added) /\
    all_shaped nodes' /\
    Hierarchy.extract_hierarchy_from_ids merged_file hierarchy_file fs1
    = (write_json written (JDict [("nodes", JDict nodes')]) fs1,
       Ok written).
Proof.
  intros out merged_file written.
  destruct (process_all_files_mergeable mdzip_files output_dir fs)
    as [Hinv Hd].
  fold out in Hinv, Hd. split; [exact Hinv|].
  destruct (@merge_files_shaped (snd out)
              (BatchProcessor.results (fst out)) [])
    as [merged [Hm Hs]]; [exact Hinv|constructor|].
  destruct (infer_total (all_shaped_shaped Hs)) as [nodes' [added Hrun]].
  assert (all_shaped nodes') as Hs'
      by (exact (@infer_all_shaped _ _ _ _ _ Hrun Hs)).
  destruct (statistics_total Hs') as [printed Hprinted].
  exists merged, nodes', added. cbv zeta.
  split; [|split; [exact Hs|split; [exact Hrun|split; [exact Hs'|]]]].
  - unfold BatchProcessor.merge_all_requirements,
      BatchProcessor.merged_nodes.
    rewrite Hm. cbn [bind]. now rewrite Hd.
  - unfold Hierarchy.extract_hierarchy_from_ids, write_json at 1.
    fold merged_file. rewrite String.eqb_refl.
    unfold Hierarchy.updated.
    cbn [json_load bind as_dict Dict.get String.eqb Ascii.eqb Bool.eqb].
    rewrite Hrun. cbn [bind Dict.set String.eqb Ascii.eqb Bool.eqb].
    rewrite Hprinted. reflexivity.
Qed.

(* ================================================================== *)
(** * A run of the Simulink tracker *)
(* ================================================================== *)

Lemma set_length {V} (d : Dict.t V) k v :
  List.length (Dict.set k v d) <= S (List.length d).
Proof.
  induction d as [|[k' v'] d IH]; simpl; [lia|].
  destruct (String.eqb k k'); simpl; lia.
Qed.

(** The record was created in the run, for the block it is stored under,
    at one of the first [bound] readings of the clock. *)
Definition made (now : clock) (bound : nat)
           (entry : string * ArtifactVersion) : Prop :=
  exists n data parent,
    n < bound /\
    snd entry
    = create_artifact_version (now n) (fst entry) data MODEL SIMULINK parent.

(** What holds of the versions to return, the two counts and the number
    of records created so far, at every point of a run. *)
Definition run_invariant (now : clock) (versions : Dict.t ArtifactVersion)
           (news changes ticks : nat) : Prop :=
  ticks = news + changes /\
  Dict.is_dict versions /\
  List.length versions <= ticks /\
  Forall (made now ticks) versions.

Lemma made_later now bound bound' entry :
  bound <= bound' -> made now bound entry -> made now bound' entry.
Proof.
  intros Hle [n [data [parent [Hn Hv]]]].
  exists n, data, parent. split; [lia|exact Hv].
Qed.

Lemma simulink_body_invariant now previous_versions st item :
  run_invariant now (SimulinkTracker.all_versions st)
                (SimulinkTracker.total_new st)
                (SimulinkTracker.total_changed st)
                (SimulinkTracker.created st) ->
  let st' := SimulinkTracker.loop_body now previous_versions st item in
  run_invariant now (SimulinkTracker.all_versions st')
                (SimulinkTracker.total_new st')
                (SimulinkTracker.total_changed st')
                (SimulinkTracker.created st').
Proof.
  intros [Ht [Hd [Hl Hm]]]. destruct item as [block_id block_data].
  assert (forall parent news changes,
            S (SimulinkTracker.created st) = news + changes ->
            run_invariant now
              (Dict.set block_id
                 (create_artifact_version
                    (now (SimulinkTracker.created st)) block_id block_data
                    MODEL SIMULINK parent)
                 (SimulinkTracker.all_versions st))
              news changes (S (SimulinkTracker.created st))) as Hnew.
  { intros parent news changes Hsum. split; [exact Hsum|].
    split; [now apply is_dict_set|]. split.
    - pose proof (set_length (SimulinkTracker.all_versions st) block_id
                    (create_artifact_version
                       (now (SimulinkTracker.created st)) block_id
                       block_data MODEL SIMULINK parent)). lia.
    - apply Forall_set.
      + eapply Forall_impl; [|exact Hm].
        intros e. apply made_later. lia.
      + exists (SimulinkTracker.created st), block_data, parent.
        split; [lia|reflexivity]. }
  cbv zeta. unfold SimulinkTracker.loop_body.
  destruct (Dict.get block_id previous_versions) as [prev|].
  - destruct (eq_str (version_id prev) (compute_artifact_hash block_data)).
    + now repeat split.
    + apply Hnew. cbn [SimulinkTracker.total_new
                        SimulinkTracker.total_changed]. lia.
  - apply Hnew. cbn [SimulinkTracker.total_new
                      SimulinkTracker.total_changed]. lia.
Qed.

Lemma simulink_fold_invariant now previous_versions items : forall st,
  run_invariant now (SimulinkTracker.all_versions st)
                (SimulinkTracker.total_new st)
                (SimulinkTracker.total_changed st)
                (SimulinkTracker.created st) ->
  let st' :=
    fold_left (SimulinkTracker.loop_body now previous_versions) items st in
  run_invariant now (SimulinkTracker.all_versions st')
                (SimulinkTracker.total_new st')
                (SimulinkTracker.total_changed st')
                (SimulinkTracker.created st').
Proof.
  induction items as [|item items IH]; intros st Hinv; [exact Hinv|].
  cbn [fold_left]. apply IH.
  now apply simulink_body_invariant.
Qed.

(** One model: the invariant is kept and the store of the model is the
    only file written. *)
Lemma process_model_invariant now rs model_name connectivity_file rs' :
  SimulinkTracker.process_model now rs (model_name, connectivity_file)
  = Ok rs' ->
  run_invariant now (SimulinkTracker.versions rs) (SimulinkTracker.news rs)
                (SimulinkTracker.changes rs) (SimulinkTracker.ticks rs) ->
  run_invariant now (SimulinkTracker.versions rs')
                (SimulinkTracker.news rs') (SimulinkTracker.changes rs')
                (SimulinkTracker.ticks rs') /\
  forall p, p <> SimulinkTracker.version_file model_name ->
            SimulinkTracker.files rs' p = SimulinkTracker.files rs p.
Proof.
  unfold SimulinkTracker.process_model. intros Hrun Hinv.
  destruct (json_load connectivity_file) as [data|]; [|discriminate].
  cbn [bind] in Hrun.
  destruct (get_or_empty "nodes" data) as [blocks|]; [|discriminate].
  cbn [bind] in Hrun.
  destruct (negb (truthy blocks)).
  { injection Hrun as <-. now split. }
  destruct (VersionStorage.load _) as [previous_versions|]; [|discriminate].
  cbn [bind] in Hrun.
  destruct (as_dict blocks) as [items|]; [|discriminate].
  cbn [bind] in Hrun. injection Hrun as <-.
  cbn [SimulinkTracker.versions SimulinkTracker.news SimulinkTracker.changes
       SimulinkTracker.ticks SimulinkTracker.files].
  split.
  - now apply simulink_fold_invariant.
  - intros p Hp. unfold VersionStorage.save, write_json.
    destruct (String.eqb_spec p (SimulinkTracker.version_file model_name));
      [contradiction|reflexivity].
Qed.

Lemma process_models_invariant now found : forall rs rs',
  for_each (SimulinkTracker.process_model now) found rs = Ok rs' ->
  run_invariant now (SimulinkTracker.versions rs) (SimulinkTracker.news rs)
                (SimulinkTracker.changes rs) (SimulinkTracker.ticks rs) ->
  run_invariant now (SimulinkTracker.versions rs')
                (SimulinkTracker.news rs') (SimulinkTracker.changes rs')
                (SimulinkTracker.ticks rs') /\
  forall p,
    (forall m f, In (m, f) found -> p <> SimulinkTracker.version_file m) ->
    SimulinkTracker.files rs' p = SimulinkTracker.files rs p.
Proof.
  induction found as [|[m f] found IH]; intros rs rs' Hrun Hinv.
  - injection Hrun as <-. now split.
  - cbn [for_each] in Hrun.
    destruct (SimulinkTracker.process_model now rs (m, f)) as [rs1|]
      eqn:H1; [|discriminate]. cbn [bind] in Hrun.
    destruct (@process_model_invariant _ _ _ _ _ H1 Hinv) as [Hinv1 Hf1].
    destruct (IH _ _ Hrun Hinv1) as [Hinv' Hf].
    split; [exact Hinv'|]. intros p Hp.
    rewrite Hf by (intros m' f' Hin; apply (Hp m' f'); now right).
    apply Hf1. apply (Hp m f). now left.
Qed.

(** What a run that returns has returned and written. *)
Definition returns_created_records (now : clock)
           (found : list (string * file)) (fs fs' : filesystem)
           (out : tracked) : Prop :=
  let versions := fst (fst out) in
  let news := snd (fst out) in
  let changes := snd out in
  Dict.is_dict versions /\
  List.length versions <= news + changes /\
  Forall (made now (news + changes)) versions /\
  forall p,
    (forall m f, In (m, f) found -> p <> SimulinkTracker.version_file m) ->
    fs' p = fs p.

(** X9.  A run of the Simulink tracker over any number of models returns
    records it created in that run only, each under the id of its block
    and stamped by one of the first [new + changed] readings of the clock;
    the returned map is keyed by block id alone, so it holds at most
    [new + changed] records, fewer when blocks of two models share an id.
    The run writes the version stores of the models it was given and no
    other file. *)
Theorem simulink_run_returns_created_records
        (now : clock) (connectivity_files : option (list (string * file)))
        (fs fs' : filesystem) (out : tracked) :
  SimulinkTracker.track_simulink_blocks now connectivity_files fs
  = Ok (fs', out) ->
  returns_created_records
    now match connectivity_files with Some found => found | None => [] end
    fs fs' out.
Proof.
  assert (returns_created_records now [] fs fs ([], 0, 0)) as Hnone.
  { split; [constructor|]. split; [simpl; lia|].
    split; [constructor|reflexivity]. }
  unfold SimulinkTracker.track_simulink_blocks.
  destruct connectivity_files as [[|first found]|];
    try (intros [= <- <-]; exact Hnone).
  set (rs0 := {| SimulinkTracker.files := fs |}).
  destruct (for_each (SimulinkTracker.process_model now) (first :: found)
                     rs0) as [rs|] eqn:Hrun; [|discriminate].
  cbn [bind]. intros [= <- <-].
  assert (run_invariant now (SimulinkTracker.versions rs0)
            (SimulinkTracker.news rs0) (SimulinkTracker.changes rs0)
            (SimulinkTracker.ticks rs0)) as H0.
  { split; [reflexivity|]. split; [constructor|].
    split; [simpl; lia|constructor]. }
  destruct (@process_models_invariant _ _ _ _ Hrun H0)
    as [[Ht [Hd [Hl Hm]]] Hf].
  unfold returns_created_records. cbn [fst snd]. rewrite <- Ht.
  now repeat split.
Qed.

Lemma simulink_run_returns_created_records_witness :
  exists fs' out,
    SimulinkTracker.track_simulink_blocks
      TrackerExample.now (Some [("plant", Holds StoreExample.data)])
      StoreExample.stale
    = Ok (fs', out) /\
    snd (fst out) = 1 /\ snd out = 1 /\
    returns_created_records
      TrackerExample.now [("plant", Holds StoreExample.data)]
      StoreExample.stale fs' out.
Proof.
  destruct (SimulinkTracker.track_simulink_blocks
              TrackerExample.now (Some [("plant", Holds StoreExample.data)])
              StoreExample.stale)
    as [[fs' out]|e] eqn:Hrun; [|vm_compute in Hrun; discriminate].
  exists fs', out. split; [reflexivity|].
  split; [vm_compute in Hrun; now injection Hrun as _ <-|].
  split; [vm_compute in Hrun; now injection Hrun as _ <-|].
  exact (@simulink_run_returns_created_records
           TrackerExample.now (Some [("plant", Holds StoreExample.data)])
           StoreExample.stale fs' out Hrun).
Defined.

(* ================================================================== *)
(** * The exported block graph *)
(* ================================================================== *)

Section ExportedGraph.
Import SimulinkAnalyzer.

Lemma sid_eqb_eq a b : sid_eqb a b = true <-> a = b.
Proof.
  destruct a as [s|], b as [t|]; simpl; try (split; [discriminate|]);
    try (intros [=]); try tauto.
  rewrite String.eqb_eq. split; [now intros ->|now intros [= ->]].
Qed.

Lemma sid_eqb_refl a : sid_eqb a a = true.
Proof. now apply sid_eqb_eq. Qed.

Lemma sid_eqb_neq a b : a <> b -> sid_eqb a b = false.
Proof.
  intros Hne. destruct (sid_eqb a b) eqn:E; [|reflexivity].
  now apply sid_eqb_eq in E.
Qed.

Lemma get_update_node k k' f g :
  get_node k' (update_node k f g) =
  if sid_eqb k' k then option_map f (get_node k g) else get_node k' g.
Proof.
  induction g as [|[k0 n] g IH]; simpl.
  - now destruct (sid_eqb k' k).
  - destruct (sid_eqb k k0) eqn:E0; simpl.
    + apply sid_eqb_eq in E0 as <-.
      now destruct (sid_eqb k' k).
    + rewrite IH. destruct (sid_eqb k' k) eqn:E.
      * apply sid_eqb_eq in E as ->. now rewrite E0.
      * reflexivity.
Qed.

Lemma get_set_node k k' n g :
  get_node k' (set_node k n g) =
  if sid_eqb k' k then Some n else get_node k' g.
Proof.
  induction g as [|[k0 n0] g IH]; simpl; [reflexivity|].
  destruct (sid_eqb k k0) eqn:E0; simpl.
  - apply sid_eqb_eq in E0 as <-. now destruct (sid_eqb k' k).
  - rewrite IH. destruct (sid_eqb k' k) eqn:E; [|reflexivity].
    apply sid_eqb_eq in E as ->. now rewrite E0.
Qed.

(** ** The nodes of the blocks *)

Definition unconnected (n : node) : Prop :=
  incoming n = [] /\ outgoing n = [].

Lemma add_blocks_nodes model_name blocks : forall g,
  (forall k n, get_node k g = Some n -> unconnected n) ->
  let g' := fold_left (add_block model_name) blocks g in
  (forall k, has_node k g' = (has_block k blocks || has_node k g)%bool) /\
  (forall k n, get_node k g' = Some n -> unconnected n).
Proof.
  induction blocks as [|[k0 b] blocks IH]; intros g Hg; [now split|].
  cbn [fold_left].
  destruct (IH (add_block model_name g (k0, b))) as [Hhas Hun].
  - intros k n. unfold add_block. rewrite get_set_node.
    destruct (sid_eqb k k0); [|apply Hg].
    intros [= <-]. now split.
  - split; [|exact Hun].
    intros k. rewrite Hhas. unfold has_node, add_block.
    rewrite get_set_node. cbn [has_block].
    destruct (sid_eqb k k0); [|reflexivity].
    now rewrite !orb_true_r.
Qed.

(** ** The connections *)

(** The node with some entries appended to its two lists. *)
Definition extend (ins outs : list string) (n : node) : node :=
  {| node_name := node_name n; node_type := node_type n;
     node_parent_system := node_parent_system n;
     node_model_name := node_model_name n;
     incoming := incoming n ++ ins;
     outgoing := outgoing n ++ outs |}.

Lemma extend_nil n : extend [] [] n = n.
Proof. destruct n. unfold extend. simpl. now rewrite !app_nil_r. Qed.

Lemma extend_extend a b a' b' n :
  extend a' b' (extend a b n) = extend (a ++ a') (b ++ b') n.
Proof. unfold extend. simpl. now rewrite !app_assoc. Qed.

(** Both ends of the connection are nodes. *)
Definition kept (g : graph) (c : Connection) : bool :=
  (has_node (Some (source_block c)) g
   && has_node (Some (dest_block c)) g)%bool.

Definition enters (g : graph) (k : option string) (c : Connection) : bool :=
  (kept g c && sid_eqb k (Some (dest_block c)))%bool.

Definition leaves (g : graph) (k : option string) (c : Connection) : bool :=
  (kept g c && sid_eqb k (Some (source_block c)))%bool.

Lemma add_connection_get g c k :
  get_node k (add_connection g c) =
  option_map (extend (if enters g k c then [source_block c] else [])
                     (if leaves g k c then [dest_block c] else []))
             (get_node k g).
Proof.
  unfold add_connection, enters, leaves. fold (kept g c).
  destruct (kept g c); cbn [andb].
  - rewrite !get_update_node.
    destruct (sid_eqb k (Some (dest_block c))) eqn:Ed.
    + apply sid_eqb_eq in Ed. subst k.
      destruct (sid_eqb (Some (dest_block c)) (Some (source_block c)))
        eqn:Es.
      * apply sid_eqb_eq in Es. injection Es as Es. rewrite Es.
        destruct (get_node _ g) as [n|]; [|reflexivity].
        reflexivity.
      * destruct (get_node _ g) as [n|]; [|reflexivity].
        cbn [option_map]. f_equal. destruct n.
        unfold extend, append_incoming. simpl. now rewrite app_nil_r.
    + destruct (sid_eqb k (Some (source_block c))) eqn:Es.
      * apply sid_eqb_eq in Es. subst k.
        destruct (get_node _ g) as [n|]; [|reflexivity].
        cbn [option_map]. f_equal. destruct n.
        unfold extend, append_outgoing. simpl. now rewrite app_nil_r.
      * destruct (get_node k g) as [n|]; [|reflexivity].
        cbn [option_map]. now rewrite extend_nil.
  - destruct (get_node k g) as [n|]; [|reflexivity].
    cbn [option_map]. now rewrite extend_nil.
Qed.

Lemma add_connection_has g c k :
  has_node k (add_connection g c) = has_node k g.
Proof.
  unfold has_node. rewrite add_connection_get.
  now destruct (get_node k g).
Qed.

Lemma kept_add_connection g c c' :
  kept (add_connection g c) c' = kept g c'.
Proof. unfold kept. now rewrite !add_connection_has. Qed.

Lemma add_connections_get connections : forall g k,
  get_node k (fold_left add_connection connections g) =
  option_map
    (extend (map source_block (filter (enters g k) connections))
            (map dest_block (filter (leaves g k) connections)))
    (get_node k g).
Proof.
  induction connections as [|c connections IH]; intros g k.
  - simpl. destruct (get_node k g) as [n|]; [|reflexivity].
    cbn [option_map]. now rewrite extend_nil.
  - cbn [fold_left]. rewrite IH, add_connection_get.
    rewrite (filter_ext (enters (add_connection g c) k) (enters g k))
      by (intros x; unfold enters; now rewrite kept_add_connection).
    rewrite (filter_ext (leaves (add_connection g c) k) (leaves g k))
      by (intros x; unfold leaves; now rewrite kept_add_connection).
    destruct (get_node k g) as [n|]; [|reflexivity].
    cbn [option_map filter]. rewrite extend_extend. f_equal. f_equal.
    + now destruct (enters g k c).
    + now destruct (leaves g k c).
Qed.

Lemma count_occ_map_filter {A} (f : A -> string) (p : A -> bool) l x :
  count_occ string_dec (map f (filter p l)) x
  = List.length (filter (fun a => (p a && String.eqb (f a) x)%bool) l).
Proof.
  induction l as [|a l IH]; [reflexivity|]. cbn [filter].
  destruct (p a); cbn [andb map]; [|exact IH].
  cbn [count_occ]. destruct (string_dec (f a) x) as [->|Hne].
  - rewrite String.eqb_refl. simpl. now rewrite IH.
  - apply String.eqb_neq in Hne. now rewrite Hne.
Qed.

(** Both ends of the connection are blocks. *)
Definition joins (blocks : list (option string * Block))
           (c : Connection) : bool :=
  (has_block (Some (source_block c)) blocks
   && has_block (Some (dest_block c)) blocks)%bool.

(** The nodes of the export, by look-up. *)
Lemma exported_nodes_view model_path blocks connections :
  let nodes := exported_nodes model_path blocks connections in
  (forall k, has_node k nodes = has_block k blocks) /\
  (forall k n,
     get_node k nodes = Some n ->
     incoming n
     = map source_block
           (filter (fun c => (joins blocks c
                              && sid_eqb k (Some (dest_block c)))%bool)
                   connections) /\
     outgoing n
     = map dest_block
           (filter (fun c => (joins blocks c
                              && sid_eqb k (Some (source_block c)))%bool)
                   connections)).
Proof.
  intros nodes. unfold exported_nodes in nodes.
  set (g0 := fold_left (add_block (model_name_of model_path)) blocks [])
    in *.
  destruct (@add_blocks_nodes (model_name_of model_path) blocks [])
    as [Hhas0 Hun0]; [intros k n [=]|].
  fold g0 in Hhas0, Hun0.
  assert (forall k, has_node k g0 = has_block k blocks) as Hhas
      by (intros k; rewrite Hhas0; apply orb_false_r).
  assert (forall c, kept g0 c = joins blocks c) as Hkept
      by (intros c; unfold kept, joins; now rewrite !Hhas).
  split.
  - intros k. unfold has_node, nodes. rewrite add_connections_get.
    rewrite <- Hhas. unfold has_node. now destruct (get_node k g0).
  - intros k n. unfold nodes. rewrite add_connections_get.
    destruct (get_node k g0) as [n0|] eqn:E0; [|discriminate].
    cbn [option_map]. intros [= <-].
    destruct (Hun0 _ _ E0) as [Hi Ho]. cbn [extend incoming outgoing].
    rewrite Hi, Ho. cbn [app].
    split; (f_equal; apply filter_ext; intros c;
            unfold enters, leaves; now rewrite Hkept).
Qed.

(** X10.  The exported graph has a node for every block and for nothing
    else.  A connection whose two ends are blocks enters the [outgoing]
    list of its source and the [incoming] list of its destination; any
    other connection is dropped.  So the lists of a node hold, in the
    order of the connections, the far ends of the connections that join
    two blocks; every entry names a node; and [dst] is as often in the
    [outgoing] list of [src] as [src] is in the [incoming] list of [dst]:
    parallel connections are kept, one entry each. *)
Theorem exported_graph_is_closed_and_symmetric
        (model_path : Path.t) (blocks : list (option string * Block))
        (connections : list Connection) :
  let nodes := exported_nodes model_path blocks connections in
  (forall k, has_node k nodes = has_block k blocks) /\
  (forall k n,
     get_node k nodes = Some n ->
     incoming n
     = map source_block
           (filter (fun c => (joins blocks c
                              && sid_eqb k (Some (dest_block c)))%bool)
                   connections) /\
     outgoing n
     = map dest_block
           (filter (fun c => (joins blocks c
                              && sid_eqb k (Some (source_block c)))%bool)
                   connections) /\
     forall x, In x (incoming n ++ outgoing n) ->
               has_node (Some x) nodes = true) /\
  (forall src dst n_src n_dst,
     get_node (Some src) nodes = Some n_src ->
     get_node (Some dst) nodes = Some n_dst ->
     count_occ string_dec (outgoing n_src) dst
     = count_occ string_dec (incoming n_dst) src).
Proof.
  intros nodes.
  destruct (exported_nodes_view model_path blocks connections)
    as [Hnodes Hlists].
  fold nodes in Hnodes, Hlists.
  split; [exact Hnodes|]. split.
  - intros k n Hget. destruct (Hlists k n Hget) as [Hi Ho].
    split; [exact Hi|]. split; [exact Ho|].
    intros x Hx. rewrite Hnodes.
    rewrite Hi, Ho, in_app_iff, !in_map_iff in Hx.
    destruct Hx as [[c [<- Hc]]|[c [<- Hc]]];
      apply filter_In in Hc as [_ Hc];
      unfold joins in Hc; apply andb_true_iff in Hc as [Hc _];
      now apply andb_true_iff in Hc.
  - intros src dst n_src n_dst Hs Hd.
    destruct (Hlists _ _ Hs) as [_ ->].
    destruct (Hlists _ _ Hd) as [-> _].
    rewrite !count_occ_map_filter. f_equal. apply filter_ext. intros c.
    cbn [sid_eqb].
    rewrite (String.eqb_sym src), (String.eqb_sym dst).
    destruct (joins blocks c), (String.eqb (source_block c) src),
             (String.eqb (dest_block c) dst); reflexivity.
Qed.

End ExportedGraph.

(* ================================================================== *)
(** * The hash of the connections of a model *)
(* ================================================================== *)

Section SortedTuples.
Import ConnectionVersioning.

Definition tuple_le (a b : string * string) : Prop := tuple_leb a b = true.

Lemma compare_refl (s : string) : String.compare s s = Eq.
Proof.
  induction s as [|c s IH]; simpl; [reflexivity|].
  now rewrite ascii_compare_N, N.compare_refl.
Qed.

Lemma compare_Gt_Lt (a b : string) :
  String.compare a b = Gt -> String.compare b a = Lt.
Proof. intros H. rewrite String.compare_antisym, H. reflexivity. Qed.

Lemma tuple_leb_total a b : tuple_le a b \/ tuple_le b a.
Proof.
  unfold tuple_le, tuple_leb.
  destruct (String.compare (fst a) (fst b)) eqn:E.
  - apply String.compare_eq_iff in E. rewrite E, compare_refl.
    apply String.leb_total.
  - now left.
  - right. now rewrite (compare_Gt_Lt _ _ E).
Qed.

Lemma tuple_leb_antisym a b : tuple_le a b -> tuple_le b a -> a = b.
Proof.
  unfold tuple_le, tuple_leb. destruct a as [a1 a2], b as [b1 b2].
  cbn [fst snd].
  destruct (String.compare a1 b1) eqn:E; try discriminate.
  - apply String.compare_eq_iff in E. subst b1. rewrite compare_refl.
    intros H1 H2. f_equal. now apply String.leb_antisym.
  - intros _. rewrite String.compare_antisym, E. discriminate.
Qed.

Lemma tuple_leb_trans a b c : tuple_le a b -> tuple_le b c -> tuple_le a c.
Proof.
  unfold tuple_le, tuple_leb. destruct a as [a1 a2], b as [b1 b2],
    c as [c1 c2]. cbn [fst snd].
  destruct (String.compare a1 b1) eqn:E1; try discriminate.
  - apply String.compare_eq_iff in E1. subst b1.
    destruct (String.compare a1 c1); try discriminate; try reflexivity.
    apply leb_trans.
  - intros _. destruct (String.compare b1 c1) eqn:E2; try discriminate.
    + apply String.compare_eq_iff in E2. subst c1. now rewrite E1.
    + now rewrite (compare_Lt_trans _ _ _ E1 E2).
Qed.

Lemma insert_tuple_perm x l : Permutation (insert_tuple x l) (x :: l).
Proof.
  induction l as [|y l IH]; simpl; [reflexivity|].
  destruct (tuple_leb x y); [reflexivity|].
  rewrite IH. apply perm_swap.
Qed.

Lemma sorted_perm l : Permutation (sorted l) l.
Proof.
  induction l as [|x l IH]; simpl; [reflexivity|].
  rewrite insert_tuple_perm. now constructor.
Qed.

Lemma insert_tuple_sorted x l :
  StronglySorted tuple_le l -> StronglySorted tuple_le (insert_tuple x l).
Proof.
  induction 1 as [|y l Hs IH Hall]; simpl.
  - repeat constructor.
  - destruct (tuple_leb x y) eqn:E.
    + constructor; [now constructor|].
      constructor; [exact E|].
      eapply Forall_impl; [|exact Hall].
      intros z Hz. now apply tuple_leb_trans with y.
    + constructor; [exact IH|].
      apply (Permutation_Forall (Permutation_sym (insert_tuple_perm x l))).
      constructor; [|exact Hall].
      destruct (tuple_leb_total x y) as [H|H]; [|exact H].
      unfold tuple_le in H. congruence.
Qed.

Lemma sorted_sorted l : StronglySorted tuple_le (sorted l).
Proof.
  induction l as [|x l IH]; simpl; [constructor|].
  now apply insert_tuple_sorted.
Qed.

(** Two sorted lists with the same tuples, each as often, are equal. *)
Lemma sorted_tuples_unique l1 l2 :
  StronglySorted tuple_le l1 -> StronglySorted tuple_le l2 ->
  Permutation l1 l2 -> l1 = l2.
Proof.
  intros H1. revert l2.
  induction H1 as [|x l1 Hs1 IH Hall1]; intros l2 H2 Hp.
  - now apply Permutation_nil in Hp.
  - destruct H2 as [|y l2 Hs2 Hall2].
    + apply Permutation_sym, Permutation_nil in Hp. discriminate.
    + assert (x = y) as ->.
      { assert (In x (y :: l2)) as Hx
            by (eapply Permutation_in; [exact Hp|now left]).
        assert (In y (x :: l1)) as Hy
            by (eapply Permutation_in;
                [exact (Permutation_sym Hp)|now left]).
        destruct Hx as [->|Hx]; [reflexivity|].
        destruct Hy as [->|Hy]; [reflexivity|].
        rewrite Forall_forall in Hall1, Hall2.
        apply tuple_leb_antisym; [now apply Hall1|now apply Hall2]. }
      f_equal. apply IH; [assumption|].
      now apply Permutation_cons_inv in Hp.
Qed.

Lemma sorted_order_independent l1 l2 :
  Permutation l1 l2 -> sorted l1 = sorted l2.
Proof.
  intros Hp. apply sorted_tuples_unique; try apply sorted_sorted.
  rewrite !sorted_perm. exact Hp.
Qed.

End SortedTuples.

(** X11.  The hash of the connections of a model does not depend on the
    order in which the connections are listed: two lists with the same
    connections, each as often, have the same hash.  A connection listed
    once more changes the list that is hashed. *)
Theorem connections_hash_ignores_the_order
        (c1 c2 : list (string * string)) :
  Permutation c1 c2 ->
  ConnectionVersioning.sorted c1 = ConnectionVersioning.sorted c2 /\
  ConnectionVersioning.compute_connections_hash c1
  = ConnectionVersioning.compute_connections_hash c2 /\
  List.length (ConnectionVersioning.sorted c1) = List.length c1.
Proof.
  intros Hp. pose proof (sorted_order_independent Hp) as Hs.
  split; [exact Hs|]. split.
  - unfold ConnectionVersioning.compute_connections_hash. now rewrite Hs.
  - apply Permutation_length, sorted_perm.
Qed.

Lemma connections_hash_ignores_the_order_witness :
  Permutation [("2", "3"); ("1", "2"); ("1", "10")]
              [("1", "2"); ("1", "10"); ("2", "3")] /\
  ConnectionVersioning.sorted [("2", "3"); ("1", "2"); ("1", "10")]
  = [("1", "10"); ("1", "2"); ("2", "3")] /\
  ConnectionVersioning.compute_connections_hash
    [("2", "3"); ("1", "2"); ("1", "10")]
  = ConnectionVersioning.compute_connections_hash
      [("1", "2"); ("1", "10"); ("2", "3")].
Proof.
  assert (Permutation [("2", "3"); ("1", "2"); ("1", "10")]
                      [("1", "2"); ("1", "10"); ("2", "3")]) as Hp.
  { exact (Permutation_cons_append [("1", "2"); ("1", "10")] ("2", "3")). }
  split; [exact Hp|]. split; [reflexivity|].
  exact (proj1 (proj2 (connections_hash_ignores_the_order Hp))).
Defined.

(* ================================================================== *)
(** * The edges the loader and the versioner read *)
(* ================================================================== *)

Lemma set_absent {V} (d : Dict.t V) k v :
  ~ In k (Dict.keys d) -> Dict.set k v d = d ++ [(k, v)].
Proof.
  induction d as [|[k' v'] d IH]; simpl; [reflexivity|].
  intros Hnin. destruct (String.eqb_spec k k') as [->|_].
  - exfalso. apply Hnin. now left.
  - rewrite IH; [reflexivity|]. intros Hin. apply Hnin. now right.
Qed.

Lemma rel_rows_app a b :
  Neo4jLoader.rel_rows (a ++ b)
  = Neo4jLoader.rel_rows a ++ Neo4jLoader.rel_rows b.
Proof. unfold Neo4jLoader.rel_rows. apply flat_map_app. Qed.

Lemma parse_nodes_rows items : forall blocks connections,
  NoDup (Dict.keys items) ->
  (forall k, In k (Dict.keys items) -> ~ In k (Dict.keys blocks)) ->
  Neo4jLoader.rel_rows blocks = connections ->
  (blocks' <- for_each Neo4jLoader.parse_node items blocks ;;
   Ok (Neo4jLoader.rel_rows blocks'))
  = for_each ConnectionVersioning.connections_of items connections.
Proof.
  induction items as [|[sid payload] items IH];
    intros blocks connections Hnd Hfresh Hrows.
  - simpl. now rewrite Hrows.
  - cbn [for_each Neo4jLoader.parse_node
         ConnectionVersioning.connections_of].
    destruct (as_dict payload) as [d|e]; [|reflexivity]. cbn [bind].
    destruct (Py.iterate (Dict.get_default "outgoing" (JList []) d))
      as [targets|e]; [|reflexivity]. cbn [bind].
    inversion Hnd as [|? ? Hnotin Hnd']; subst.
    assert (~ In sid (Dict.keys blocks)) as Hsid
        by (apply Hfresh; now left).
    rewrite (@set_absent _ blocks sid _ Hsid). apply IH; [exact Hnd'| |].
    + intros k Hk. unfold Dict.keys. rewrite map_app, in_app_iff.
      intros [Hin|[<-|[]]].
      * apply (Hfresh k); [now right|exact Hin].
      * contradiction.
    + rewrite rel_rows_app. f_equal.
      unfold Neo4jLoader.rel_rows. cbn [flat_map Neo4jLoader.outgoing].
      now rewrite app_nil_r, map_map.
Qed.

(** X12.  On a loaded document the block loader and the connection
    versioner read the same edges: the pairs the loader sends to the
    database for the [CONNECTS_TO] relationships are the connections the
    versioner hashes, in the same order; and where one of the two raises,
    on a node that is no dictionary or an [outgoing] that cannot be
    iterated, the other raises the same exception. *)
Theorem loader_and_versioner_read_the_same_edges (data : json) :
  well_formed data ->
  (blocks <- Neo4jLoader._parse_nodes_from_data data ;;
   Ok (Neo4jLoader.rel_rows blocks))
  = ConnectionVersioning.extract_connections_from_json data.
Proof.
  intros Hwf.
  unfold Neo4jLoader._parse_nodes_from_data,
    ConnectionVersioning.extract_connections_from_json, get_or_empty.
  destruct data as [| | | | |d]; try reflexivity.
  cbn [as_dict bind].
  apply well_formed_dict in Hwf as [_ Hall].
  destruct (Dict.get_default "nodes" (JDict []) d) as [| | | | |items]
    eqn:Hnodes; try reflexivity.
  cbn [as_dict bind].
  assert (Dict.is_dict items) as Hitems.
  { unfold Dict.get_default in Hnodes.
    destruct (Dict.get "nodes" d) as [nodes|] eqn:Hget.
    - subst nodes. apply get_In in Hget.
      rewrite Forall_forall in Hall. specialize (Hall _ Hget).
      now apply well_formed_dict in Hall.
    - injection Hnodes as <-. constructor. }
  apply parse_nodes_rows; [exact Hitems|now intros k _ []|reflexivity].
Qed.

Module EdgesExample.

(** Two blocks, the first with two outgoing edges, one of them given as
    a number. *)
Definition data : json :=
  JDict [("nodes",
          JDict [("1", JDict [("name", JStr "Gain");
                              ("outgoing", JList [JStr "2"; JInt 2])]);
                 ("2", JDict [("name", JStr "Sum")])])].

Lemma data_well_formed : well_formed data.
Proof.
  simpl. repeat split;
    repeat (constructor; [simpl; intuition discriminate|]); constructor.
Defined.

End EdgesExample.

Lemma loader_and_versioner_read_the_same_edges_witness :
  ConnectionVersioning.extract_connections_from_json EdgesExample.data
  = Ok [("1", "2"); ("1", "2")] /\
  (blocks <- Neo4jLoader._parse_nodes_from_data EdgesExample.data ;;
   Ok (Neo4jLoader.rel_rows blocks))
  = ConnectionVersioning.extract_connections_from_json EdgesExample.data.
Proof.
  split; [reflexivity|].
  exact (@loader_and_versioner_read_the_same_edges
           EdgesExample.data EdgesExample.data_well_formed).
Defined.

(* ================================================================== *)
(** * From the exported graph to the versioned connections *)
(* ================================================================== *)

Section VersionedExport.
Import SimulinkAnalyzer.

(** ** The keys of the graph *)

Definition graph_keys (g : graph) : list (option string) := map fst g.

Lemma get_node_None k g : get_node k g = None <-> ~ In k (graph_keys g).
Proof.
  induction g as [|[k' n] g IH]; simpl; [tauto|].
  destruct (sid_eqb k k') eqn:E.
  - apply sid_eqb_eq in E as ->. split; [discriminate|].
    intros H. exfalso. apply H. now left.
  - rewrite IH. split.
    + intros H [->|Hin]; [|contradiction].
      now rewrite sid_eqb_refl in E.
    + intros H Hin. apply H. now right.
Qed.

Lemma set_node_keys k n g :
  graph_keys (set_node k n g)
  = if has_node k g then graph_keys g else graph_keys g ++ [k].
Proof.
  unfold has_node. induction g as [|[k' n'] g IH]; simpl; [reflexivity|].
  destruct (sid_eqb k k') eqn:E; simpl.
  - apply sid_eqb_eq in E. now subst k'.
  - rewrite IH. now destruct (get_node k g).
Qed.

Lemma update_node_keys k f g : graph_keys (update_node k f g) = graph_keys g.
Proof.
  induction g as [|[k' n'] g IH]; simpl; [reflexivity|].
  destruct (sid_eqb k k'); simpl; [reflexivity|now rewrite IH].
Qed.

Lemma add_connection_keys g c : graph_keys (add_connection g c) = graph_keys g.
Proof.
  unfold add_connection.
  destruct (has_node _ g && has_node _ g)%bool; [|reflexivity].
  now rewrite !update_node_keys.
Qed.

Lemma add_connections_keys connections : forall g,
  graph_keys (fold_left add_connection connections g) = graph_keys g.
Proof.
  induction connections as [|c connections IH]; intros g; [reflexivity|].
  cbn [fold_left]. now rewrite IH, add_connection_keys.
Qed.

Lemma add_blocks_keys model_name blocks : forall g,
  NoDup (graph_keys g) ->
  NoDup (graph_keys (fold_left (add_block model_name) blocks g)).
Proof.
  induction blocks as [|[k b] blocks IH]; intros g Hnd; [exact Hnd|].
  cbn [fold_left]. apply IH. unfold add_block. rewrite set_node_keys.
  unfold has_node. destruct (get_node k g) eqn:E; [exact Hnd|].
  apply get_node_None in E.
  apply (Permutation_NoDup (Permutation_cons_append (graph_keys g) k)).
  now constructor.
Qed.

Lemma exported_nodes_keys model_path blocks connections :
  NoDup (graph_keys (exported_nodes model_path blocks connections)).
Proof.
  unfold exported_nodes. rewrite add_connections_keys.
  apply add_blocks_keys. constructor.
Qed.

Lemma has_node_In k g : has_node k g = true <-> In k (graph_keys g).
Proof.
  unfold has_node. induction g as [|[k' n] g IH]; simpl.
  - split; [discriminate|intros []].
  - destruct (sid_eqb k k') eqn:E.
    + apply sid_eqb_eq in E as ->. split; [now left|reflexivity].
    + rewrite IH. split; [now right|]. intros [->|H]; [|exact H].
      now rewrite sid_eqb_refl in E.
Qed.

Lemma get_node_In k n g :
  NoDup (graph_keys g) -> In (k, n) g -> get_node k g = Some n.
Proof.
  induction g as [|[k' n'] g IH]; simpl; [intros _ []|].
  intros Hnd [[= -> ->]|Hin].
  - now rewrite sid_eqb_refl.
  - inversion Hnd as [|? ? Hnotin Hnd']; subst.
    destruct (sid_eqb k k') eqn:E; [|now apply IH].
    apply sid_eqb_eq in E as ->. exfalso. apply Hnotin.
    apply in_map_iff. now exists (k', n).
Qed.

(** ** The document *)

(** No two keys of the graph are written alike: a key [None] is written
    as the SID [null] would be. *)
Lemma key_text_injective (keys : list (option string)) :
  ~ In None keys \/ ~ In (Some "null") keys ->
  forall a b, In a keys -> In b keys -> key_text a = key_text b -> a = b.
Proof.
  intros H [a|] [b|] Ha Hb; simpl; intros E; subst;
    try reflexivity; destruct H as [H|H]; contradiction.
Qed.

Definition dumped (g : graph) : Dict.t json :=
  map (fun '(k, n) => (key_text k, node_document n)) g.

Lemma dump_fold g : forall acc,
  NoDup (map key_text (graph_keys g)) ->
  (forall k, In k (graph_keys g) -> ~ In (key_text k) (Dict.keys acc)) ->
  fold_left (fun d '(k, n) => Dict.set (key_text k) (node_document n) d)
            g acc
  = acc ++ dumped g.
Proof.
  induction g as [|[k n] g IH]; intros acc Hnd Hfresh.
  - simpl. now rewrite app_nil_r.
  - cbn [fold_left]. cbn [graph_keys map fst] in Hnd.
    inversion Hnd as [|? ? Hnotin Hnd']; subst.
    rewrite (@set_absent _ acc (key_text k) _
               (Hfresh k (or_introl eq_refl))).
    rewrite IH; [now rewrite <- app_assoc|exact Hnd'|].
    intros k' Hk'. unfold Dict.keys. rewrite map_app, in_app_iff.
    intros [Hin|[E|[]]].
    + apply (Hfresh k'); [now right|exact Hin].
    + apply Hnotin. cbn [fst] in E. rewrite E.
      now apply in_map.
Qed.

Lemma NoDup_map_injective {A B} (f : A -> B) (l : list A) :
  (forall a b, In a l -> In b l -> f a = f b -> a = b) ->
  NoDup l -> NoDup (map f l).
Proof.
  intros Hinj Hnd. induction Hnd as [|x l Hnotin Hnd IH]; [constructor|].
  cbn [map]. constructor.
  - intros Hin. apply in_map_iff in Hin as [y [E Hy]].
    apply Hnotin.
    rewrite <- (Hinj y x (or_intror Hy) (or_introl eq_refl) E).
    exact Hy.
  - apply IH. intros a b Ha Hb. apply Hinj; now right.
Qed.

(** ** What the versioner reads *)

Definition edge (c : Connection) : string * string :=
  (source_block c, dest_block c).

(** The connections the versioner reads from the node of [k]. *)
Definition read_of (item : option string * node) : list (string * string) :=
  map (fun dst => (key_text (fst item), dst)) (outgoing (snd item)).

Lemma connections_of_dumped g : forall acc,
  for_each ConnectionVersioning.connections_of (dumped g) acc
  = Ok (acc ++ flat_map read_of g).
Proof.
  induction g as [|[k n] g IH]; intros acc.
  - simpl. now rewrite app_nil_r.
  - cbn [dumped map for_each ConnectionVersioning.connections_of].
    cbn [node_document as_dict bind Dict.get_default Dict.get String.eqb
         Ascii.eqb Bool.eqb Py.iterate].
    fold (dumped g). rewrite IH. cbn [flat_map].
    rewrite <- app_assoc. do 3 f_equal.
    unfold read_of. cbn [fst snd]. rewrite map_map. reflexivity.
Qed.

(** ** Buckets *)

Lemma filter_partition {A} (p : A -> bool) (l : list A) :
  Permutation (filter p l ++ filter (fun x => negb (p x)) l) l.
Proof.
  induction l as [|x l IH]; [constructor|]. cbn [filter].
  destruct (p x); cbn [negb app].
  - now constructor.
  - apply Permutation_sym, Permutation_cons_app. now apply Permutation_sym.
Qed.

Lemma filter_filter_and {A} (p q : A -> bool) (l : list A) :
  filter p (filter q l) = filter (fun x => (p x && q x)%bool) l.
Proof.
  induction l as [|x l IH]; [reflexivity|]. cbn [filter].
  destruct (q x); cbn [filter].
  - rewrite andb_true_r. destruct (p x); now rewrite IH.
  - now rewrite andb_false_r.
Qed.

Lemma flat_map_keys {A K B} (f : K * A -> list B) (h : K -> list B)
      (l : list (K * A)) :
  (forall x, In x l -> f x = h (fst x)) ->
  flat_map f l = flat_map h (map fst l).
Proof.
  induction l as [|x l IH]; intros H; [reflexivity|].
  cbn [flat_map map]. rewrite (H x (or_introl eq_refl)), IH; [reflexivity|].
  intros y Hy. apply H. now right.
Qed.

Lemma flat_map_same {A B} (f h : A -> list B) (l : list A) :
  (forall x, In x l -> f x = h x) -> flat_map f l = flat_map h l.
Proof.
  induction l as [|x l IH]; intros H; [reflexivity|].
  cbn [flat_map]. rewrite (H x (or_introl eq_refl)), IH; [reflexivity|].
  intros y Hy. apply H. now right.
Qed.

Definition leaves_from (k : option string) (c : Connection) : bool :=
  sid_eqb k (Some (source_block c)).

(** The connections, grouped by their source in the order of the keys,
    are the connections. *)
Lemma buckets_permutation keys : forall joined,
  NoDup keys ->
  (forall c, In c joined -> In (Some (source_block c)) keys) ->
  Permutation
    (flat_map (fun k => map edge (filter (leaves_from k) joined)) keys)
    (map edge joined).
Proof.
  induction keys as [|k keys IH]; intros joined Hnd Hsrc.
  - destruct joined as [|c joined]; [constructor|].
    destruct (Hsrc c (or_introl eq_refl)).
  - cbn [flat_map]. inversion Hnd as [|? ? Hnotin Hnd']; subst.
    apply Permutation_trans with
      (map edge (filter (leaves_from k) joined
                 ++ filter (fun c => negb (leaves_from k c)) joined));
      [|apply Permutation_map, filter_partition].
    rewrite map_app. apply Permutation_app_head.
    rewrite <- (IH (filter (fun c => negb (leaves_from k c)) joined) Hnd').
    + apply Permutation_refl'. apply flat_map_same. intros k' Hk'.
      f_equal. rewrite filter_filter_and.
      apply filter_ext. intros c. unfold leaves_from.
      destruct (sid_eqb k' (Some (source_block c))) eqn:E1;
        [|reflexivity].
      destruct (sid_eqb k (Some (source_block c))) eqn:E2;
        [|reflexivity].
      apply sid_eqb_eq in E1, E2. subst k k'. contradiction.
    + intros c Hc. apply filter_In in Hc as [Hc Hk].
      destruct (Hsrc c Hc) as [E|Hin]; [|exact Hin].
      unfold leaves_from in Hk. now rewrite <- E, sid_eqb_refl in Hk.
Qed.

(** What the versioner reads from the export of a model. *)
Lemma extract_exported model_path blocks connections :
  has_block None blocks = false \/ has_block (Some "null") blocks = false ->
  ConnectionVersioning.extract_connections_from_json
    (export_to_json model_path blocks connections)
  = Ok (flat_map read_of (exported_nodes model_path blocks connections)).
Proof.
  intros Hnull.
  pose proof (exported_nodes_keys model_path blocks connections) as Hnd.
  destruct (exported_nodes_view model_path blocks connections)
    as [Hhas _].
  unfold export_to_json.
  set (g := exported_nodes model_path blocks connections) in *.
  rewrite dump_fold.
  - cbn [app]. unfold ConnectionVersioning.extract_connections_from_json,
      get_or_empty.
    cbn [as_dict bind Dict.get_default Dict.get String.eqb Ascii.eqb
         Bool.eqb].
    now rewrite connections_of_dumped.
  - apply NoDup_map_injective; [|exact Hnd].
    apply key_text_injective.
    destruct Hnull as [H|H]; [left|right]; intros Hin;
      apply has_node_In in Hin; rewrite Hhas in Hin; congruence.
  - now intros k _ [].
Qed.

Lemma read_exported model_path blocks connections :
  Permutation
    (flat_map read_of (exported_nodes model_path blocks connections))
    (map edge (filter (joins blocks) connections)).
Proof.
  pose proof (exported_nodes_keys model_path blocks connections) as Hnd.
  destruct (exported_nodes_view model_path blocks connections)
    as [Hhas Hlists].
  set (g := exported_nodes model_path blocks connections) in *.
  rewrite (flat_map_keys read_of
             (fun k => map edge (filter (leaves_from k)
                                        (filter (joins blocks)
                                                connections)))).
  - apply buckets_permutation; [exact Hnd|].
    intros c Hc. apply filter_In in Hc as [_ Hc].
    apply has_node_In. rewrite Hhas.
    unfold joins in Hc. now apply andb_true_iff in Hc.
  - intros [k n] Hin. cbn [fst].
    destruct (Hlists k n (@get_node_In k n g Hnd Hin)) as [_ Ho].
    unfold read_of. cbn [fst snd]. rewrite Ho, map_map.
    rewrite filter_filter_and.
    rewrite (filter_ext
               (fun c => (leaves_from k c && joins blocks c)%bool)
               (fun c => (joins blocks c
                          && sid_eqb k (Some (source_block c)))%bool))
      by (intros c; apply andb_comm).
    apply map_ext_in. intros c Hc. apply filter_In in Hc as [_ Hc].
    apply andb_true_iff in Hc as [_ Hc]. apply sid_eqb_eq in Hc.
    now subst k.
Qed.

End VersionedExport.

(** X13.  The export of a model can be versioned as it is: on the
    document [export_to_json] writes, the extraction of the connections
    returns, and what it returns are the connections whose two ends are
    blocks, each as often as the model has it, grouped by source block; so
    the hash of the extracted connections is the hash of those
    connections.  A block without SID beside a block whose SID is [null]
    is excluded: the two are written under one key. *)
Theorem exported_model_versions_its_joined_connections
        (model_path : Path.t)
        (blocks : list (option string * SimulinkAnalyzer.Block))
        (connections : list SimulinkAnalyzer.Connection) :
  SimulinkAnalyzer.has_block None blocks = false \/
  SimulinkAnalyzer.has_block (Some "null") blocks = false ->
  let joined := map edge (filter (joins blocks) connections) in
  exists extracted,
    ConnectionVersioning.extract_connections_from_json
      (SimulinkAnalyzer.export_to_json model_path blocks connections)
    = Ok extracted /\
    Permutation extracted joined /\
    ConnectionVersioning.compute_connections_hash extracted
    = ConnectionVersioning.compute_connections_hash joined.
Proof.
  intros Hnull joined.
  exists (flat_map read_of
            (SimulinkAnalyzer.exported_nodes model_path blocks connections)).
  pose proof (read_exported model_path blocks connections) as Hp.
  split; [now apply extract_exported|]. split; [exact Hp|].
  unfold ConnectionVersioning.compute_connections_hash.
  now rewrite (sorted_order_independent Hp).
Qed.

Module ExportExample.
Import SimulinkAnalyzer.

Definition block (name block_type : string) : Block :=
  {| sid := None; name := name; block_type := block_type; position := [];
     properties := []; parent_system := EmptyString;
     input_ports := 0; output_ports := 0 |}.

Definition line (src dst : string) : Connection :=
  {| source_block := src; source_port := 1; dest_block := dst;
     dest_port := 1; signal_name := None; branches := None |}.

(** Three blocks; the second connection leaves from a block that comes
    later, the third one ends outside the model. *)
Definition blocks : list (option string * Block) :=
  [(Some "1", block "In" "Inport"); (Some "2", block "Gain" "Gain");
   (Some "3", block "Out" "Outport")].

Definition connections : list Connection :=
  [line "2" "3"; line "1" "2"; line "2" "9"; line "1" "3"].

End ExportExample.

Lemma exported_model_versions_its_joined_connections_witness :
  ConnectionVersioning.extract_connections_from_json
    (SimulinkAnalyzer.export_to_json
       ["models"; "pump"] ExportExample.blocks ExportExample.connections)
  = Ok [("1", "2"); ("1", "3"); ("2", "3")] /\
  exists extracted,
    ConnectionVersioning.extract_connections_from_json
      (SimulinkAnalyzer.export_to_json
         ["models"; "pump"] ExportExample.blocks ExportExample.connections)
    = Ok extracted /\
    Permutation extracted [("2", "3"); ("1", "2"); ("1", "3")] /\
    ConnectionVersioning.compute_connections_hash extracted
    = ConnectionVersioning.compute_connections_hash
        [("2", "3"); ("1", "2"); ("1", "3")].
Proof.
  split; [reflexivity|].
  exact (@exported_model_versions_its_joined_connections
           ["models"; "pump"] ExportExample.blocks
           ExportExample.connections (or_introl eq_refl)).
Defined.

(* ================================================================== *)
(** * Validation before the requirements are loaded *)
(* ================================================================== *)

Section Validation.
Import CameoNeo4jLoader.

(** What the validation asks of a payload. *)
Definition acceptable (payload : json) : Prop :=
  exists d incoming outgoing,
    payload = JDict d /\
    truthy (get_or_none "name" d) = true /\
    truthy (get_or_none "node_type" d) = true /\
    Dict.get_default "incoming" (JList []) d = JList incoming /\
    Dict.get_default "outgoing" (JList []) d = JList outgoing.

Lemma validate_node_app errors item :
  validate_node errors item = errors ++ validate_node [] item.
Proof.
  destruct item as [req_id payload]. unfold validate_node.
  destruct payload as [| | | | |d]; try reflexivity.
  destruct (negb (truthy (get_or_none "name" d)));
    destruct (negb (truthy (get_or_none "node_type" d)));
    destruct (negb (Py.is_list (Dict.get_default "incoming" (JList []) d)));
    destruct (negb (Py.is_list (Dict.get_default "outgoing" (JList []) d)));
    cbn [app]; rewrite <- ?app_assoc; cbn [app];
    try reflexivity; now rewrite app_nil_r.
Qed.

Lemma validate_nodes_app items : forall errors,
  fold_left validate_node items errors
  = errors ++ flat_map (validate_node []) items.
Proof.
  induction items as [|item items IH]; intros errors.
  - simpl. now rewrite app_nil_r.
  - cbn [fold_left flat_map]. rewrite IH, validate_node_app.
    now rewrite <- app_assoc.
Qed.

Lemma validate_node_acceptable req_id payload :
  validate_node [] (req_id, payload) = [] <-> acceptable payload.
Proof.
  unfold validate_node, acceptable. split.
  - destruct payload as [| | | | |d]; try discriminate.
    intros H. exists d.
    destruct (truthy (get_or_none "name" d));
      destruct (truthy (get_or_none "node_type" d));
      destruct (Dict.get_default "incoming" (JList []) d)
        as [| | | |incoming|];
      destruct (Dict.get_default "outgoing" (JList []) d)
        as [| | | |outgoing|];
      cbn [negb Py.is_list app] in H; try discriminate H.
    now exists incoming, outgoing.
  - intros [d [incoming [outgoing [-> [Hn [Ht [Hi Ho]]]]]]].
    now rewrite Hn, Ht, Hi, Ho.
Qed.

Lemma validate_nodes_acceptable items :
  fold_left validate_node items [] = [] <->
  Forall (fun item => acceptable (snd item)) items.
Proof.
  rewrite validate_nodes_app. cbn [app].
  induction items as [|[req_id payload] items IH]; [now split|].
  cbn [flat_map]. split.
  - intros H. apply app_eq_nil in H as [H1 H2].
    constructor; [now apply validate_node_acceptable in H1|now apply IH].
  - intros H. inversion H as [|? ? H1 H2]; subst. cbn [snd] in H1.
    apply (validate_node_acceptable req_id) in H1. rewrite H1.
    now apply IH.
Qed.

(** The node made of an acceptable payload. *)
Definition node_from (req_id : string) (payload : json) : RequirementNode :=
  let d := match payload with JDict d => d | _ => [] end in
  let node_type :=
    Py.str (Dict.get_default "node_type" (JStr EmptyString) d) in
  {| req_id := req_id;
     name := Py.str (Dict.get_default "name" (JStr EmptyString) d);
     node_type := if PyStr.startswith "Requirement_" node_type
                  then slice_from 12 node_type else node_type;
     text := Py.str (Dict.get_default "text" (JStr EmptyString) d);
     xmi_id := Py.str (Dict.get_default "xmi_id" (JStr EmptyString) d);
     incoming :=
       match Dict.get_default "incoming" (JList []) d with
       | JList l => map Py.str l
       | _ => []
       end;
     outgoing :=
       match Dict.get_default "outgoing" (JList []) d with
       | JList l => map Py.str l
       | _ => []
       end;
     source_file := get_or_none "source_file" d;
     properties := Dict.get_default "properties" (JDict []) d |}.

Lemma parse_node_acceptable nodes req_id payload :
  acceptable payload ->
  parse_node nodes (req_id, payload)
  = Ok (Dict.set req_id (node_from req_id payload) nodes).
Proof.
  intros [d [incoming [outgoing [-> [_ [_ [Hi Ho]]]]]]].
  unfold parse_node, node_from, strs. cbn [as_dict bind].
  rewrite Hi, Ho. reflexivity.
Qed.

Lemma parse_nodes_acceptable items : forall nodes,
  Forall (fun item => acceptable (snd item)) items ->
  for_each parse_node items nodes
  = Ok (fill fst (fun item => node_from (fst item) (snd item)) nodes items).
Proof.
  induction items as [|[req_id payload] items IH]; intros nodes Hall.
  - reflexivity.
  - inversion Hall as [|? ? H1 H2]; subst. cbn [for_each].
    cbn [snd] in H1.
    rewrite (parse_node_acceptable nodes req_id H1). cbn [bind].
    now rewrite IH.
Qed.

(** Every node is stored under its own id. *)
Lemma fill_own_id items : forall (nodes : Dict.t RequirementNode),
  Forall (fun entry => req_id (snd entry) = fst entry) nodes ->
  Forall (fun entry => req_id (snd entry) = fst entry)
         (fill fst (fun item => node_from (fst item) (snd item))
               nodes items).
Proof.
  induction items as [|[k payload] items IH]; intros nodes Hall;
    [exact Hall|].
  unfold fill. cbn [fold_left]. apply IH. now apply Forall_set.
Qed.

End Validation.

(** What a call of the parser that returns has returned. *)
Definition parsed_from (data : json)
           (reqs : Dict.t CameoNeo4jLoader.RequirementNode) : Prop :=
  CameoNeo4jLoader.validate_requirement_data data = [] /\
  exists d items,
    data = JDict d /\ Dict.get "nodes" d = Some (JDict items) /\
    Forall (fun item => acceptable (snd item)) items /\
    Dict.is_dict reqs /\
    (forall k, In k (Dict.keys reqs) <-> In k (Dict.keys items)) /\
    Forall (fun entry => CameoNeo4jLoader.req_id (snd entry) = fst entry)
           reqs /\
    forall earlier k payload later,
      items = earlier ++ (k, payload) :: later ->
      ~ In k (Dict.keys later) ->
      Dict.get k reqs = Some (node_from k payload).

(** X14.  The validation guards the parser: on any value whatever,
    [_parse_nodes_from_data] either returns or raises the [ValueError]
    that lists the validation errors, and nothing else; it raises exactly
    when the validation finds an error.  When it returns, the document is
    a dictionary whose [nodes] are acceptable payloads, and the result
    holds one node per key of [nodes], stored under its own id and made
    of the last payload of that key. *)
Theorem validation_guards_the_parser (data : json) :
  match CameoNeo4jLoader._parse_nodes_from_data data with
  | CameoNeo4jLoader.Returned reqs => parsed_from data reqs
  | CameoNeo4jLoader.ValueError message =>
      CameoNeo4jLoader.validate_requirement_data data <> [] /\
      message
      = PyStr.join CameoNeo4jLoader.separator
          ("Validation errors:"
           :: CameoNeo4jLoader.validate_requirement_data data)
  | CameoNeo4jLoader.Raised _ => False
  end.
Proof.
  unfold CameoNeo4jLoader._parse_nodes_from_data.
  destruct (CameoNeo4jLoader.validate_requirement_data data)
    as [|e errors] eqn:Hv; [|split; [discriminate|reflexivity]].
  unfold CameoNeo4jLoader.validate_requirement_data in Hv.
  destruct data as [| | | | |d]; try discriminate.
  unfold CameoNeo4jLoader.get_or_none, Dict.get_default in Hv.
  unfold get_or_empty, Dict.get_default. cbn [as_dict bind].
  destruct (Dict.get "nodes" d) as [[| | | | |items]|] eqn:Hnodes;
    try discriminate.
  cbn [as_dict bind].
  apply validate_nodes_acceptable in Hv.
  rewrite (parse_nodes_acceptable [] Hv).
  split.
  - unfold CameoNeo4jLoader.validate_requirement_data,
      CameoNeo4jLoader.get_or_none, Dict.get_default.
    rewrite Hnodes. now apply validate_nodes_acceptable.
  - exists d, items. split; [reflexivity|]. split; [exact Hnodes|].
    split; [exact Hv|]. split; [apply fill_is_dict; constructor|].
    split; [|split].
    + intros k. rewrite fill_keys. split.
      * intros [[]|[x [Hx <-]]]. now apply in_map.
      * intros Hk. right. apply in_map_iff in Hk as [x [Hk Hx]].
        now exists x.
    + apply fill_own_id. constructor.
    + intros earlier k payload later -> Hlast.
      apply (fill_last fst (fun item => node_from (fst item) (snd item))
                       earlier (k, payload) later []).
      intros y Hy E. apply Hlast. cbn [fst] in E. rewrite <- E.
      now apply in_map.
Qed.

(* ================================================================== *)
(** * From the analyzer to the requirement loader *)
(* ================================================================== *)

(** The node the loader makes of an exported requirement. *)
Definition loaded_node (r : CameoAnalyzer.Requirement)
  : CameoNeo4jLoader.RequirementNode :=
  {| CameoNeo4jLoader.req_id := CameoAnalyzer.req_id r;
     CameoNeo4jLoader.name := CameoAnalyzer.name r;
     CameoNeo4jLoader.node_type := CameoAnalyzer.req_type r;
     CameoNeo4jLoader.text := CameoAnalyzer.text r;
     CameoNeo4jLoader.xmi_id := CameoAnalyzer.xmi_id r;
     CameoNeo4jLoader.incoming := CameoAnalyzer.derives_from r;
     CameoNeo4jLoader.outgoing :=
       CameoAnalyzer.refines r ++ CameoAnalyzer.satisfies r
       ++ CameoAnalyzer.verifies r ++ CameoAnalyzer.traces_to r;
     CameoNeo4jLoader.source_file := JNull;
     CameoNeo4jLoader.properties :=
       CameoAnalyzer.string_dict (CameoAnalyzer.properties r) |}.

Lemma valid_name_nonempty name : valid_name name -> name <> EmptyString.
Proof. intros [Hlen _] ->. simpl in Hlen. lia. Qed.

Lemma map_str_strings l : map Py.str (map JStr l) = l.
Proof. rewrite map_map. apply map_id. Qed.

Lemma node_of_acceptable r :
  CameoAnalyzer.name r <> EmptyString ->
  acceptable (CameoAnalyzer.node_of r).
Proof.
  intros Hname. unfold CameoAnalyzer.node_of, CameoAnalyzer.strings.
  eexists. eexists. eexists. split; [reflexivity|].
  split; [|split; [reflexivity|split; reflexivity]].
  unfold CameoNeo4jLoader.get_or_none, Dict.get_default.
  cbn [Dict.get String.eqb Ascii.eqb Bool.eqb truthy].
  destruct (CameoAnalyzer.name r); [contradiction|reflexivity].
Qed.

Lemma node_from_node_of r :
  node_from (CameoAnalyzer.req_id r) (CameoAnalyzer.node_of r)
  = loaded_node r.
Proof.
  unfold node_from, loaded_node, CameoAnalyzer.node_of,
    CameoAnalyzer.strings, CameoNeo4jLoader.get_or_none, Dict.get_default.
  cbn [Dict.get String.eqb Ascii.eqb Bool.eqb Py.str].
  rewrite !map_str_strings.
  unfold PyStr.startswith. rewrite prefix_app. reflexivity.
Qed.

Lemma fill_acceptable {A} (key : A -> string) (value : A -> json) l :
  Forall (fun x => acceptable (value x)) l ->
  forall d,
    Forall (fun item => acceptable (snd item)) d ->
    Forall (fun item => acceptable (snd item)) (fill key value d l).
Proof.
  induction 1 as [|x l Hx Hl IH]; intros d Hd; [exact Hd|].
  unfold fill. cbn [fold_left]. apply IH. now apply Forall_set.
Qed.

Lemma fill_dict {V W} (value : string * V -> W) (items : Dict.t V) :
  forall d,
    Dict.is_dict items ->
    (forall k, In k (Dict.keys items) -> ~ In k (Dict.keys d)) ->
    fill fst value d items
    = d ++ map (fun item => (fst item, value item)) items.
Proof.
  induction items as [|[k v] items IH]; intros d Hnd Hfresh.
  - simpl. now rewrite app_nil_r.
  - unfold fill. cbn [fold_left fst].
    inversion Hnd as [|? ? Hnotin Hnd']; subst.
    rewrite (@set_absent _ d k _ (Hfresh k (or_introl eq_refl))).
    fold (fill fst value (d ++ [(k, value (k, v))]) items).
    rewrite IH; [now rewrite <- app_assoc|exact Hnd'|].
    intros k' Hk'. unfold Dict.keys. rewrite map_app, in_app_iff.
    intros [Hin|[E|[]]].
    + apply (Hfresh k'); [now right|exact Hin].
    + cbn [fst] in E. subst k'. contradiction.
Qed.

Lemma get_map_values {V W} (f : string -> V -> W) k (items : Dict.t V) :
  Dict.get k (map (fun item => (fst item, f (fst item) (snd item))) items)
  = option_map (f k) (Dict.get k items).
Proof.
  induction items as [|[k' v] items IH]; [reflexivity|].
  cbn [map Dict.get fst snd].
  destruct (String.eqb_spec k k') as [->|_]; [reflexivity|exact IH].
Qed.

(** X15.  Whatever an archive holds, the document the analyzer exports
    of it passes the validation of the requirement loader and is parsed
    without an error.  The loader has a node for every [req_id] that
    occurs, and the node holds what the last requirement with that id
    held: its name, text and [xmi_id], its type without the
    [Requirement_] prefix the export put before it, its [derives_from]
    list as [incoming], the other four lists, in order, as [outgoing],
    and no source file. *)
Theorem exported_requirements_are_loaded (archive : CameoAnalyzer.mdzip) :
  let self := CameoAnalyzer.extract_and_parse archive CameoAnalyzer.init in
  exists reqs,
    CameoNeo4jLoader._parse_nodes_from_data
      (CameoAnalyzer.export_to_json self)
    = CameoNeo4jLoader.Returned reqs /\
    (forall id,
       In id (Dict.keys reqs) <->
       exists entry,
         In entry (CameoAnalyzer.requirements self) /\
         CameoAnalyzer.req_id (snd entry) = id) /\
    (forall earlier k r later,
       CameoAnalyzer.requirements self = earlier ++ (k, r) :: later ->
       (forall entry, In entry later ->
          CameoAnalyzer.req_id (snd entry) <> CameoAnalyzer.req_id r) ->
       Dict.get (CameoAnalyzer.req_id r) reqs = Some (loaded_node r)).
Proof.
  intros self.
  assert (all_valid (CameoAnalyzer.requirements self)) as Hvalid
      by (apply extract_and_parse_valid; constructor).
  rewrite export_to_json_fill.
  set (items := fill (fun e => CameoAnalyzer.req_id (snd e))
                     (fun e => CameoAnalyzer.node_of (snd e))
                     [] (CameoAnalyzer.requirements self)).
  assert (Forall (fun item => acceptable (snd item)) items) as Hacc.
  { apply fill_acceptable; [|constructor].
    eapply Forall_impl; [|exact Hvalid].
    intros e He. now apply node_of_acceptable, valid_name_nonempty. }
  assert (Dict.is_dict items) as Hdict by (apply fill_is_dict; constructor).
  unfold CameoNeo4jLoader._parse_nodes_from_data.
  unfold CameoNeo4jLoader.validate_requirement_data, get_or_empty,
    CameoNeo4jLoader.get_or_none.
  cbn [as_dict bind]. unfold Dict.get_default.
  cbn [Dict.get String.eqb Ascii.eqb Bool.eqb as_dict bind].
  rewrite (proj2 (validate_nodes_acceptable items) Hacc).
  rewrite (parse_nodes_acceptable [] Hacc).
  eexists. split; [reflexivity|]. split.
  - intros id. rewrite fill_keys. unfold items. split.
    + intros [[]|[[k p] [Hin <-]]]. cbn [fst].
      apply in_map with (f := fst) in Hin.
      now apply fill_keys in Hin as [[]|Hin].
    + intros Hex. right.
      assert (In id (Dict.keys
                       (fill (fun e => CameoAnalyzer.req_id (snd e))
                             (fun e => CameoAnalyzer.node_of (snd e))
                             [] (CameoAnalyzer.requirements self))))
        as Hin by (apply fill_keys; now right).
      apply in_map_iff in Hin as [x [Hk Hx]]. now exists x.
  - intros earlier k r later Hreqs Hlast.
    rewrite (@fill_dict _ _ (fun item => node_from (fst item) (snd item))
               items [] Hdict) by (now intros k0 _ []).
    cbn [app].
    rewrite (get_map_values node_from).
    unfold items.
    rewrite Hreqs.
    pose proof (fill_last (fun e => CameoAnalyzer.req_id (snd e))
                          (fun e => CameoAnalyzer.node_of (snd e))
                          earlier (k, r) later []) as Hget.
    cbn [snd] in Hget. rewrite Hget by (intros y Hy; now apply Hlast).
    cbn [option_map]. now rewrite node_from_node_of.
Qed.
